(** * RISC-V UART bootloader: boot decision, image validation, update session

    A shallow embedding of the bootloader core (src/main.c in its two
    revisions, src/flash.c, src/uart.c, include/boot.h and
    boards/qemu_virt/platform.{h,c}) and the properties of its boot gate,
    update protocol and storage gateway.

    The target is RV32 (-march=rv32im_zicsr -mabi=ilp32 in the Makefile):
    uint32_t and size_t are 32 bits wide and wrap modulo 2^32, the machine is
    little-endian, and a char holds 8 bits.

    The file has two parts: first the embedding and the vocabulary the
    properties are stated in, then the lemmas and theorems. *)

From Stdlib Require Import ZArith List String Ascii Bool Lia.
Import ListNotations.
Open Scope Z_scope.

(** ** Machine integers *)

Definition u8 (z : Z) : Z := z mod 2 ^ 8.
Definition u32 (z : Z) : Z := z mod 2 ^ 32.

(** The numeric value of a char. *)
Definition code (c : ascii) : Z := Z.of_N (N_of_ascii c).

Definition LF : ascii := ascii_of_nat 10.
Definition CR : ascii := ascii_of_nat 13.

(** ** boards/qemu_virt/platform.h and include/boot.h: configuration *)

Definition FLASH_BASE : Z := 0x80000000.
Definition APP_BASE : Z := 0x80010000.
Definition FLASH_SIZE : Z := 64 * 1024.
Definition APP_MAX_SIZE : Z := 448 * 1024.
Definition PLATFORM_NAME : string := "QEMU Virt (RV32IM)".
Definition BOOT_MAGIC : Z := 0x5256424C.

(** typedef struct { uint32_t magic, size, crc32, version; } fw_header_t; *)
Record fw_header_t := mk_fw_header {
  hdr_magic : Z;
  hdr_size : Z;
  hdr_crc32 : Z;
  hdr_version : Z
}.

Definition sizeof_fw_header_t : Z := 16.

(** The largest payload the partition can hold, as both size checks compute
    it: APP_MAX_SIZE - sizeof(fw_header_t), an unsigned 32-bit value. *)
Definition APP_PAYLOAD_MAX : Z := u32 (APP_MAX_SIZE - sizeof_fw_header_t).

(** ** Memory: byte-addressed, little-endian *)

Definition memory := Z -> Z.

Definition load8 (m : memory) (a : Z) : Z := u8 (m a).

Definition store8 (m : memory) (a b : Z) : memory :=
  fun x => if x =? a then u8 b else m x.

Definition load32 (m : memory) (a : Z) : Z :=
  load8 m a + 2 ^ 8 * load8 m (a + 1) + 2 ^ 16 * load8 m (a + 2)
  + 2 ^ 24 * load8 m (a + 3).

(** The bytes of a 32-bit word, lowest first. *)
Definition le32 (v : Z) : list Z :=
  [u8 v; u8 (v / 2 ^ 8); u8 (v / 2 ^ 16); u8 (v / 2 ^ 24)].

(** The object representation of a fw_header_t: four words, no padding. *)
Definition header_bytes (h : fw_header_t) : list Z :=
  le32 (hdr_magic h) ++ le32 (hdr_size h) ++ le32 (hdr_crc32 h)
  ++ le32 (hdr_version h).

(** for (i = 0; i < size; i++) dest[i] = src[i]; *)
Fixpoint copy_bytes (dest : Z) (src : list Z) (m : memory) : memory :=
  match src with
  | [] => m
  | b :: src' => copy_bytes (dest + 1) src' (store8 m dest b)
  end.

(** for (i = 0; i < size; i++) dest[i] = 0xFF; *)
Fixpoint fill_bytes (n : nat) (dest : Z) (b : Z) (m : memory) : memory :=
  match n with
  | O => m
  | S n' => fill_bytes n' (dest + 1) b (store8 m dest b)
  end.

(** The [n] bytes a [const uint8_t *] at [a] points to. *)
Fixpoint read_bytes (m : memory) (a : Z) (n : nat) : list Z :=
  match n with
  | O => []
  | S n' => load8 m a :: read_bytes m (a + 1) n'
  end.

(** ** The board: HAL layer 1 (boot.h), implemented per board *)

(** A flash primitive returns the int status and the memory it leaves. *)
Class Board := {
  board_flash_write : Z -> list Z -> memory -> Z * memory;
  board_flash_erase : Z -> Z -> memory -> Z * memory
}.

(** boards/qemu_virt/platform.c: RAM-backed flash, both primitives return 0. *)
Definition qemu_flash_write (addr : Z) (data : list Z) (m : memory)
  : Z * memory :=
  (0, copy_bytes addr data m).

Definition qemu_flash_erase (addr size : Z) (m : memory) : Z * memory :=
  (0, fill_bytes (Z.to_nat size) addr 0xFF m).

Definition qemu_virt : Board :=
  {| board_flash_write := qemu_flash_write;
     board_flash_erase := qemu_flash_erase |}.

(** ** The checksum engine (boot.h: uint32_t crc32(const uint8_t *, size_t)) *)

Class ChecksumEngine := { checksum : list Z -> Z }.

(** Modelled from the spec: one step of the bit-driven CRC-32 of section
    4.1 (src/crc32.c): shift right, xor the reflected polynomial in when the
    low bit was set. *)
Definition crc_shift (c : Z) : Z :=
  if Z.testbit c 0 then Z.lxor (Z.shiftr c 1) 0xEDB88320 else Z.shiftr c 1.

(** Modelled from the spec: the eight steps a byte of input takes
    (src/crc32.c). *)
Definition crc_byte (c b : Z) : Z :=
  crc_shift (crc_shift (crc_shift (crc_shift (crc_shift (crc_shift
    (crc_shift (crc_shift (Z.lxor c (u8 b))))))))).

(** Modelled from the spec: crc32 of src/crc32.c, which the Makefile lists
    and boot.h declares.  Section 4.1 defines the checksum as the standard
    CRC-32 of zlib-compatible implementations: reflected polynomial
    0xEDB88320, initial value 0xFFFFFFFF, final complement; the empty input
    yields 0.  The embedding of the core takes the checksum as a parameter
    ([ChecksumEngine]); this is the instance concrete runs use. *)
Definition crc32_zlib (data : list Z) : Z :=
  Z.lxor (fold_left crc_byte data 0xFFFFFFFF) 0xFFFFFFFF.

Definition zlib : ChecksumEngine := {| checksum := crc32_zlib |}.

(** ** The world the bootloader runs in *)

(** What the properties observe: every effect at the hardware boundary, and
    the calls of uart_puts, crc32 and validate_app. *)
Inductive event :=
| EvEarlyInit                                  (* platform_early_init() *)
| EvUartInit                                   (* platform_uart_init() *)
| EvPuts (s : string)                          (* uart_puts(s) is entered *)
| EvTx (c : ascii)                             (* platform_uart_putc(c) *)
| EvRx (c : ascii)                             (* platform_uart_getc() = c *)
| EvFlashWrite (addr : Z) (data : list Z) (rc : Z)
                                               (* platform_flash_write *)
| EvFlashErase (addr size : Z) (rc : Z)        (* platform_flash_erase *)
| EvStore (addr b : Z)                         (* dest[j] = b *)
| EvCrc32 (addr len : Z)                       (* crc32(addr, len) *)
| EvValidate (rc : Z)                          (* validate_app() = rc *)
| EvJump (addr : Z)                            (* app_entry() *)
| EvReset.                                     (* platform_reset() *)

Record world := mk_world {
  mem : memory;            (* physical memory *)
  rx : list ascii;         (* bytes the host has yet to deliver *)
  trace : list event       (* what happened so far, oldest first *)
}.

Definition extend (evs : list event) (w : world) : world :=
  {| mem := mem w; rx := rx w; trace := trace w ++ evs |}.

(** ** Blocking, non-returning code as a state monad with early stop *)

Inductive outcome :=
| Blocked      (* waiting for a byte the host never sends *)
| Handoff      (* control went to the application *)
| Rebooted     (* platform_reset() *)
| OutOfFuel.   (* a loop bound of the model ran out; [main_total] and
                  [session_total] show that it never does *)

Inductive result (A : Type) :=
| Ret (a : A) (w : world)
| Stop (o : outcome) (w : world).
Arguments Ret {A} a w.
Arguments Stop {A} o w.

Definition M (A : Type) := world -> result A.

Definition ret {A} (a : A) : M A := fun w => Ret a w.

Definition bind {A B} (c : M A) (k : A -> M B) : M B :=
  fun w => match c w with
           | Ret a w' => k a w'
           | Stop o w' => Stop o w'
           end.

Definition stop {A} (o : outcome) : M A := fun w => Stop o w.

Notation "x <- c1 ;; c2" := (bind c1 (fun x => c2))
  (at level 61, c1 at next level, right associativity).
Notation "c1 ;; c2" := (bind c1 (fun _ => c2))
  (at level 61, right associativity).

Definition world_of {A} (r : result A) : world :=
  match r with Ret _ w => w | Stop _ w => w end.

Definition signal (e : event) : M unit := fun w => Ret tt (extend [e] w).

Definition read_mem {A} (f : memory -> A) : M A := fun w => Ret (f (mem w)) w.

(** A loop that reads at least one byte per round is run with one more
    round than there are bytes pending. *)
Definition rounds (w : world) : nat := S (List.length (rx w)).

Section Bootloader.

Context {board : Board} {engine : ChecksumEngine}.

(** ** HAL layer 1 as seen from the core *)

Definition platform_early_init : M unit := signal EvEarlyInit.
Definition platform_uart_init : M unit := signal EvUartInit.
Definition platform_uart_putc (c : ascii) : M unit := signal (EvTx c).

(** Blocks until RX has data. *)
Definition platform_uart_getc : M ascii :=
  fun w => match rx w with
           | [] => Stop Blocked w
           | c :: pending =>
               Ret c {| mem := mem w; rx := pending;
                        trace := trace w ++ [EvRx c] |}
           end.

Definition platform_flash_write (addr : Z) (data : list Z) : M Z :=
  fun w => let (rc, m) := board_flash_write addr data (mem w) in
           Ret rc {| mem := m; rx := rx w;
                     trace := trace w ++ [EvFlashWrite addr data rc] |}.

Definition platform_flash_erase (addr size : Z) : M Z :=
  fun w => let (rc, m) := board_flash_erase addr size (mem w) in
           Ret rc {| mem := m; rx := rx w;
                     trace := trace w ++ [EvFlashErase addr size rc] |}.

Definition platform_reset {A} : M A := signal EvReset ;; stop Rebooted.

(** uint32_t crc32(const uint8_t *data, size_t len) *)
Definition crc32 (data len : Z) : M Z :=
  signal (EvCrc32 data len) ;;
  read_mem (fun m => u32 (checksum (read_bytes m data (Z.to_nat len)))).

(** *p = b through a uint8_t pointer. *)
Definition poke (addr b : Z) : M unit :=
  fun w => Ret tt {| mem := store8 (mem w) addr b; rx := rx w;
                     trace := trace w ++ [EvStore addr (u8 b)] |}.

(** ** src/uart.c *)

Definition uart_init : M unit :=
  platform_early_init ;;
  platform_uart_init.

Definition uart_putc (c : ascii) : M unit :=
  (if Ascii.eqb c LF then platform_uart_putc CR else ret tt) ;;
  platform_uart_putc c.

Definition uart_getc : M ascii := platform_uart_getc.

(** The loop of uart_puts: uart_putc for each char up to the final NUL. *)
Fixpoint uart_puts_loop (s : string) : M unit :=
  match s with
  | EmptyString => ret tt
  | String c s' => uart_putc c ;; uart_puts_loop s'
  end.

Definition uart_puts (s : string) : M unit :=
  signal (EvPuts s) ;;
  uart_puts_loop s.

(** ** src/flash.c *)

(** size is the length of the buffer handed in; addr + size is computed in
    32 bits. *)
Definition flash_write (addr : Z) (data : list Z) : M Z :=
  let size := Z.of_nat (List.length data) in
  if (addr <? APP_BASE) || (u32 (addr + size) >? u32 (APP_BASE + APP_MAX_SIZE))
  then ret (-1)
  else platform_flash_write addr data.

Definition flash_erase_app : M Z :=
  platform_flash_erase APP_BASE APP_MAX_SIZE.

Definition flash_write_header (header : fw_header_t) : M Z :=
  platform_flash_write APP_BASE (header_bytes header).

(** ** src/main.c

    The repository holds two revisions of main.c.  [main_c] is src/main.c:
    lines end in "\n\r" and a committed update ends in platform_reset().
    [part_005] is the later revision (unnamed/part_005, with the platform.h
    of unnamed/part_000): lines end in "\n", the menu echoes a newline,
    jump_to_app announces APP_HANDOFF, and a committed update ends as the
    switch PLATFORM_DIRECT_BOOT_AFTER_UPDATE of platform.h says (1 in the
    later platform.h, absent, hence 0 under #if, in the earlier one). *)

Inductive revision := main_c | part_005.

Record build := mk_build {
  rev_of : revision;
  PLATFORM_DIRECT_BOOT_AFTER_UPDATE : bool
}.

Variable cfg : build.

Definition eol : string :=
  match rev_of cfg with
  | main_c => String LF (String CR EmptyString)
  | part_005 => String LF EmptyString
  end.

(** A string literal that ends in the revision's line ending. *)
Definition line (s : string) : string := (s ++ eol)%string.

Definition print_banner : M unit :=
  uart_puts (match rev_of cfg with
             | main_c => line (String LF (String CR
                           "======================================"))
             | part_005 => line "======================================"
             end) ;;
  uart_puts (line "   Professional RISC-V Bootloader    ") ;;
  uart_puts (line ("   Target: " ++ PLATFORM_NAME ++ "        ")) ;;
  uart_puts (line "======================================").

(** The fw_header_t a pointer to [a] designates. *)
Definition header_at (m : memory) (a : Z) : fw_header_t :=
  {| hdr_magic := load32 m a;
     hdr_size := load32 m (a + 4);
     hdr_crc32 := load32 m (a + 8);
     hdr_version := load32 m (a + 12) |}.

Definition validate_app : M Z :=
  rc <- (header <- read_mem (fun m => header_at m APP_BASE) ;;
         if negb (hdr_magic header =? BOOT_MAGIC) then
           uart_puts (line "Error: Invalid magic number") ;;
           ret (-1)
         else if (hdr_size header =? 0)
                 || (hdr_size header >? APP_PAYLOAD_MAX) then
           uart_puts (line "Error: Invalid firmware size") ;;
           ret (-1)
         else
           calc_crc <- crc32 (APP_BASE + sizeof_fw_header_t)
                             (hdr_size header) ;;
           if negb (calc_crc =? hdr_crc32 header) then
             uart_puts (line "Error: CRC mismatch") ;;
             ret (-1)
           else ret 0) ;;
  signal (EvValidate rc) ;;
  ret rc.

(** The call of app_entry() is where control leaves the bootloader. *)
Definition jump_to_app {A} : M A :=
  uart_puts (line "Jumping to application...") ;;
  match rev_of cfg with
  | main_c => ret tt
  | part_005 => uart_puts (line "APP_HANDOFF")
  end ;;
  signal (EvJump (APP_BASE + sizeof_fw_header_t)) ;;
  stop Handoff.

(** for (j = 0; j < 5; j++) if (uart_getc() != cmd[j]) { ERR: CMD; return; }
    The result tells whether the whole literal was matched. *)
Fixpoint await_command (cmd : list ascii) : M bool :=
  match cmd with
  | [] => ret true
  | expected :: cmd' =>
      c <- uart_getc ;;
      if negb (Ascii.eqb c expected) then
        uart_puts (line "ERR: CMD") ;;
        ret false
      else await_command cmd'
  end.

Definition is_terminator (c : ascii) : bool := Ascii.eqb c CR || Ascii.eqb c LF.

Definition is_digit (c : ascii) : bool :=
  (code "0" <=? code c) && (code c <=? code "9").

(** while (1) { c = uart_getc(); if (c == '\r' || c == '\n') break;
                if (c >= '0' && c <= '9') size = size * 10 + (c - '0'); } *)
Fixpoint await_size_loop (fuel : nat) (size : Z) : M Z :=
  match fuel with
  | O => stop OutOfFuel
  | S fuel' =>
      c <- uart_getc ;;
      if is_terminator c then ret size
      else if is_digit c then
        await_size_loop fuel' (u32 (size * 10 + (code c - code "0")))
      else await_size_loop fuel' size
  end.

Definition await_size (size : Z) : M Z :=
  fun w => await_size_loop (rounds w) size w.

(** for (j = 0; j < size; j++) dest[j] = (uint8_t)uart_getc();
    [n] iterations are left, the next one is number [j]. *)
Fixpoint receive (n : nat) (dest j : Z) : M unit :=
  match n with
  | O => ret tt
  | S n' =>
      c <- uart_getc ;;
      poke (dest + j) (code c) ;;
      receive n' dest (j + 1)
  end.

Definition uart_update : M unit :=
  uart_puts (line "OK") ;;
  matched <- await_command (list_ascii_of_string "SEND ") ;;
  if negb matched then ret tt else
  size <- await_size 0 ;;
  if (size =? 0) || (size >? APP_PAYLOAD_MAX) then
    uart_puts (line "ERR: SIZE")
  else
  uart_puts (line "ERASING...") ;;
  erased <- flash_erase_app ;;
  if negb (erased =? 0) then
    uart_puts (line "ERR: ERASE")
  else
  uart_puts (line "READY") ;;
  receive (Z.to_nat size) (APP_BASE + sizeof_fw_header_t) 0 ;;
  crc <- crc32 (APP_BASE + sizeof_fw_header_t) size ;;
  written <- flash_write_header {| hdr_magic := BOOT_MAGIC;
                                   hdr_size := size;
                                   hdr_crc32 := crc;
                                   hdr_version := 1 |} ;;
  if negb (written =? 0) then
    uart_puts (line "ERR: HEADER")
  else
  uart_puts (line "CRC?") ;;
  uart_puts (line "OK") ;;
  uart_puts (line "REBOOT") ;;
  match rev_of cfg with
  | main_c => platform_reset
  | part_005 =>
      if PLATFORM_DIRECT_BOOT_AFTER_UPDATE cfg then jump_to_app
      else platform_reset
  end.

(** The first while (1) of main: one symbol decides between update and boot. *)
Fixpoint boot_menu_loop (fuel : nat) : M unit :=
  match fuel with
  | O => stop OutOfFuel
  | S fuel' =>
      choice <- uart_getc ;;
      uart_putc choice ;;
      match rev_of cfg with
      | main_c => ret tt
      | part_005 =>
          if negb (Ascii.eqb choice CR) && negb (Ascii.eqb choice LF)
          then uart_puts (String LF EmptyString)
          else ret tt
      end ;;
      if Ascii.eqb choice "u" || Ascii.eqb choice "U" then
        uart_update ;;
        boot_menu_loop fuel'
      else ret tt
  end.

Definition boot_menu : M unit := fun w => boot_menu_loop (rounds w) w.

(** while (1) { if (uart_getc() == 'u') uart_update(); } *)
Fixpoint recovery_loop_rounds (fuel : nat) : M Z :=
  match fuel with
  | O => stop OutOfFuel
  | S fuel' =>
      c <- uart_getc ;;
      (if Ascii.eqb c "u" then uart_update else ret tt) ;;
      recovery_loop_rounds fuel'
  end.

Definition recovery_loop : M Z := fun w => recovery_loop_rounds (rounds w) w.

Definition main : M Z :=
  uart_init ;;
  print_banner ;;
  uart_puts (line "BOOT?") ;;
  boot_menu ;;
  valid <- validate_app ;;
  if valid =? 0 then jump_to_app
  else
    uart_puts
      (line "Recovery Loop: No valid app found. Press 'u' to update.") ;;
    recovery_loop.

End Bootloader.

Arguments main {board engine} cfg w.
Arguments uart_update {board engine} cfg w.
Arguments validate_app {engine} cfg w.
Arguments flash_write {board} addr data w.

(** The builds the sources describe. *)
Definition build_main_c : build :=
  {| rev_of := main_c; PLATFORM_DIRECT_BOOT_AFTER_UPDATE := false |}.
Definition build_direct : build :=
  {| rev_of := part_005; PLATFORM_DIRECT_BOOT_AFTER_UPDATE := true |}.
Definition build_reset : build :=
  {| rev_of := part_005; PLATFORM_DIRECT_BOOT_AFTER_UPDATE := false |}.

(** ** Reading the trace *)

(** The bytes uart_puts puts on the wire for a string: uart_putc sends a
    carriage return ahead of every line feed. *)
Fixpoint wire (s : string) : list ascii :=
  match s with
  | EmptyString => []
  | String c s' => (if Ascii.eqb c LF then [CR; c] else [c]) ++ wire s'
  end.

(** The trace of uart_putc(c) and of uart_puts(s). *)
Definition echo (c : ascii) : list event :=
  map EvTx (wire (String c EmptyString)).

Definition tx (s : string) : list event := EvPuts s :: map EvTx (wire s).

(** The trace of reading the bytes [got]. *)
Definition rxs (got : list ascii) : list event := map EvRx got.

(** What the receive loop leaves in the trace for the bytes [got], the
    first of them stored at [dest]. *)
Fixpoint received (dest : Z) (got : list ascii) : list event :=
  match got with
  | [] => []
  | c :: got' => EvRx c :: EvStore dest (code c) :: received (dest + 1) got'
  end.

Fixpoint tx_of (tr : list event) : list ascii :=
  match tr with
  | [] => []
  | EvTx c :: tr' => c :: tx_of tr'
  | _ :: tr' => tx_of tr'
  end.

(** What the host has seen on the serial line. *)
Definition serial_out (w : world) : string :=
  string_of_list_ascii (tx_of (trace w)).

(** The status lines handed to uart_puts, in order. *)
Fixpoint lines_of (tr : list event) : list string :=
  match tr with
  | [] => []
  | EvPuts s :: tr' => s :: lines_of tr'
  | _ :: tr' => lines_of tr'
  end.

(** The events that change the application storage region. *)
Definition is_storage_write (e : event) : bool :=
  match e with
  | EvFlashWrite _ _ _ | EvFlashErase _ _ _ | EvStore _ _ => true
  | _ => false
  end.

Definition storage_writes (tr : list event) : list event :=
  filter is_storage_write tr.

Definition is_erase (e : event) : bool :=
  match e with EvFlashErase _ _ _ => true | _ => false end.

(** How often flash_erase_app was called. *)
Definition erase_calls (tr : list event) : nat :=
  List.length (filter is_erase tr).

(** The stores of the receive loop alone. *)
Fixpoint stores (dest : Z) (got : list ascii) : list event :=
  match got with
  | [] => []
  | c :: got' => EvStore dest (code c) :: stores (dest + 1) got'
  end.

Definition erased_memory : memory := fun _ => 0xFF.

Definition power_on (m : memory) (input : list ascii) : world :=
  {| mem := m; rx := input; trace := [] |}.

Definition bytes_of (l : list Z) : list ascii :=
  map (fun b => ascii_of_N (Z.to_N b)) l.

Fixpoint starts_with (pat s : list ascii) : bool :=
  match pat, s with
  | [], _ => true
  | _ :: _, [] => false
  | p :: pat', c :: s' => Ascii.eqb p c && starts_with pat' s'
  end.

(** Does [pat] occur in [s]? *)
Fixpoint occurs_in (pat s : list ascii) : bool :=
  starts_with pat s
  || match s with
     | [] => false
     | _ :: s' => occurs_in pat s'
     end.

(** ** The vocabulary of the update protocol *)

Definition cmd_SEND : list ascii := list_ascii_of_string "SEND ".

(** Where the payload goes, and where the application is entered. *)
Definition payload_base : Z := APP_BASE + sizeof_fw_header_t.

(** The size the AwaitSize loop has accumulated after the bytes [got],
    starting from [size]: only digits count, in 32-bit arithmetic. *)
Definition accumulate (size : Z) (got : list ascii) : Z :=
  fold_left (fun acc c =>
               if is_digit c then u32 (acc * 10 + (code c - code "0"))
               else acc) got size.

(** The value of a string of decimal digits, as an unbounded integer. *)
Definition decimal_value (digits : list ascii) : Z :=
  fold_left (fun acc c => acc * 10 + (code c - code "0")) digits 0.

Definition size_ok (size : Z) : bool :=
  negb ((size =? 0) || (size >? APP_PAYLOAD_MAX)).

Section Protocol.

Context {board : Board} {engine : ChecksumEngine}.
Variable cfg : build.

(** The header uart_update builds for a payload of [size] bytes that lies in
    the memory [m]. *)
Definition header_for (size : Z) (m : memory) : fw_header_t :=
  {| hdr_magic := BOOT_MAGIC;
     hdr_size := size;
     hdr_crc32 := u32 (checksum (read_bytes m payload_base (Z.to_nat size)));
     hdr_version := 1 |}.

(** Does a committed update enter the application without a reset? *)
Definition direct_boot : bool :=
  match rev_of cfg with
  | main_c => false
  | part_005 => PLATFORM_DIRECT_BOOT_AFTER_UPDATE cfg
  end.

(** The announcement jump_to_app makes. *)
Definition jump_banner : list event :=
  tx (line cfg "Jumping to application...")
  ++ match rev_of cfg with
     | main_c => []
     | part_005 => tx (line cfg "APP_HANDOFF")
     end.

(** How a committed session leaves uart_update. *)
Definition departure : list event :=
  if direct_boot then jump_banner ++ [EvJump payload_base] else [EvReset].

Definition departed : outcome := if direct_boot then Handoff else Rebooted.

(** The trace of a session up to the end of AwaitSize. *)
Definition asked (pre : list ascii) (t : ascii) : list event :=
  tx (line cfg "OK") ++ rxs cmd_SEND ++ rxs (pre ++ [t]).

(** The trace of a session from the size check to the end of Finalizing. *)
Definition transfer (size : Z) (payload : list ascii) (m : memory) (rc : Z)
  : list event :=
  tx (line cfg "ERASING...")
  ++ [EvFlashErase APP_BASE APP_MAX_SIZE 0]
  ++ tx (line cfg "READY")
  ++ received payload_base payload
  ++ [EvCrc32 payload_base size;
      EvFlashWrite APP_BASE (header_bytes (header_for size m)) rc].

(** The update session as the state machine of its protocol: AwaitCommand,
    AwaitSize, Erasing, Receiving, Finalizing, and then Committed or Aborted.
    [session w r] lists the ways a session started in [w] can end, each with
    the world it leaves. *)
Inductive session (w : world) : result unit -> Prop :=
| stalled_in_command expected cmd' :
    cmd_SEND = rx w ++ expected :: cmd' ->
    session w (Stop Blocked
      (mk_world (mem w) []
         (trace w ++ tx (line cfg "OK") ++ rxs (rx w))))
| aborted_command got expected cmd' c rest :
    cmd_SEND = got ++ expected :: cmd' ->
    rx w = got ++ c :: rest ->
    c <> expected ->
    session w (Ret tt
      (mk_world (mem w) rest
         (trace w ++ tx (line cfg "OK") ++ rxs (got ++ [c])
          ++ tx (line cfg "ERR: CMD"))))
| stalled_in_size pre :
    rx w = cmd_SEND ++ pre ->
    Forall (fun c => is_terminator c = false) pre ->
    session w (Stop Blocked
      (mk_world (mem w) []
         (trace w ++ tx (line cfg "OK") ++ rxs cmd_SEND ++ rxs pre)))
| aborted_size pre t rest :
    rx w = cmd_SEND ++ pre ++ t :: rest ->
    is_terminator t = true ->
    Forall (fun c => is_terminator c = false) pre ->
    size_ok (accumulate 0 pre) = false ->
    session w (Ret tt
      (mk_world (mem w) rest
         (trace w ++ asked pre t ++ tx (line cfg "ERR: SIZE"))))
| aborted_erase pre t rest rc m1 :
    rx w = cmd_SEND ++ pre ++ t :: rest ->
    is_terminator t = true ->
    Forall (fun c => is_terminator c = false) pre ->
    size_ok (accumulate 0 pre) = true ->
    board_flash_erase APP_BASE APP_MAX_SIZE (mem w) = (rc, m1) ->
    rc <> 0 ->
    session w (Ret tt
      (mk_world m1 rest
         (trace w ++ asked pre t ++ tx (line cfg "ERASING...")
          ++ [EvFlashErase APP_BASE APP_MAX_SIZE rc]
          ++ tx (line cfg "ERR: ERASE"))))
| stalled_in_receive pre t rest m1 :
    rx w = cmd_SEND ++ pre ++ t :: rest ->
    is_terminator t = true ->
    Forall (fun c => is_terminator c = false) pre ->
    size_ok (accumulate 0 pre) = true ->
    board_flash_erase APP_BASE APP_MAX_SIZE (mem w) = (0, m1) ->
    (List.length rest < Z.to_nat (accumulate 0 pre))%nat ->
    session w (Stop Blocked
      (mk_world (copy_bytes payload_base (map code rest) m1) []
         (trace w ++ asked pre t ++ tx (line cfg "ERASING...")
          ++ [EvFlashErase APP_BASE APP_MAX_SIZE 0]
          ++ tx (line cfg "READY")
          ++ received payload_base rest)))
| aborted_header pre t payload rest m1 rc m3 :
    rx w = cmd_SEND ++ pre ++ t :: payload ++ rest ->
    is_terminator t = true ->
    Forall (fun c => is_terminator c = false) pre ->
    size_ok (accumulate 0 pre) = true ->
    board_flash_erase APP_BASE APP_MAX_SIZE (mem w) = (0, m1) ->
    List.length payload = Z.to_nat (accumulate 0 pre) ->
    let size := accumulate 0 pre in
    let m2 := copy_bytes payload_base (map code payload) m1 in
    board_flash_write APP_BASE (header_bytes (header_for size m2)) m2
    = (rc, m3) ->
    rc <> 0 ->
    session w (Ret tt
      (mk_world m3 rest
         (trace w ++ asked pre t ++ transfer size payload m2 rc
          ++ tx (line cfg "ERR: HEADER"))))
| committed pre t payload rest m1 m3 :
    rx w = cmd_SEND ++ pre ++ t :: payload ++ rest ->
    is_terminator t = true ->
    Forall (fun c => is_terminator c = false) pre ->
    size_ok (accumulate 0 pre) = true ->
    board_flash_erase APP_BASE APP_MAX_SIZE (mem w) = (0, m1) ->
    List.length payload = Z.to_nat (accumulate 0 pre) ->
    let size := accumulate 0 pre in
    let m2 := copy_bytes payload_base (map code payload) m1 in
    board_flash_write APP_BASE (header_bytes (header_for size m2)) m2
    = (0, m3) ->
    session w (Stop departed
      (mk_world m3 rest
         (trace w ++ asked pre t ++ transfer size payload m2 0
          ++ tx (line cfg "CRC?") ++ tx (line cfg "OK")
          ++ tx (line cfg "REBOOT") ++ departure))).

End Protocol.

(** The trace of a session up to, but without, its header write. *)
Definition before_header (cfg : build) (pre : list ascii) (t : ascii)
    (size : Z) (payload : list ascii) : list event :=
  asked cfg pre t
  ++ tx (line cfg "ERASING...")
  ++ [EvFlashErase APP_BASE APP_MAX_SIZE 0]
  ++ tx (line cfg "READY")
  ++ received payload_base payload
  ++ [EvCrc32 payload_base size].

Definition is_flash_write (e : event) : bool :=
  match e with EvFlashWrite _ _ _ => true | _ => false end.

(** Did the session commit, that is, leave through reset or handoff? *)
Definition is_committed {A} (r : result A) : bool :=
  match r with
  | Stop Rebooted _ | Stop Handoff _ => true
  | _ => false
  end.

(** A board whose platform_flash_write, when it reports success, has copied
    the bytes to the address. *)
Definition faithful_write (board : Board) : Prop :=
  forall addr data m m',
    board_flash_write addr data m = (0, m') -> m' = copy_bytes addr data m.

(** A board whose flash never reports an error, as the QEMU board. *)
Definition never_fails (board : Board) : Prop :=
  (forall addr size m, fst (board_flash_erase addr size m) = 0)
  /\ (forall addr data m, fst (board_flash_write addr data m) = 0).

(** ** The status lines *)

(** Every string literal the two revisions hand to uart_puts, without the
    line ending. *)
Definition legacy_literals : list string :=
  [ "OK"; "ERR: CMD"; "ERR: SIZE"; "ERASING..."; "ERR: ERASE"; "READY";
    "ERR: HEADER"; "CRC?"; "REBOOT"; "BOOT?";
    "Error: Invalid magic number"; "Error: Invalid firmware size";
    "Error: CRC mismatch"; "Jumping to application..."; "APP_HANDOFF";
    "Recovery Loop: No valid app found. Press 'u' to update.";
    "======================================";
    String LF (String CR "======================================");
    "   Professional RISC-V Bootloader    ";
    "   Target: QEMU Virt (RV32IM)        " ]%string.

Definition status_lines (cfg : build) : list string :=
  String LF EmptyString :: map (line cfg) legacy_literals.

(** A line of the form PREFIX:TOKEN[:VALUE] with the bootloader's or the
    application's prefix. *)
Definition machine_parsable (s : string) : bool :=
  starts_with (list_ascii_of_string "BL_EVT:") (list_ascii_of_string s)
  || starts_with (list_ascii_of_string "APP_EVT:") (list_ascii_of_string s).

(** Every status line comes with a machine-parsable line next to it: the
    lines pair up, one of each pair legacy and one machine-parsable. *)
Fixpoint dual_form (ls : list string) : bool :=
  match ls with
  | [] => true
  | [_] => false
  | a :: b :: rest =>
      xorb (machine_parsable a) (machine_parsable b) && dual_form rest
  end.

(** The status lines of an update session, by the way it ends. *)
Definition session_scripts (cfg : build) : list (list string) :=
  map (map (line cfg))
    [ ["OK"];
      ["OK"; "ERR: CMD"];
      ["OK"; "ERR: SIZE"];
      ["OK"; "ERASING..."; "ERR: ERASE"];
      ["OK"; "ERASING..."; "READY"];
      ["OK"; "ERASING..."; "READY"; "ERR: HEADER"];
      app ["OK"; "ERASING..."; "READY"; "CRC?"; "OK"; "REBOOT"]
        (if direct_boot cfg
         then "Jumping to application..."
              :: match rev_of cfg with
                 | main_c => []
                 | part_005 => ["APP_HANDOFF"]
                 end
         else []) ]%string.

(** A status line that reports a checksum failure: the literal of
    validate_app, or the token of the serial token contract. *)
Definition checksum_fail_literal (s : string) : bool :=
  occurs_in (list_ascii_of_string "CRC mismatch") (list_ascii_of_string s)
  || occurs_in (list_ascii_of_string "APP_CRC_FAIL") (list_ascii_of_string s).

Definition reports_checksum_failure (tr : list event) : bool :=
  existsb checksum_fail_literal (lines_of tr).

(** ** The boot gate *)

(** What stands between the last look at the region and a handoff. *)
Inductive gate :=
| Closed       (* nothing vouches for the region as it is now *)
| Validated    (* validate_app returned 0 and the region is as it was *)
| Committed.   (* the header write of a session succeeded since *)

Definition gate_after (g : gate) (e : event) : gate :=
  match e with
  | EvValidate rc => if rc =? 0 then Validated else Closed
  | EvFlashWrite addr _ rc =>
      if (addr =? APP_BASE) && (rc =? 0) then Committed else Closed
  | EvFlashErase _ _ _ | EvStore _ _ => Closed
  | _ => g
  end.

Definition gate_run (g : gate) (tr : list event) : gate :=
  fold_left gate_after tr g.

Definition may_pass (direct : bool) (g : gate) : bool :=
  match g with
  | Validated => true
  | Committed => direct
  | Closed => false
  end.

(** Every handoff of the trace finds the gate open.  With [direct] false
    only a successful validation of the region as it stands opens it; with
    [direct] true a committed update does too. *)
Fixpoint gated (direct : bool) (g : gate) (tr : list event) : bool :=
  match tr with
  | [] => true
  | e :: tr' =>
      match e with
      | EvJump _ => may_pass direct g
      | _ => true
      end && gated direct (gate_after g e) tr'
  end.

Definition is_jump (e : event) : bool :=
  match e with EvJump _ => true | _ => false end.

(** Events that neither hand off nor move the gate. *)
Definition is_inert (e : event) : bool :=
  match e with
  | EvEarlyInit | EvUartInit | EvPuts _ | EvTx _ | EvRx _ | EvCrc32 _ _
  | EvReset => true
  | _ => false
  end.

(** ** What a computation adds to the trace *)

(** [appends P c]: whatever [c] does, it only adds to the trace, and what it
    adds satisfies [P]. *)
Definition appends {A} (P : list event -> Prop) (c : M A) : Prop :=
  forall w, exists new,
    trace (world_of (c w)) = trace w ++ new /\ P new.

(** Trace properties that hold of nothing and of concatenations. *)
Definition closed (P : list event -> Prop) : Prop :=
  P [] /\ forall a b, P a -> P b -> P (a ++ b).

(** A computation that stops only for a reason the code has, and that never
    makes up input. *)
Definition total {A} (c : M A) : Prop :=
  forall w,
    match c w with
    | Ret _ w' => (List.length (rx w') <= List.length (rx w))%nat
    | Stop o _ => o <> OutOfFuel
    end.

(** How a computation ended, if it did not return. *)
Definition outcome_of {A} (r : result A) : option outcome :=
  match r with
  | Ret _ _ => None
  | Stop o _ => Some o
  end.

(** ** Scenarios *)

(** T1: "SEND 4\n" and the payload DE AD BE EF. *)
Definition t1_session : list ascii :=
  list_ascii_of_string "SEND 4" ++ [LF] ++ bytes_of [0xDE; 0xAD; 0xBE; 0xEF].

(** T3: as T1, with the last payload byte corrupted on the way. *)
Definition t3_session : list ascii :=
  list_ascii_of_string "SEND 4" ++ [LF] ++ bytes_of [0xDE; 0xAD; 0xBE; 0xEE].

(** A stretch of trace in which every handoff finds the gate open, however
    the gate stood before. *)
Definition safe (direct : bool) (tr : list event) : Prop :=
  forall g, gated direct g tr = true.

(** Every status line of a stretch of trace is one of the legacy lines. *)
Definition legacy_only (cfg : build) (tr : list event) : Prop :=
  Forall (fun s => In s (status_lines cfg)) (lines_of tr).

(** ** Further vocabulary: line endings, the boot prompt, the image *)




(** What main puts out before it reads its first byte: the two init calls,
    the four lines of print_banner and the prompt. *)
Definition greeting (cfg : build) : list event :=
  [EvEarlyInit; EvUartInit]
  ++ tx (match rev_of cfg with
         | main_c => line cfg (String LF (String CR
                       "======================================"))
         | part_005 => line cfg "======================================"
         end)
  ++ tx (line cfg "   Professional RISC-V Bootloader    ")
  ++ tx (line cfg ("   Target: " ++ PLATFORM_NAME ++ "        "))
  ++ tx (line cfg "======================================")
  ++ tx (line cfg "BOOT?").

(** What the boot menu answers to a key: the key itself and, in the later
    revision, a newline unless the key was Enter. *)
Definition menu_echo (cfg : build) (choice : ascii) : list event :=
  echo choice
  ++ match rev_of cfg with
     | main_c => []
     | part_005 =>
         if negb (Ascii.eqb choice CR) && negb (Ascii.eqb choice LF)
         then tx (String LF EmptyString)
         else []
     end.

(** The keys that open an update session at the boot menu. *)
Definition is_update_key (c : ascii) : bool :=
  Ascii.eqb c "u" || Ascii.eqb c "U".

(** The three checks of validate_app, as a predicate on memory. *)
Definition valid_image {engine : ChecksumEngine} (m : memory) : bool :=
  let h := header_at m APP_BASE in
  (hdr_magic h =? BOOT_MAGIC)
  && negb ((hdr_size h =? 0) || (hdr_size h >? APP_PAYLOAD_MAX))
  && (u32 (checksum (read_bytes m payload_base (Z.to_nat (hdr_size h))))
      =? hdr_crc32 h).

(** Does a storage operation keep to the application partition?  A store
    of the receive loop must fall between the payload base and the end of
    the partition, a flash write must be the sixteen header bytes at
    APP_BASE, and an erase must be the erase of the partition. *)
Definition stays_in_partition (e : event) : bool :=
  match e with
  | EvStore addr _ =>
      (payload_base <=? addr) && (addr <? APP_BASE + APP_MAX_SIZE)
  | EvFlashWrite addr data _ =>
      (addr =? APP_BASE)
      && (Z.of_nat (List.length data) =? sizeof_fw_header_t)
  | EvFlashErase addr size _ => (addr =? APP_BASE) && (size =? APP_MAX_SIZE)
  | _ => true
  end.

(** A stretch of trace whose storage operations all keep to the partition. *)
Definition confined (tr : list event) : Prop :=
  forallb stays_in_partition tr = true.

(** A board whose flash reports the given status codes and stores nothing:
    it takes the error paths of the update session, which the QEMU board
    never does. *)
Definition faulty_board (erase_rc write_rc : Z) : Board :=
  {| board_flash_write := fun _ _ m => (write_rc, m);
     board_flash_erase := fun _ _ m => (erase_rc, m) |}.

(** ** src/test_app.c: the serial helpers of the test application

    The application drives the same 16550 as the bootloader; a byte it
    sends shows as [EvTx]. *)

(** (char)z *)
Definition char_of (z : Z) : ascii := ascii_of_N (Z.to_N (u8 z)).

Definition uart_putc_raw (c : ascii) : M unit := signal (EvTx c).

Fixpoint uart_puts_raw (text : string) : M unit :=
  match text with
  | EmptyString => ret tt
  | String c text' =>
      (if Ascii.eqb c LF then uart_putc_raw CR else ret tt) ;;
      uart_putc_raw c ;;
      uart_puts_raw text'
  end.

(** while (value > 0u && i < (int)sizeof(buf)) {
      buf[i++] = (char)('0' + (value % 10u)); value /= 10u; }
    [room] is sizeof(buf) - i, and [buf] lists buf[0] .. buf[i-1]. *)
Fixpoint fill_digits (room : nat) (value : Z) (buf : list ascii)
  : list ascii :=
  match room with
  | O => buf
  | S room' =>
      if value >? 0
      then fill_digits room' (value / 10)
             (buf ++ [char_of (code "0" + value mod 10)])
      else buf
  end.

(** while (i > 0) uart_putc_raw(buf[--i]); *)
Fixpoint drain (buf : list ascii) (i : nat) : M unit :=
  match i with
  | O => ret tt
  | S i' => uart_putc_raw (nth i' buf zero) ;; drain buf i'
  end.

Definition sizeof_buf : nat := 11.

Definition uart_put_u32_dec (value : Z) : M unit :=
  if value =? 0 then uart_putc_raw "0"
  else
    let buf := fill_digits sizeof_buf value [] in
    drain buf (List.length buf).

Definition uart_put_hex_nibble (value : Z) : M unit :=
  let value := Z.land value 0x0F in
  if value <? 10 then uart_putc_raw (char_of (code "0" + value))
  else uart_putc_raw (char_of (code "A" + (value - 10))).

(** for (shift = ...; shift >= 0; shift -= 4)
      uart_put_hex_nibble((uint8_t)(value >> shift));
    The loop ends when shift falls below 0; nine rounds are enough from 28,
    eight iterations and the round in which the test fails. *)
Fixpoint hex_from (fuel : nat) (shift value : Z) : M unit :=
  match fuel with
  | O => stop OutOfFuel
  | S fuel' =>
      if shift <? 0 then ret tt
      else
        uart_put_hex_nibble (u8 (Z.shiftr value shift)) ;;
        hex_from fuel' (shift - 4) value
  end.

Definition uart_put_u32_hex (value : Z) : M unit :=
  uart_puts_raw "0x" ;;
  hex_from 9 28 value.

(** sizeof(uintptr_t) is 4 under ilp32. *)
Definition sizeof_uintptr_t : Z := 4.

Definition uart_put_ptr_hex (value : Z) : M unit :=
  uart_puts_raw "0x" ;;
  hex_from 9 (sizeof_uintptr_t * 8 - 4) value.

(** for (i = 0; i < 26; i++)
      if (misa & (1u << i)) {
        if (found) uart_putc_raw(',');
        uart_putc_raw((char)('A' + i)); found = 1; }
    [n] iterations are left, the next one is number [i]. *)
Fixpoint isa_loop (n : nat) (i : Z) (misa : Z) (found : bool) : M bool :=
  match n with
  | O => ret found
  | S n' =>
      if negb (Z.land misa (u32 (Z.shiftl 1 i)) =? 0) then
        (if found then uart_putc_raw "," else ret tt) ;;
        uart_putc_raw (char_of (code "A" + i)) ;;
        isa_loop n' (i + 1) misa true
      else isa_loop n' (i + 1) misa found
  end.

Definition print_isa_extensions (misa : Z) : M unit :=
  found <- isa_loop 26 0 misa false ;;
  (if negb found then uart_puts_raw "none" else ret tt) ;;
  uart_puts_raw (String LF EmptyString).

(** The value of a hexadecimal digit and of a string of them. *)
Definition hex_digit_value (c : ascii) : Z :=
  if is_digit c then code c - code "0" else code c - code "A" + 10.

Definition hex_value (digits : list ascii) : Z :=
  fold_left (fun acc c => acc * 16 + hex_digit_value c) digits 0.

Definition is_upper_hex (c : ascii) : bool :=
  is_digit c || ((code "A" <=? code c) && (code c <=? code "F")).

(** The letters of the extensions whose bits are set among the [n] bits of
    [misa] from bit [i] on, in alphabetical order. *)
Fixpoint extension_letters (n : nat) (i : Z) (misa : Z) : list ascii :=
  match n with
  | O => []
  | S n' =>
      (if Z.testbit misa i then [char_of (code "A" + i)] else [])
      ++ extension_letters n' (i + 1) misa
  end.

(** A comma ahead of every item. *)
Definition with_commas (l : list ascii) : list ascii :=
  flat_map (fun c => [","%char; c]) l.

(** The items with a comma between each two. *)
Definition comma_separated (l : list ascii) : list ascii :=
  match l with
  | [] => []
  | c :: l' => c :: with_commas l'
  end.


(** * Properties *)

(** ** Machine integers and memory *)

(** Case analysis on every integer comparison of the goal. *)
Ltac case_cmp :=
  repeat match goal with
         | |- context [?a >? ?b] => rewrite (Z.gtb_ltb a b)
         | |- context [?a <=? ?b] => destruct (Z.leb_spec a b)
         | |- context [?a <? ?b] => destruct (Z.ltb_spec a b)
         | |- context [?a =? ?b] => destruct (Z.eqb_spec a b)
         end.

Lemma code_range (c : ascii) : 0 <= code c < 256.
Proof.
  unfold code. pose proof (N_ascii_bounded c). lia.
Qed.

Lemma u8_code (c : ascii) : u8 (code c) = code c.
Proof.
  unfold u8. apply Z.mod_small. pose proof (code_range c).
  change (2 ^ 8) with 256. lia.
Qed.

Lemma u8_range (z : Z) : 0 <= u8 z < 256.
Proof. unfold u8. change (2 ^ 8) with 256. apply Z.mod_pos_bound. lia. Qed.

Lemma u32_range (z : Z) : 0 <= u32 z < 2 ^ 32.
Proof. unfold u32. apply Z.mod_pos_bound. lia. Qed.

Lemma u32_small (z : Z) : 0 <= z < 2 ^ 32 -> u32 z = z.
Proof. intros. unfold u32. apply Z.mod_small. assumption. Qed.

Lemma APP_PAYLOAD_MAX_eq : APP_PAYLOAD_MAX = 458736.
Proof. reflexivity. Qed.

Lemma load8_store8 (m : memory) (a b x : Z) :
  load8 (store8 m a b) x = if x =? a then u8 b else load8 m x.
Proof.
  unfold load8, store8. destruct (x =? a); [|reflexivity].
  unfold u8. apply Z.mod_mod. lia.
Qed.

Lemma load8_copy_bytes (src : list Z) (dest : Z) (m : memory) (x : Z) :
  load8 (copy_bytes dest src m) x =
  if (dest <=? x) && (x <? dest + Z.of_nat (List.length src))
  then u8 (nth (Z.to_nat (x - dest)) src 0)
  else load8 m x.
Proof.
  revert dest m. induction src as [|b src IH]; intros dest m.
  - simpl. replace (dest + 0) with dest by lia.
    destruct (dest <=? x) eqn:E1, (x <? dest) eqn:E2; try reflexivity; lia.
  - cbn [copy_bytes]. rewrite IH, load8_store8.
    replace (Z.of_nat (List.length (b :: src)))
      with (1 + Z.of_nat (List.length src)) by (cbn [List.length]; lia).
    destruct (Z.eq_dec x dest) as [->|Hne].
    + rewrite Z.eqb_refl, Z.sub_diag.
      replace (dest + 1 <=? dest) with false by (symmetry; apply Z.leb_gt; lia).
      replace (dest <=? dest) with true by (symmetry; apply Z.leb_le; lia).
      replace (dest <? dest + (1 + Z.of_nat (List.length src))) with true
        by (symmetry; apply Z.ltb_lt; lia).
      reflexivity.
    + replace (x =? dest) with false by (symmetry; apply Z.eqb_neq; lia).
      replace (dest + 1 + Z.of_nat (List.length src))
        with (dest + (1 + Z.of_nat (List.length src))) by lia.
      destruct (Z.leb_spec (dest + 1) x) as [H1|H1].
      * replace (dest <=? x) with true by (symmetry; apply Z.leb_le; lia).
        cbn [andb].
        destruct (x <? dest + (1 + Z.of_nat (List.length src))); [|reflexivity].
        replace (Z.to_nat (x - dest)) with (S (Z.to_nat (x - (dest + 1)))) by lia.
        reflexivity.
      * cbn [andb].
        replace (dest <=? x) with false by (symmetry; apply Z.leb_gt; lia).
        reflexivity.
Qed.

Lemma load8_fill_bytes (n : nat) (dest b : Z) (m : memory) (x : Z) :
  load8 (fill_bytes n dest b m) x =
  if (dest <=? x) && (x <? dest + Z.of_nat n) then u8 b else load8 m x.
Proof.
  revert dest m. induction n as [|n IH]; intros dest m.
  - simpl. case_cmp; cbn [andb]; try reflexivity; lia.
  - cbn [fill_bytes]. rewrite IH, load8_store8.
    case_cmp; cbn [andb]; try reflexivity; lia.
Qed.

Lemma read_bytes_ext (m m' : memory) (n : nat) (a : Z) :
  (forall x, a <= x < a + Z.of_nat n -> load8 m' x = load8 m x) ->
  read_bytes m' a n = read_bytes m a n.
Proof.
  revert a. induction n as [|n IH]; intros a H; [reflexivity|].
  cbn [read_bytes]. f_equal.
  - apply H. lia.
  - apply IH. intros x Hx. apply H. lia.
Qed.

Lemma le32_load (v b0 b1 b2 b3 : Z) :
  0 <= v < 2 ^ 32 ->
  le32 v = [b0; b1; b2; b3] ->
  u8 b0 + 2 ^ 8 * u8 b1 + 2 ^ 16 * u8 b2 + 2 ^ 24 * u8 b3 = v.
Proof.
  intros Hv H. unfold le32 in H. injection H as <- <- <- <-.
  unfold u8. rewrite !Z.mod_mod by lia.
  change (2 ^ 8) with 256. change (2 ^ 16) with 65536.
  change (2 ^ 24) with 16777216. change (2 ^ 32) with 4294967296 in Hv.
  Z.to_euclidean_division_equations. lia.
Qed.


(** ** The serial and storage primitives, step by step *)

Lemma world_eq (w1 w2 : world) :
  mem w1 = mem w2 -> rx w1 = rx w2 -> trace w1 = trace w2 -> w1 = w2.
Proof. destruct w1, w2; simpl; intros; subst; reflexivity. Qed.

Lemma extend_nil (w : world) : extend [] w = w.
Proof. apply world_eq; simpl; auto using app_nil_r. Qed.

Lemma extend_extend (a b : list event) (w : world) :
  extend b (extend a w) = extend (a ++ b) w.
Proof. apply world_eq; simpl; auto using app_assoc. Qed.

Lemma wire_append (s1 s2 : string) : wire (s1 ++ s2) = wire s1 ++ wire s2.
Proof.
  induction s1 as [|c s1 IH]; [reflexivity|].
  cbn [String.append wire]. rewrite IH, app_assoc. reflexivity.
Qed.

Section Steps.

Context {board : Board} {engine : ChecksumEngine}.
Variable cfg : build.

Lemma uart_putc_eq (c : ascii) (w : world) :
  uart_putc c w = Ret tt (extend (echo c) w).
Proof.
  unfold uart_putc, echo, bind, platform_uart_putc, signal, ret. cbn [wire].
  destruct (Ascii.eqb c LF); cbn [map app].
  - rewrite extend_extend. reflexivity.
  - reflexivity.
Qed.

Lemma uart_puts_loop_eq (s : string) (w : world) :
  uart_puts_loop s w = Ret tt (extend (map EvTx (wire s)) w).
Proof.
  revert w. induction s as [|c s IH]; intros w.
  - cbn. rewrite extend_nil. reflexivity.
  - cbn [uart_puts_loop]. unfold bind. rewrite uart_putc_eq, IH, extend_extend.
    unfold echo. rewrite <- map_app, <- wire_append. reflexivity.
Qed.

Lemma uart_puts_eq (s : string) (w : world) :
  uart_puts s w = Ret tt (extend (tx s) w).
Proof.
  unfold uart_puts, bind, signal. rewrite uart_puts_loop_eq, extend_extend.
  reflexivity.
Qed.

Lemma uart_getc_eq (w : world) :
  uart_getc w =
  match rx w with
  | [] => Stop Blocked w
  | c :: pending => Ret c (mk_world (mem w) pending (trace w ++ rxs [c]))
  end.
Proof. reflexivity. Qed.

(** AwaitCommand: the literal is matched, or a byte differs, or the host
    falls silent within it. *)
Lemma await_command_spec (cmd : list ascii) (w : world) :
  (exists rest,
      rx w = cmd ++ rest /\
      await_command cfg cmd w
      = Ret true (mk_world (mem w) rest (trace w ++ rxs cmd)))
  \/ (exists got expected cmd' c rest,
      cmd = got ++ expected :: cmd' /\ rx w = got ++ c :: rest /\
      c <> expected /\
      await_command cfg cmd w
      = Ret false (mk_world (mem w) rest
                     (trace w ++ rxs (got ++ [c])
                      ++ tx (line cfg "ERR: CMD"))))
  \/ (exists expected cmd',
      cmd = rx w ++ expected :: cmd' /\
      await_command cfg cmd w
      = Stop Blocked (mk_world (mem w) [] (trace w ++ rxs (rx w)))).
Proof.
  revert w. induction cmd as [|e cmd IH]; intros w.
  - left. exists (rx w). split; [reflexivity|].
    cbn. unfold ret. f_equal. apply world_eq; simpl; auto using app_nil_r.
  - cbn [await_command]. unfold bind. rewrite uart_getc_eq.
    destruct (rx w) as [|c pending] eqn:Hrx.
    + right; right. exists e, cmd. split; [reflexivity|].
      f_equal. apply world_eq; simpl; auto using app_nil_r.
    + destruct (Ascii.eqb_spec c e) as [->|Hne]; cbn [negb].
      * destruct (IH (mk_world (mem w) pending (trace w ++ rxs [e])))
          as [(rest & Hr & Heq) | [(got & x & cmd' & c & rest & Hc & Hr & Hx & Heq)
                                  | (x & cmd' & Hc & Heq)]];
          cbn [mem rx trace] in *.
        -- left. exists rest. split; [rewrite Hr; reflexivity|].
           rewrite Heq. rewrite <- app_assoc. reflexivity.
        -- right; left. exists (e :: got), x, cmd', c, rest.
           repeat split; try assumption.
           ++ rewrite Hc. reflexivity.
           ++ rewrite Hr. reflexivity.
           ++ rewrite Heq. rewrite <- app_assoc. reflexivity.
        -- right; right. exists x, cmd'. split.
           ++ rewrite Hc. reflexivity.
           ++ rewrite Heq. rewrite <- app_assoc. reflexivity.
      * right; left. exists [], e, cmd, c, pending.
        repeat split; try assumption.
        rewrite uart_puts_eq. unfold ret, extend. cbn [mem rx trace].
        rewrite <- app_assoc. reflexivity.
Qed.

(** AwaitSize: the loop ends at the first line terminator, or the host falls
    silent before sending one. *)
Lemma await_size_loop_spec (fuel : nat) (size : Z) (w : world) :
  (List.length (rx w) < fuel)%nat ->
  (exists pre t rest,
      rx w = pre ++ t :: rest /\ is_terminator t = true /\
      Forall (fun c => is_terminator c = false) pre /\
      await_size_loop fuel size w
      = Ret (accumulate size pre)
            (mk_world (mem w) rest (trace w ++ rxs (pre ++ [t]))))
  \/ (Forall (fun c => is_terminator c = false) (rx w) /\
      await_size_loop fuel size w
      = Stop Blocked (mk_world (mem w) [] (trace w ++ rxs (rx w)))).
Proof.
  revert size w. induction fuel as [|fuel IH]; intros size w Hfuel; [lia|].
  cbn [await_size_loop]. unfold bind. rewrite uart_getc_eq.
  destruct (rx w) as [|c pending] eqn:Hrx.
  - right. split; [constructor|].
    f_equal. apply world_eq; simpl; auto using app_nil_r.
  - destruct (is_terminator c) eqn:Ht.
    + left. exists [], c, pending. repeat split; auto.
    + set (size' := if is_digit c
                    then u32 (size * 10 + (code c - code "0")) else size).
      assert (Hstep : (if is_digit c
                       then await_size_loop fuel
                              (u32 (size * 10 + (code c - code "0")))
                       else await_size_loop fuel size)
                      = await_size_loop fuel size').
      { unfold size'. destruct (is_digit c); reflexivity. }
      rewrite Hstep.
      destruct (IH size' (mk_world (mem w) pending (trace w ++ rxs [c])))
        as [(pre & t & rest & Hr & Hterm & Hpre & Heq) | (Hall & Heq)];
        cbn [mem rx trace] in *; [simpl in Hfuel; lia| |].
      * left. exists (c :: pre), t, rest. repeat split; auto.
        -- rewrite Hr. reflexivity.
        -- rewrite Heq. cbn [accumulate fold_left]. fold size'.
           rewrite <- app_assoc. reflexivity.
      * right. split; [constructor; assumption|].
        rewrite Heq. rewrite <- app_assoc. reflexivity.
Qed.

Lemma await_size_spec (size : Z) (w : world) :
  (exists pre t rest,
      rx w = pre ++ t :: rest /\ is_terminator t = true /\
      Forall (fun c => is_terminator c = false) pre /\
      await_size size w
      = Ret (accumulate size pre)
            (mk_world (mem w) rest (trace w ++ rxs (pre ++ [t]))))
  \/ (Forall (fun c => is_terminator c = false) (rx w) /\
      await_size size w
      = Stop Blocked (mk_world (mem w) [] (trace w ++ rxs (rx w)))).
Proof. apply await_size_loop_spec. unfold rounds. lia. Qed.

(** Receiving: all [n] bytes arrive and are stored one after the other, or
    the host falls silent before the last one. *)
Lemma receive_spec (n : nat) (dest j : Z) (w : world) :
  (exists got rest,
      rx w = got ++ rest /\ List.length got = n /\
      receive n dest j w
      = Ret tt (mk_world (copy_bytes (dest + j) (map code got) (mem w)) rest
                  (trace w ++ received (dest + j) got)))
  \/ ((List.length (rx w) < n)%nat /\
      receive n dest j w
      = Stop Blocked
          (mk_world (copy_bytes (dest + j) (map code (rx w)) (mem w)) []
             (trace w ++ received (dest + j) (rx w)))).
Proof.
  revert j w. induction n as [|n IH]; intros j w.
  - left. exists [], (rx w). repeat split.
    cbn. unfold ret. f_equal. apply world_eq; simpl; auto using app_nil_r.
  - cbn [receive]. unfold bind. rewrite uart_getc_eq.
    destruct (rx w) as [|c pending] eqn:Hrx.
    + right. split; [simpl; lia|].
      f_equal. apply world_eq; simpl; auto using app_nil_r.
    + unfold poke. cbn [mem rx trace].
      destruct (IH (j + 1)
                  (mk_world (store8 (mem w) (dest + j) (code c)) pending
                     ((trace w ++ rxs [c])
                      ++ [EvStore (dest + j) (u8 (code c))])))
        as [(got & rest & Hr & Hlen & Heq) | (Hlen & Heq)];
        cbn [mem rx trace] in *.
      * left. exists (c :: got), rest. repeat split.
        -- rewrite Hr. reflexivity.
        -- simpl. lia.
        -- rewrite Heq. cbn [map copy_bytes received]. rewrite u8_code.
           replace (dest + (j + 1)) with (dest + j + 1) by lia.
           rewrite <- !app_assoc. reflexivity.
      * right. split; [simpl; lia|].
        rewrite Heq. cbn [map copy_bytes received]. rewrite u8_code.
        replace (dest + (j + 1)) with (dest + j + 1) by lia.
        rewrite <- !app_assoc. reflexivity.
Qed.

End Steps.


(** ** Every run of uart_update is a session *)

Section Session.

Context {board : Board} {engine : ChecksumEngine}.
Variable cfg : build.

Lemma jump_to_app_eq (A : Type) (w : world) :
  jump_to_app cfg (A := A) w
  = Stop Handoff (extend (jump_banner cfg ++ [EvJump payload_base]) w).
Proof.
  unfold jump_to_app, jump_banner, bind. rewrite uart_puts_eq.
  destruct (rev_of cfg).
  - unfold ret, signal, stop. rewrite extend_extend, app_nil_r. reflexivity.
  - rewrite uart_puts_eq. unfold signal, stop.
    rewrite !extend_extend, <- app_assoc. reflexivity.
Qed.

Lemma leave_eq (w : world) :
  match rev_of cfg with
  | main_c => platform_reset
  | part_005 =>
      if PLATFORM_DIRECT_BOOT_AFTER_UPDATE cfg then jump_to_app cfg
      else platform_reset
  end w = Stop (departed cfg) (extend (departure cfg) w) :> result unit.
Proof.
  unfold departed, departure, direct_boot.
  destruct (rev_of cfg); [reflexivity|].
  destruct (PLATFORM_DIRECT_BOOT_AFTER_UPDATE cfg); [|reflexivity].
  apply jump_to_app_eq.
Qed.

(** Every run of uart_update is one of the sessions above. *)
Lemma uart_update_session (w : world) : session cfg w (uart_update cfg w).
Proof.
  unfold uart_update. unfold bind at 1. rewrite uart_puts_eq.
  unfold bind at 1.
  destruct (await_command_spec cfg (list_ascii_of_string "SEND ")
              (extend (tx (line cfg "OK")) w))
    as [(rest & Hrx & ->)
       | [(got & e & cmd' & c & rest & Hcmd & Hrx & Hne & ->)
         | (e & cmd' & Hcmd & ->)]];
    unfold extend in *; cbn [mem rx trace negb] in *.
  2:{ unfold ret. rewrite <- !app_assoc.
      eapply aborted_command; eassumption. }
  2:{ rewrite <- !app_assoc. eapply stalled_in_command; eassumption. }
  unfold bind at 1.
  match goal with
  | |- context [await_size 0 ?w0] =>
      destruct (await_size_spec 0 w0)
        as [(pre & t & rest' & Hrest & Hterm & Hpre & ->) | (Hpre & ->)]
  end; cbn [mem rx trace] in *.
  2:{ rewrite <- !app_assoc. apply stalled_in_size; assumption. }
  subst rest.
  assert (Hasked : forall tail,
    ((trace w ++ tx (line cfg "OK")) ++ rxs (list_ascii_of_string "SEND "))
      ++ rxs (pre ++ [t]) ++ tail
    = trace w ++ asked cfg pre t ++ tail).
  { intros. unfold asked, cmd_SEND. rewrite <- !app_assoc. reflexivity. }
  destruct ((accumulate 0 pre =? 0) || (accumulate 0 pre >? APP_PAYLOAD_MAX))
    eqn:Hsize.
  { rewrite uart_puts_eq. unfold extend; cbn [mem rx trace].
    rewrite <- (app_assoc _ (rxs (pre ++ [t]))), Hasked.
    eapply aborted_size; try eassumption. unfold size_ok. rewrite Hsize.
    reflexivity. }
  assert (Hok : size_ok (accumulate 0 pre) = true).
  { unfold size_ok. rewrite Hsize. reflexivity. }
  unfold bind at 1. rewrite uart_puts_eq.
  unfold bind at 1. unfold flash_erase_app, platform_flash_erase.
  unfold extend; cbn [mem rx trace].
  destruct (board_flash_erase APP_BASE APP_MAX_SIZE (mem w)) as [rc m1] eqn:He.
  destruct (Z.eqb_spec rc 0) as [->|Hrc]; cbn [negb].
  2:{ rewrite uart_puts_eq. unfold extend; cbn [mem rx trace].
      rewrite <- !(app_assoc _ (rxs (pre ++ [t]))), Hasked.
      rewrite <- !app_assoc.
      eapply aborted_erase; eassumption. }
  unfold bind at 1. rewrite uart_puts_eq.
  unfold bind at 1. unfold extend; cbn [mem rx trace].
  match goal with
  | |- context [receive ?n ?d 0 ?w0] =>
      destruct (receive_spec n d 0 w0)
        as [(payload & rest & Hrest & Hlen & ->) | (Hlen & ->)]
  end; cbn [mem rx trace] in *;
    replace (APP_BASE + sizeof_fw_header_t + 0) with payload_base
      by (unfold payload_base; lia).
  2:{ rewrite <- !(app_assoc _ (rxs (pre ++ [t]))), Hasked.
      rewrite <- !app_assoc.
      eapply stalled_in_receive; eassumption. }
  subst rest'.
  unfold bind at 1. unfold crc32 at 1. unfold bind at 1.
  unfold signal, read_mem. unfold extend; cbn [mem rx trace].
  unfold bind at 1. unfold flash_write_header, platform_flash_write.
  cbn [mem rx trace].
  fold payload_base.
  set (m2 := copy_bytes payload_base (map code payload) m1).
  change {| hdr_magic := BOOT_MAGIC;
            hdr_size := accumulate 0 pre;
            hdr_crc32 := u32 (checksum
                                (read_bytes m2 payload_base
                                   (Z.to_nat (accumulate 0 pre))));
            hdr_version := 1 |}
    with (header_for (accumulate 0 pre) m2).
  destruct (board_flash_write APP_BASE
              (header_bytes (header_for (accumulate 0 pre) m2)) m2)
    as [rc m3] eqn:Hw.
  assert (Htransfer : forall tail,
    ((((((((trace w ++ tx (line cfg "OK"))
           ++ rxs (list_ascii_of_string "SEND "))
          ++ rxs (pre ++ [t]))
         ++ tx (line cfg "ERASING..."))
        ++ [EvFlashErase APP_BASE APP_MAX_SIZE 0])
       ++ tx (line cfg "READY"))
      ++ received payload_base payload)
     ++ [EvCrc32 payload_base (accumulate 0 pre)])
    ++ [EvFlashWrite APP_BASE
          (header_bytes (header_for (accumulate 0 pre) m2)) rc] ++ tail
    = trace w ++ asked cfg pre t ++ transfer cfg (accumulate 0 pre) payload m2 rc
      ++ tail).
  { intros. unfold asked, transfer, cmd_SEND. rewrite <- !app_assoc.
    reflexivity. }
  destruct (Z.eqb_spec rc 0) as [->|Hrc]; cbn [negb].
  2:{ rewrite uart_puts_eq. unfold extend; cbn [mem rx trace].
      rewrite <- (app_assoc _ [EvFlashWrite _ _ _]), Htransfer.
      eapply aborted_header; eassumption. }
  unfold bind at 1. rewrite uart_puts_eq.
  unfold bind at 1. rewrite uart_puts_eq.
  unfold bind at 1. rewrite uart_puts_eq.
  rewrite leave_eq. unfold extend; cbn [mem rx trace].
  rewrite <- !(app_assoc _ [EvFlashWrite _ _ _]), Htransfer.
  rewrite <- !app_assoc.
  eapply committed; eassumption.
Qed.

End Session.


(** ** AwaitCommand and AwaitSize on a well-formed request *)

Section Request.

Context {board : Board} {engine : ChecksumEngine}.
Variable cfg : build.

Lemma await_command_run (cmd rest : list ascii) (w : world) :
  rx w = cmd ++ rest ->
  await_command cfg cmd w
  = Ret true (mk_world (mem w) rest (trace w ++ rxs cmd)).
Proof.
  revert w. induction cmd as [|e cmd IH]; intros w Hrx.
  - cbn. unfold ret. f_equal. apply world_eq; simpl; auto using app_nil_r.
  - cbn [await_command]. unfold bind. rewrite uart_getc_eq, Hrx.
    cbn [app]. rewrite Ascii.eqb_refl. cbn [negb].
    rewrite IH by reflexivity. cbn [mem rx trace].
    rewrite <- app_assoc. reflexivity.
Qed.

Lemma await_size_loop_run (pre : list ascii) :
  forall (fuel : nat) (size : Z) (w : world) (t : ascii) (rest : list ascii),
  rx w = pre ++ t :: rest ->
  is_terminator t = true ->
  Forall (fun c => is_terminator c = false) pre ->
  (List.length pre < fuel)%nat ->
  await_size_loop fuel size w
  = Ret (accumulate size pre)
        (mk_world (mem w) rest (trace w ++ rxs (pre ++ [t]))).
Proof.
  induction pre as [|c pre IH]; intros fuel size w t rest Hrx Ht Hpre Hfuel;
    (destruct fuel as [|fuel]; [simpl in Hfuel; lia|]);
    cbn [await_size_loop]; unfold bind; rewrite uart_getc_eq, Hrx; cbn [app].
  - rewrite Ht. reflexivity.
  - inversion Hpre as [|? ? Hc Hpre']; subst. rewrite Hc.
    assert (Hstep : (if is_digit c
                     then await_size_loop fuel
                            (u32 (size * 10 + (code c - code "0")))
                     else await_size_loop fuel size)
                    = await_size_loop fuel (accumulate size [c])).
    { cbn. destruct (is_digit c); reflexivity. }
    rewrite Hstep.
    rewrite (IH fuel _ _ t rest) by (try reflexivity; try assumption; simpl in Hfuel; lia).
    cbn [mem rx trace]. rewrite <- app_assoc. reflexivity.
Qed.

Lemma await_size_run (pre : list ascii) (size : Z) (w : world) (t : ascii)
    (rest : list ascii) :
  rx w = pre ++ t :: rest ->
  is_terminator t = true ->
  Forall (fun c => is_terminator c = false) pre ->
  await_size size w
  = Ret (accumulate size pre)
        (mk_world (mem w) rest (trace w ++ rxs (pre ++ [t]))).
Proof.
  intros Hrx Ht Hpre. unfold await_size.
  apply await_size_loop_run; auto.
  unfold rounds. rewrite Hrx, length_app. simpl. lia.
Qed.

(** Accumulating in 32 bits is accumulating without bound and reducing once. *)
Lemma accumulate_decimal (got : list ascii) (size acc : Z) :
  size = u32 acc ->
  accumulate size got
  = u32 (fold_left (fun a c => a * 10 + (code c - code "0"))
           (filter is_digit got) acc).
Proof.
  revert size acc. induction got as [|c got IH]; intros size acc Hs.
  - exact Hs.
  - cbn [accumulate fold_left filter]. destruct (is_digit c).
    + cbn [fold_left]. apply IH. subst size. unfold u32.
      rewrite (Z.add_mod (acc mod 2 ^ 32 * 10)) by lia.
      rewrite Z.mul_mod_idemp_l by lia.
      rewrite <- Z.add_mod by lia. reflexivity.
    + apply IH. assumption.
Qed.

Lemma parsed_size_decimal (pre : list ascii) :
  accumulate 0 pre = u32 (decimal_value (filter is_digit pre)).
Proof. apply accumulate_decimal. reflexivity. Qed.

End Request.

(** C10. AwaitSize skips every byte that is neither a decimal digit nor a
    line terminator instead of aborting: whatever the host sends up to the
    first '\r' or '\n', the loop returns the decimal value of the digits among
    those bytes, reduced modulo 2^32, having consumed exactly those bytes and
    the terminator, and having touched neither memory nor the serial output. *)
Theorem await_size_skips_non_digits (w : world) (pre : list ascii) (t : ascii)
    (rest : list ascii) :
  rx w = pre ++ t :: rest ->
  is_terminator t = true ->
  Forall (fun c => is_terminator c = false) pre ->
  await_size 0 w
  = Ret (decimal_value (filter is_digit pre) mod 2 ^ 32)
        (mk_world (mem w) rest (trace w ++ rxs (pre ++ [t]))).
Proof.
  intros Hrx Ht Hpre.
  rewrite (await_size_run pre 0 w t rest Hrx Ht Hpre).
  rewrite parsed_size_decimal. reflexivity.
Qed.

(** The bytes "1x2\n" parse as size 12: the 'x' is skipped. *)
Lemma await_size_skips_non_digits_witness :
  await_size 0 (power_on erased_memory (list_ascii_of_string "1x2" ++ [LF]))
  = Ret 12 (mk_world erased_memory []
              (rxs (list_ascii_of_string "1x2" ++ [LF]))).
Proof.
  exact (await_size_skips_non_digits
           (power_on erased_memory (list_ascii_of_string "1x2" ++ [LF]))
           (list_ascii_of_string "1x2") LF [] eq_refl eq_refl
           ltac:(repeat constructor)).
Defined.


(** ** The image validator *)

Section Validator.

Context {engine : ChecksumEngine}.
Variable cfg : build.

Lemma load8_nonneg (m : memory) (a : Z) : 0 <= load8 m a < 256.
Proof. apply u8_range. Qed.

Lemma load32_range (m : memory) (a : Z) : 0 <= load32 m a < 2 ^ 32.
Proof.
  unfold load32.
  pose proof (load8_nonneg m a). pose proof (load8_nonneg m (a + 1)).
  pose proof (load8_nonneg m (a + 2)). pose proof (load8_nonneg m (a + 3)).
  change (2 ^ 8) with 256. change (2 ^ 16) with 65536.
  change (2 ^ 24) with 16777216. change (2 ^ 32) with 4294967296. lia.
Qed.

(** validate_app, with the serial output and the calls it makes spelled out. *)
Lemma validate_app_eq (w : world) :
  validate_app cfg w =
  let h := header_at (mem w) APP_BASE in
  let verdict rc report :=
    Ret rc (mk_world (mem w) (rx w) (trace w ++ report ++ [EvValidate rc])) in
  if negb (hdr_magic h =? BOOT_MAGIC) then
    verdict (-1) (tx (line cfg "Error: Invalid magic number"))
  else if (hdr_size h =? 0) || (hdr_size h >? APP_PAYLOAD_MAX) then
    verdict (-1) (tx (line cfg "Error: Invalid firmware size"))
  else if negb (u32 (checksum (read_bytes (mem w) payload_base
                                 (Z.to_nat (hdr_size h))))
                =? hdr_crc32 h) then
    verdict (-1) (EvCrc32 payload_base (hdr_size h)
                  :: tx (line cfg "Error: CRC mismatch"))
  else verdict 0 [EvCrc32 payload_base (hdr_size h)].
Proof.
  unfold validate_app, bind, read_mem. cbv zeta.
  destruct (negb (hdr_magic (header_at (mem w) APP_BASE) =? BOOT_MAGIC)).
  { rewrite uart_puts_eq. unfold ret, signal, extend. cbn [mem rx trace].
    rewrite <- app_assoc. reflexivity. }
  destruct ((hdr_size (header_at (mem w) APP_BASE) =? 0)
            || (hdr_size (header_at (mem w) APP_BASE) >? APP_PAYLOAD_MAX)).
  { rewrite uart_puts_eq. unfold ret, signal, extend. cbn [mem rx trace].
    rewrite <- app_assoc. reflexivity. }
  unfold crc32, bind, signal, read_mem, extend. cbn [mem rx trace].
  fold payload_base.
  destruct (negb (u32 (checksum (read_bytes (mem w) payload_base
                                   (Z.to_nat (hdr_size
                                      (header_at (mem w) APP_BASE)))))
                  =? hdr_crc32 (header_at (mem w) APP_BASE))).
  - rewrite uart_puts_eq. unfold ret, extend. cbn [mem rx trace].
    rewrite <- !app_assoc. reflexivity.
  - unfold ret. cbn [mem rx trace]. rewrite <- !app_assoc. reflexivity.
Qed.

End Validator.

(** C3. validate_app makes three checks in this order and stops at the first
    that fails: the magic (else "Invalid magic number", BadMagic), the size,
    which must be neither 0 nor above capacity minus header size (else
    "Invalid firmware size", BadSize), and the checksum recomputed over
    exactly [size] payload bytes against the stored one (else "CRC mismatch",
    ChecksumMismatch).  crc32 is called only when the first two checks pass.
    It returns 0 iff all three pass, it always returns, and it is a pure
    read: memory and pending input are left as they were, and the trace only
    gains the report, the scan and the verdict. *)
Theorem validate_app_three_checks {engine : ChecksumEngine} (cfg : build)
    (w : world) :
  let h := header_at (mem w) APP_BASE in
  let computed :=
    u32 (checksum (read_bytes (mem w) payload_base (Z.to_nat (hdr_size h)))) in
  let scan := EvCrc32 payload_base (hdr_size h) in
  let size_fits := 0 < hdr_size h <= APP_MAX_SIZE - sizeof_fw_header_t in
  exists rc report,
    validate_app cfg w
    = Ret rc (mk_world (mem w) (rx w) (trace w ++ report ++ [EvValidate rc]))
    /\ (hdr_magic h <> BOOT_MAGIC ->
        rc = -1 /\ report = tx (line cfg "Error: Invalid magic number"))
    /\ (hdr_magic h = BOOT_MAGIC -> ~ size_fits ->
        rc = -1 /\ report = tx (line cfg "Error: Invalid firmware size"))
    /\ (hdr_magic h = BOOT_MAGIC -> size_fits -> computed <> hdr_crc32 h ->
        rc = -1 /\ report = scan :: tx (line cfg "Error: CRC mismatch"))
    /\ (hdr_magic h = BOOT_MAGIC -> size_fits -> computed = hdr_crc32 h ->
        rc = 0 /\ report = [scan])
    /\ (rc = 0 <->
        hdr_magic h = BOOT_MAGIC /\ size_fits /\ computed = hdr_crc32 h).
Proof.
  intros h computed scan size_fits. rewrite validate_app_eq. cbv zeta.
  fold h. fold computed. fold scan.
  pose proof (load32_range (mem w) (APP_BASE + 4)) as Hsize.
  change (load32 (mem w) (APP_BASE + 4)) with (hdr_size h) in Hsize.
  assert (Hmax : APP_MAX_SIZE - sizeof_fw_header_t = APP_PAYLOAD_MAX)
    by reflexivity.
  unfold size_fits. rewrite Hmax. clear Hmax.
  destruct (Z.eqb_spec (hdr_magic h) BOOT_MAGIC) as [Hm|Hm]; cbn [negb].
  2:{ do 2 eexists. split; [reflexivity|].
      repeat split; try (intros; congruence); intros; try tauto; lia. }
  rewrite Z.gtb_ltb.
  destruct (Z.eqb_spec (hdr_size h) 0) as [Hz|Hz]; cbn [orb].
  { do 2 eexists. split; [reflexivity|].
    repeat split; try (intros; congruence); intros; try tauto; lia. }
  destruct (Z.ltb_spec APP_PAYLOAD_MAX (hdr_size h)) as [Hb|Hb].
  { do 2 eexists. split; [reflexivity|].
    repeat split; try (intros; congruence); intros; try tauto; lia. }
  destruct (Z.eqb_spec computed (hdr_crc32 h)) as [Hc|Hc]; cbn [negb].
  - do 2 eexists. split; [reflexivity|].
    repeat split; try (intros; congruence); intros; try tauto; lia.
  - do 2 eexists. split; [reflexivity|].
    repeat split; try (intros; congruence); intros; try tauto; lia.
Qed.

(** C7. A region whose every byte is at the erased value 0xFF fails
    validation at the first check, with the BadMagic report. *)
Theorem erased_region_fails_with_bad_magic {engine : ChecksumEngine}
    (cfg : build) (w : world) :
  (forall a, APP_BASE <= a < APP_BASE + APP_MAX_SIZE ->
             load8 (mem w) a = 0xFF) ->
  validate_app cfg w
  = Ret (-1) (mk_world (mem w) (rx w)
                (trace w ++ tx (line cfg "Error: Invalid magic number")
                 ++ [EvValidate (-1)])).
Proof.
  intros Herased. rewrite validate_app_eq. cbv zeta.
  assert (Hmagic : hdr_magic (header_at (mem w) APP_BASE) = 0xFFFFFFFF).
  { cbn [header_at hdr_magic]. unfold load32.
    rewrite !Herased by (unfold APP_BASE, APP_MAX_SIZE; lia). reflexivity. }
  rewrite Hmagic. reflexivity.
Qed.

Lemma erased_region_fails_with_bad_magic_witness :
  validate_app (engine := zlib) build_main_c (power_on erased_memory [])
  = Ret (-1) (mk_world erased_memory []
                (tx (line build_main_c "Error: Invalid magic number")
                 ++ [EvValidate (-1)])).
Proof.
  apply (erased_region_fails_with_bad_magic (engine := zlib) build_main_c
           (power_on erased_memory [])).
  intros a _. reflexivity.
Defined.

(** What platform_flash_erase of the QEMU board leaves is such a region. *)
Lemma qemu_erase_leaves_ff (m : memory) (a : Z) :
  APP_BASE <= a < APP_BASE + APP_MAX_SIZE ->
  load8 (snd (qemu_flash_erase APP_BASE APP_MAX_SIZE m)) a = 0xFF.
Proof.
  intros Ha. unfold qemu_flash_erase. cbn [snd].
  rewrite load8_fill_bytes.
  replace (Z.of_nat (Z.to_nat APP_MAX_SIZE)) with APP_MAX_SIZE
    by (unfold APP_MAX_SIZE; lia).
  destruct (Z.leb_spec APP_BASE a); [|lia].
  destruct (Z.ltb_spec a (APP_BASE + APP_MAX_SIZE)); [|lia].
  reflexivity.
Qed.

(** ** The storage gateway *)

Section Gateway.

Context {board : Board}.

(** Within the 32-bit address space the bounds check is the one the
    interface promises, and a rejected request reaches no hardware. *)
Lemma flash_write_rejects (addr : Z) (data : list Z) (w : world) :
  0 <= addr ->
  addr + Z.of_nat (List.length data) < 2 ^ 32 ->
  addr < APP_BASE
  \/ addr + Z.of_nat (List.length data) > APP_BASE + APP_MAX_SIZE ->
  flash_write addr data w = Ret (-1) w.
Proof.
  intros H0 Hfit Hout. unfold flash_write.
  rewrite (u32_small (addr + _)) by lia.
  rewrite (u32_small (APP_BASE + _)) by (unfold APP_BASE, APP_MAX_SIZE; lia).
  rewrite Z.gtb_ltb.
  destruct (Z.ltb_spec addr APP_BASE); [reflexivity|].
  destruct (Z.ltb_spec (APP_BASE + APP_MAX_SIZE)
              (addr + Z.of_nat (List.length data))); [reflexivity|].
  lia.
Qed.

Lemma flash_write_forwards (addr : Z) (data : list Z) (w : world) :
  APP_BASE <= addr ->
  addr + Z.of_nat (List.length data) <= APP_BASE + APP_MAX_SIZE ->
  flash_write addr data w = platform_flash_write addr data w.
Proof.
  intros Hlo Hhi. unfold flash_write.
  rewrite (u32_small (addr + _))
    by (unfold APP_BASE, APP_MAX_SIZE in *; lia).
  rewrite (u32_small (APP_BASE + _)) by (unfold APP_BASE, APP_MAX_SIZE; lia).
  rewrite Z.gtb_ltb.
  destruct (Z.ltb_spec addr APP_BASE); [lia|].
  destruct (Z.ltb_spec (APP_BASE + APP_MAX_SIZE)
              (addr + Z.of_nat (List.length data))); [lia|].
  reflexivity.
Qed.

End Gateway.

(** C5 (the code departs from it).  addr + size is computed in 32 bits, so a
    request that ends beyond the top of the address space wraps around to a
    small sum and passes the check: one byte for address 0xFFFFFFFF lies
    outside the application region, yet flash_write hands it to
    platform_flash_write on every board and returns what the board returns
    instead of -1. *)
Theorem flash_write_bounds_check_wraps {board : Board} (w : world) :
  let addr := 0xFFFFFFFF in
  let data := [0x5A] in
  addr + Z.of_nat (List.length data) > APP_BASE + APP_MAX_SIZE
  /\ flash_write addr data w = platform_flash_write addr data w
  /\ exists m,
      world_of (flash_write addr data w)
      = mk_world m (rx w)
          (trace w
           ++ [EvFlashWrite addr data
                 (fst (board_flash_write addr data (mem w)))]).
Proof.
  cbv zeta. split; [reflexivity|]. split; [reflexivity|].
  change (flash_write 0xFFFFFFFF [0x5A] w)
    with (platform_flash_write 0xFFFFFFFF [0x5A] w).
  unfold platform_flash_write.
  destruct (board_flash_write 0xFFFFFFFF [0x5A] (mem w)) as [rc m].
  exists m. reflexivity.
Qed.


(** ** Projections of the trace *)

Lemma storage_writes_app (a b : list event) :
  storage_writes (a ++ b) = storage_writes a ++ storage_writes b.
Proof. apply filter_app. Qed.

Lemma storage_writes_tx (s : string) : storage_writes (tx s) = [].
Proof.
  unfold tx, storage_writes. cbn [filter is_storage_write].
  induction (wire s) as [|c l IH]; [reflexivity|exact IH].
Qed.

Lemma storage_writes_rxs (got : list ascii) : storage_writes (rxs got) = [].
Proof. induction got as [|c l IH]; [reflexivity|exact IH]. Qed.

Lemma storage_writes_received (dest : Z) (got : list ascii) :
  storage_writes (received dest got) = stores dest got.
Proof.
  revert dest. induction got as [|c l IH]; intros dest; [reflexivity|].
  cbn [received stores]. unfold storage_writes in *.
  cbn [filter is_storage_write]. rewrite IH. reflexivity.
Qed.

Lemma storage_writes_asked (cfg : build) (pre : list ascii) (t : ascii) :
  storage_writes (asked cfg pre t) = [].
Proof.
  unfold asked.
  rewrite !storage_writes_app, storage_writes_tx, !storage_writes_rxs.
  reflexivity.
Qed.

Lemma tx_of_app (a b : list event) : tx_of (a ++ b) = tx_of a ++ tx_of b.
Proof.
  induction a as [|e a IH]; [reflexivity|].
  destruct e; cbn [app tx_of]; rewrite IH; reflexivity.
Qed.

Lemma tx_of_tx (s : string) : tx_of (tx s) = wire s.
Proof.
  unfold tx. cbn [tx_of].
  induction (wire s) as [|c l IH]; [reflexivity|].
  cbn [map tx_of]. rewrite IH. reflexivity.
Qed.

Lemma tx_of_rxs (got : list ascii) : tx_of (rxs got) = [].
Proof. induction got as [|c l IH]; [reflexivity|exact IH]. Qed.

Lemma tx_of_asked (cfg : build) (pre : list ascii) (t : ascii) :
  tx_of (asked cfg pre t) = wire (line cfg "OK").
Proof.
  unfold asked. rewrite !tx_of_app, tx_of_tx, !tx_of_rxs, !app_nil_r.
  reflexivity.
Qed.

Lemma erase_calls_app (a b : list event) :
  erase_calls (a ++ b) = (erase_calls a + erase_calls b)%nat.
Proof. unfold erase_calls. rewrite filter_app, length_app. reflexivity. Qed.

Lemma erase_calls_tx (s : string) : erase_calls (tx s) = 0%nat.
Proof.
  unfold tx, erase_calls. cbn [filter is_erase].
  induction (wire s) as [|c l IH]; [reflexivity|exact IH].
Qed.

Lemma erase_calls_rxs (got : list ascii) : erase_calls (rxs got) = 0%nat.
Proof. induction got as [|c l IH]; [reflexivity|exact IH]. Qed.

Lemma erase_calls_asked (cfg : build) (pre : list ascii) (t : ascii) :
  erase_calls (asked cfg pre t) = 0%nat.
Proof.
  unfold asked. rewrite !erase_calls_app, erase_calls_tx, !erase_calls_rxs.
  reflexivity.
Qed.

Lemma no_flash_write_tx (s : string) :
  Forall (fun e => is_flash_write e = false) (tx s).
Proof.
  unfold tx. constructor; [reflexivity|].
  induction (wire s); constructor; auto.
Qed.

Lemma no_flash_write_rxs (got : list ascii) :
  Forall (fun e => is_flash_write e = false) (rxs got).
Proof. induction got; constructor; auto. Qed.

Lemma no_flash_write_received (dest : Z) (got : list ascii) :
  Forall (fun e => is_flash_write e = false) (received dest got).
Proof.
  revert dest. induction got; intros dest; cbn [received];
    repeat constructor; auto.
Qed.

Lemma no_flash_write_asked (cfg : build) (pre : list ascii) (t : ascii) :
  Forall (fun e => is_flash_write e = false) (asked cfg pre t).
Proof.
  unfold asked. repeat (apply Forall_app; split);
    auto using no_flash_write_tx, no_flash_write_rxs.
Qed.

Lemma no_flash_write_departure (cfg : build) :
  Forall (fun e => is_flash_write e = false) (departure cfg).
Proof.
  unfold departure, jump_banner.
  destruct (direct_boot cfg); [|repeat constructor].
  destruct (rev_of cfg); repeat (apply Forall_app; split);
    auto using no_flash_write_tx; repeat constructor.
Qed.

(** An event of a kind that occurs once in a list splits it in one way. *)
Lemma split_at_unique {A} (P : A -> bool) (l1 l2 before after : list A)
    (x y : A) :
  Forall (fun e => P e = false) l1 ->
  Forall (fun e => P e = false) l2 ->
  P x = true -> P y = true ->
  l1 ++ x :: l2 = before ++ y :: after ->
  before = l1 /\ y = x /\ after = l2.
Proof.
  intros H1 H2 Hx Hy. revert before.
  induction l1 as [|a l1 IH]; intros before Heq.
  - destruct before as [|b before]; cbn [app] in Heq.
    + injection Heq as -> ->. auto.
    + injection Heq as -> ->. exfalso.
      rewrite Forall_forall in H2.
      specialize (H2 y (in_elt y before after)). congruence.
  - inversion H1 as [|? ? Ha H1']; subst.
    destruct before as [|b before]; cbn [app] in Heq.
    + injection Heq as -> _. congruence.
    + injection Heq as -> Heq.
      destruct (IH H1' before Heq) as (-> & -> & ->). auto.
Qed.

Lemma no_split {A} (P : A -> bool) (l before after : list A) (y : A) :
  Forall (fun e => P e = false) l ->
  P y = true ->
  l <> before ++ y :: after.
Proof.
  intros Hl Hy ->. rewrite Forall_forall in Hl.
  specialize (Hl y (in_elt y before after)). congruence.
Qed.

(** ** The update session: size check and write order *)

(** C4. A session whose declared size is 0 or exceeds capacity minus header
    size ends with "ERR: SIZE" and returns to the caller before any erase:
    the session contains no call of flash_erase_app, no storage write at
    all, memory is what it was, and "OK" and "ERR: SIZE" are all the host
    gets to see. *)
Theorem invalid_size_aborts_before_erase {board : Board}
    {engine : ChecksumEngine} (cfg : build) (w : world) (pre : list ascii)
    (t : ascii) (rest : list ascii) :
  rx w = cmd_SEND ++ pre ++ t :: rest ->
  is_terminator t = true ->
  Forall (fun c => is_terminator c = false) pre ->
  let size := decimal_value (filter is_digit pre) mod 2 ^ 32 in
  size = 0 \/ size > APP_MAX_SIZE - sizeof_fw_header_t ->
  exists session_trace,
    uart_update cfg w
    = Ret tt (mk_world (mem w) rest (trace w ++ session_trace))
    /\ session_trace = asked cfg pre t ++ tx (line cfg "ERR: SIZE")
    /\ tx_of session_trace
       = wire (line cfg "OK") ++ wire (line cfg "ERR: SIZE")
    /\ erase_calls session_trace = 0%nat
    /\ storage_writes session_trace = [].
Proof.
  intros Hrx Ht Hpre size Hbad.
  exists (asked cfg pre t ++ tx (line cfg "ERR: SIZE")).
  split; [|split; [reflexivity|split; [|split]]].
  2:{ rewrite tx_of_app, tx_of_asked, tx_of_tx. reflexivity. }
  - unfold uart_update. unfold bind at 1. rewrite uart_puts_eq.
    unfold bind at 1.
    rewrite (await_command_run cfg (list_ascii_of_string "SEND ")
               (pre ++ t :: rest)) by exact Hrx.
    cbn [negb]. unfold bind at 1.
    rewrite (await_size_run pre 0 _ t rest) by (try reflexivity; assumption).
    rewrite parsed_size_decimal.
    change (u32 (decimal_value (filter is_digit pre))) with size.
    assert (Hcheck : (size =? 0) || (size >? APP_PAYLOAD_MAX) = true).
    { rewrite Z.gtb_ltb. change APP_PAYLOAD_MAX with 458736.
      change (APP_MAX_SIZE - sizeof_fw_header_t) with 458736 in Hbad.
      destruct (Z.eqb_spec size 0); [reflexivity|].
      destruct (Z.ltb_spec 458736 size); [reflexivity|]. lia. }
    rewrite Hcheck. rewrite uart_puts_eq. unfold extend. cbn [mem rx trace].
    unfold asked, cmd_SEND. rewrite <- !app_assoc. reflexivity.
  - rewrite erase_calls_app, erase_calls_asked, erase_calls_tx. reflexivity.
  - rewrite storage_writes_app, storage_writes_asked, storage_writes_tx.
    reflexivity.
Qed.

(** "SEND 0\n" declares size 0; "SEND 458737\n" is one more than fits. *)
Lemma invalid_size_aborts_before_erase_witness :
  exists session_trace,
    uart_update (board := qemu_virt) (engine := zlib) build_main_c
      (power_on erased_memory
         (cmd_SEND ++ list_ascii_of_string "458737" ++ [LF]))
    = Ret tt (mk_world erased_memory [] ([] ++ session_trace))
    /\ session_trace
       = asked build_main_c (list_ascii_of_string "458737") LF
         ++ tx (line build_main_c "ERR: SIZE")
    /\ tx_of session_trace
       = wire (line build_main_c "OK") ++ wire (line build_main_c "ERR: SIZE")
    /\ erase_calls session_trace = 0%nat
    /\ storage_writes session_trace = [].
Proof.
  apply (invalid_size_aborts_before_erase (board := qemu_virt)
           (engine := zlib) build_main_c
           (power_on erased_memory
              (cmd_SEND ++ list_ascii_of_string "458737" ++ [LF]))
           (list_ascii_of_string "458737") LF []).
  - reflexivity.
  - reflexivity.
  - repeat constructor.
  - right. vm_compute. reflexivity.
Defined.


Section WriteOrder.

Context {board : Board} {engine : ChecksumEngine}.
Variable cfg : build.

Lemma transfer_split (pre : list ascii) (t : ascii) (size : Z)
    (payload : list ascii) (m : memory) (rc : Z) (tail : list event) :
  asked cfg pre t ++ transfer cfg size payload m rc ++ tail
  = before_header cfg pre t size payload
    ++ EvFlashWrite APP_BASE (header_bytes (header_for size m)) rc :: tail.
Proof.
  unfold transfer, before_header. rewrite <- !app_assoc. reflexivity.
Qed.

Lemma no_flash_write_before_header (pre : list ascii) (t : ascii) (size : Z)
    (payload : list ascii) :
  Forall (fun e => is_flash_write e = false)
    (before_header cfg pre t size payload).
Proof.
  unfold before_header. repeat (apply Forall_app; split);
    auto using no_flash_write_tx, no_flash_write_rxs,
      no_flash_write_received; repeat constructor.
Qed.

Lemma storage_writes_before_header (pre : list ascii) (t : ascii) (size : Z)
    (payload : list ascii) :
  storage_writes (before_header cfg pre t size payload)
  = EvFlashErase APP_BASE APP_MAX_SIZE 0 :: stores payload_base payload.
Proof.
  unfold before_header.
  rewrite !storage_writes_app, storage_writes_asked, !storage_writes_tx,
    storage_writes_received.
  cbn [storage_writes filter is_storage_write app]. rewrite app_nil_r.
  reflexivity.
Qed.

Lemma storage_writes_departure : storage_writes (departure cfg) = [].
Proof.
  unfold departure, jump_banner. destruct (direct_boot cfg); [|reflexivity].
  destruct (rev_of cfg);
    rewrite !storage_writes_app, ?storage_writes_tx; reflexivity.
Qed.

Lemma accumulate_range (pre : list ascii) : 0 <= accumulate 0 pre < 2 ^ 32.
Proof. rewrite parsed_size_decimal. apply u32_range. Qed.

Lemma size_ok_range (size : Z) :
  size_ok size = true -> 0 <= size ->
  0 < size <= APP_MAX_SIZE - sizeof_fw_header_t.
Proof.
  unfold size_ok. rewrite Z.gtb_ltb. change APP_PAYLOAD_MAX with 458736.
  change (APP_MAX_SIZE - sizeof_fw_header_t) with 458736.
  destruct (Z.eqb_spec size 0); [discriminate|].
  destruct (Z.ltb_spec 458736 size); [discriminate|]. lia.
Qed.

End WriteOrder.

(** C2. In every update session the header write is the last storage write.
    Wherever platform_flash_write occurs in the trace of a session, it is
    flash_write_header writing at APP_BASE the header for some size within
    bounds; the storage writes before it are the erase of the whole
    partition, which succeeded, followed by the stores of exactly [size]
    payload bytes at consecutive addresses from the payload base; and no
    storage write follows it. *)
Theorem header_write_is_last {board : Board} {engine : ChecksumEngine}
    (cfg : build) (w : world) :
  exists new,
    trace (world_of (uart_update cfg w)) = trace w ++ new
    /\ forall before addr data rc after,
        new = before ++ EvFlashWrite addr data rc :: after ->
        exists size payload m,
          addr = APP_BASE
          /\ data = header_bytes (header_for size m)
          /\ 0 < size <= APP_MAX_SIZE - sizeof_fw_header_t
          /\ Z.of_nat (List.length payload) = size
          /\ storage_writes before
             = EvFlashErase APP_BASE APP_MAX_SIZE 0
               :: stores payload_base payload
          /\ storage_writes after = [].
Proof.
  pose proof (uart_update_session cfg w) as Hs.
  destruct Hs as
    [ e cmd' Hcmd
    | got e cmd' c rest Hcmd Hrx Hne
    | pre Hrx Hpre
    | pre t rest Hrx Ht Hpre Hsz
    | pre t rest rc m1 Hrx Ht Hpre Hsz He Hrc
    | pre t rest m1 Hrx Ht Hpre Hsz He Hlen
    | pre t payload rest m1 rc m3 Hrx Ht Hpre Hsz He Hlen size m2 Hw Hrc
    | pre t payload rest m1 m3 Hrx Ht Hpre Hsz He Hlen size m2 Hw ];
    cbn [world_of trace]; eexists; (split; [reflexivity|]);
    intros before addr data rc' after Heq.
  1-6: exfalso; revert Heq;
    apply (no_split is_flash_write); [|reflexivity];
    unfold asked;
    repeat (apply Forall_app; split);
    auto using no_flash_write_tx, no_flash_write_rxs,
      no_flash_write_received;
    repeat constructor.
  - rewrite transfer_split in Heq.
    apply (split_at_unique is_flash_write) in Heq;
      auto using no_flash_write_before_header, no_flash_write_tx.
    destruct Heq as (-> & Hev & ->). injection Hev as -> -> ->.
    exists size, payload, m2.
    pose proof (size_ok_range size Hsz (proj1 (accumulate_range pre))).
    split; [reflexivity|]. split; [reflexivity|]. split; [lia|].
    split; [fold size in Hlen; lia|].
    split; [apply storage_writes_before_header|].
    apply storage_writes_tx.
  - rewrite transfer_split in Heq.
    apply (split_at_unique is_flash_write) in Heq;
      auto using no_flash_write_before_header.
    2:{ repeat (apply Forall_app; split);
          auto using no_flash_write_tx, no_flash_write_departure. }
    destruct Heq as (-> & Hev & ->). injection Hev as -> -> ->.
    exists size, payload, m2.
    pose proof (size_ok_range size Hsz (proj1 (accumulate_range pre))).
    split; [reflexivity|]. split; [reflexivity|]. split; [lia|].
    split; [fold size in Hlen; lia|].
    split; [apply storage_writes_before_header|].
    rewrite !storage_writes_app, !storage_writes_tx,
      storage_writes_departure. reflexivity.
Qed.


(** ** Update, then validate *)

Lemma load8_copied (a k : Z) (src : list Z) (m : memory) :
  0 <= k < Z.of_nat (List.length src) ->
  load8 (copy_bytes a src m) (a + k) = u8 (nth (Z.to_nat k) src 0).
Proof.
  intros Hk. rewrite load8_copy_bytes.
  destruct (Z.leb_spec a (a + k)); [|lia].
  destruct (Z.ltb_spec (a + k) (a + Z.of_nat (List.length src))); [|lia].
  cbn [andb]. replace (a + k - a) with k by lia. reflexivity.
Qed.

Lemma load32_copied (a k : Z) (src : list Z) (m : memory) (v : Z) :
  0 <= k -> k + 3 < Z.of_nat (List.length src) ->
  0 <= v < 2 ^ 32 ->
  le32 v = [nth (Z.to_nat k) src 0; nth (Z.to_nat (k + 1)) src 0;
            nth (Z.to_nat (k + 2)) src 0; nth (Z.to_nat (k + 3)) src 0] ->
  load32 (copy_bytes a src m) (a + k) = v.
Proof.
  intros Hk Hlen Hv Hle. unfold load32.
  replace (a + k + 1) with (a + (k + 1)) by lia.
  replace (a + k + 2) with (a + (k + 2)) by lia.
  replace (a + k + 3) with (a + (k + 3)) by lia.
  rewrite !load8_copied by lia.
  apply le32_load; assumption.
Qed.

(** Reading back a header that was written byte by byte. *)
Lemma header_at_copy (a : Z) (h : fw_header_t) (m : memory) :
  0 <= hdr_magic h < 2 ^ 32 -> 0 <= hdr_size h < 2 ^ 32 ->
  0 <= hdr_crc32 h < 2 ^ 32 -> 0 <= hdr_version h < 2 ^ 32 ->
  header_at (copy_bytes a (header_bytes h) m) a = h.
Proof.
  intros Hm Hs Hc Hv. destruct h as [mg sz cr ve]. cbn [hdr_magic hdr_size
    hdr_crc32 hdr_version] in *.
  unfold header_at. f_equal.
  - replace a with (a + 0) at 2 by lia.
    apply load32_copied; try assumption; try reflexivity;
      cbn [header_bytes List.length app le32]; lia.
  - apply load32_copied; try assumption; try reflexivity;
      cbn [header_bytes List.length app le32]; lia.
  - apply load32_copied; try assumption; try reflexivity;
      cbn [header_bytes List.length app le32]; lia.
  - apply load32_copied; try assumption; try reflexivity;
      cbn [header_bytes List.length app le32]; lia.
Qed.

Lemma read_bytes_above_copy (a : Z) (src : list Z) (m : memory) (b : Z)
    (n : nat) :
  a + Z.of_nat (List.length src) <= b ->
  read_bytes (copy_bytes a src m) b n = read_bytes m b n.
Proof.
  intros Hb. apply read_bytes_ext. intros x Hx.
  rewrite load8_copy_bytes.
  destruct (Z.ltb_spec x (a + Z.of_nat (List.length src))); [lia|].
  rewrite andb_false_r. reflexivity.
Qed.

(** The bytes the receive loop stored are the bytes the host sent. *)
Lemma read_bytes_copied (a : Z) (got : list ascii) (m : memory) :
  read_bytes (copy_bytes a (map code got) m) a (List.length got)
  = map code got.
Proof.
  revert a m. induction got as [|c got IH]; intros a m; [reflexivity|].
  cbn [map copy_bytes List.length read_bytes]. f_equal.
  - rewrite load8_copy_bytes.
    destruct (Z.leb_spec (a + 1) a); [lia|]. cbn [andb].
    rewrite load8_store8, Z.eqb_refl. apply u8_code.
  - apply IH.
Qed.

Lemma qemu_virt_faithful : faithful_write qemu_virt.
Proof.
  intros addr data m m' H. cbn [board_flash_write qemu_virt] in H.
  unfold qemu_flash_write in H. injection H as <-. reflexivity.
Qed.

Section RoundTrip.

Context {board : Board} {engine : ChecksumEngine}.
Variable cfg : build.
Hypothesis board_writes : faithful_write board.

Lemma is_committed_departed (w : world) :
  is_committed (A := unit) (Stop (departed cfg) w) = true.
Proof. unfold departed. destruct (direct_boot cfg); reflexivity. Qed.

Lemma committed_region_valid (w : world) :
  is_committed (uart_update cfg w) = true ->
  let w' := world_of (uart_update cfg w) in
  let h := header_at (mem w') APP_BASE in
  hdr_magic h = BOOT_MAGIC
  /\ 0 < hdr_size h <= APP_MAX_SIZE - sizeof_fw_header_t
  /\ hdr_crc32 h
     = u32 (checksum (read_bytes (mem w') payload_base
                        (Z.to_nat (hdr_size h))))
  /\ validate_app cfg w'
     = Ret 0 (mk_world (mem w') (rx w')
                (trace w' ++ [EvCrc32 payload_base (hdr_size h);
                              EvValidate 0])).
Proof.
  pose proof (uart_update_session cfg w) as Hs.
  destruct Hs as
    [ e cmd' Hcmd
    | got e cmd' c rest Hcmd Hrx Hne
    | pre Hrx Hpre
    | pre t rest Hrx Ht Hpre Hsz
    | pre t rest rc m1 Hrx Ht Hpre Hsz He Hrc
    | pre t rest m1 Hrx Ht Hpre Hsz He Hlen
    | pre t payload rest m1 rc m3 Hrx Ht Hpre Hsz He Hlen size m2 Hw Hrc
    | pre t payload rest m1 m3 Hrx Ht Hpre Hsz He Hlen size m2 Hw ];
    intros Hc; try (cbn [is_committed] in Hc; discriminate Hc).
  clear Hc. cbn [world_of mem rx trace].
  apply board_writes in Hw. subst m3.
  pose proof (accumulate_range pre) as Hrange. fold size in Hrange.
  pose proof (size_ok_range size Hsz (proj1 Hrange)) as Hfit.
  assert (Hhdr : header_at (copy_bytes APP_BASE
                              (header_bytes (header_for size m2)) m2) APP_BASE
                 = header_for size m2).
  { apply header_at_copy; cbn [header_for hdr_magic hdr_size hdr_crc32
      hdr_version]; try apply u32_range; try assumption;
      unfold BOOT_MAGIC; lia. }
  assert (Hpayload : forall n,
    read_bytes (copy_bytes APP_BASE (header_bytes (header_for size m2)) m2)
      payload_base n
    = read_bytes m2 payload_base n).
  { intros n. apply read_bytes_above_copy. unfold payload_base.
    change (Z.of_nat (List.length (header_bytes (header_for size m2))))
      with 16. change sizeof_fw_header_t with 16. lia. }
  cbv zeta. rewrite validate_app_eq. cbv zeta. cbn [mem rx trace].
  rewrite Hhdr, !Hpayload.
  cbn [header_for hdr_magic hdr_size hdr_crc32 hdr_version].
  rewrite Z.eqb_refl. cbn [negb].
  unfold size_ok in Hsz. apply negb_true_iff in Hsz. fold size in Hsz.
  rewrite Hsz.
  rewrite Z.eqb_refl. cbn [negb].
  split; [reflexivity|]. split; [lia|]. split; [reflexivity|].
  rewrite <- !app_assoc. reflexivity.
Qed.

End RoundTrip.

(** C6. On the QEMU board, the region a committed update session leaves
    holds a valid image: the magic read back is the sentinel, the size read
    back is within bounds, the checksum read back is the checksum of the
    payload as it lies in the region, and validate_app returns 0 there. *)
Theorem committed_update_validates {engine : ChecksumEngine} (cfg : build)
    (w : world) :
  is_committed (uart_update (board := qemu_virt) cfg w) = true ->
  let w' := world_of (uart_update (board := qemu_virt) cfg w) in
  let h := header_at (mem w') APP_BASE in
  hdr_magic h = BOOT_MAGIC
  /\ 0 < hdr_size h <= APP_MAX_SIZE - sizeof_fw_header_t
  /\ hdr_crc32 h
     = u32 (checksum (read_bytes (mem w') payload_base
                        (Z.to_nat (hdr_size h))))
  /\ validate_app cfg w'
     = Ret 0 (mk_world (mem w') (rx w')
                (trace w' ++ [EvCrc32 payload_base (hdr_size h);
                              EvValidate 0])).
Proof.
  apply (committed_region_valid (board := qemu_virt) cfg qemu_virt_faithful).
Qed.

Lemma committed_update_validates_witness :
  let w' := world_of (uart_update (board := qemu_virt) (engine := zlib)
                        build_direct (power_on erased_memory t1_session)) in
  let h := header_at (mem w') APP_BASE in
  hdr_magic h = BOOT_MAGIC
  /\ 0 < hdr_size h <= APP_MAX_SIZE - sizeof_fw_header_t
  /\ hdr_crc32 h
     = u32 (checksum (ChecksumEngine := zlib)
            (read_bytes (mem w') payload_base
                        (Z.to_nat (hdr_size h))))
  /\ validate_app (engine := zlib) build_direct w'
     = Ret 0 (mk_world (mem w') (rx w')
                (trace w' ++ [EvCrc32 payload_base (hdr_size h);
                              EvValidate 0])).
Proof.
  apply (committed_update_validates (engine := zlib) build_direct
           (power_on erased_memory t1_session)).
  vm_compute. reflexivity.
Defined.


(** ** What a computation adds to the trace *)

Section Appends.

Context {board : Board} {engine : ChecksumEngine}.
Variable cfg : build.
Variable P : list event -> Prop.
Hypothesis P_closed : closed P.

Lemma appends_ret {A} (a : A) : appends P (ret a).
Proof.
  intros w. exists []. cbn. rewrite app_nil_r. split; [reflexivity|].
  apply P_closed.
Qed.

Lemma appends_stop {A} (o : outcome) : appends P (stop (A := A) o).
Proof.
  intros w. exists []. cbn. rewrite app_nil_r. split; [reflexivity|].
  apply P_closed.
Qed.

Lemma appends_bind {A B} (c : M A) (k : A -> M B) :
  appends P c -> (forall a, appends P (k a)) -> appends P (bind c k).
Proof.
  intros Hc Hk w. unfold bind. destruct (Hc w) as (new1 & H1 & HP1).
  destruct (c w) as [a w1|o w1]; cbn [world_of] in *.
  - destruct (Hk a w1) as (new2 & H2 & HP2).
    exists (new1 ++ new2). rewrite H2, H1, app_assoc.
    split; [reflexivity|]. apply P_closed; assumption.
  - exists new1. auto.
Qed.

Lemma appends_exactly {A} (c : M A) (new : list event) :
  (forall w, trace (world_of (c w)) = trace w ++ new) -> P new ->
  appends P c.
Proof. intros H HP w. exists new. auto. Qed.

Lemma appends_uart_puts (s : string) : P (tx s) -> appends P (uart_puts s).
Proof.
  intros HP. apply (appends_exactly _ (tx s)); [|assumption].
  intros w. rewrite uart_puts_eq. reflexivity.
Qed.

Lemma appends_uart_putc (c : ascii) : P (echo c) -> appends P (uart_putc c).
Proof.
  intros HP. apply (appends_exactly _ (echo c)); [|assumption].
  intros w. rewrite uart_putc_eq. reflexivity.
Qed.

Lemma appends_uart_getc :
  (forall c, P (rxs [c])) -> appends P uart_getc.
Proof.
  intros HP w. rewrite uart_getc_eq. destruct (rx w) as [|c pending].
  - exists []. cbn. rewrite app_nil_r. split; [reflexivity|]. apply P_closed.
  - exists (rxs [c]). split; [reflexivity|]. apply HP.
Qed.

Lemma appends_signal (e : event) : P [e] -> appends P (signal e).
Proof.
  intros HP. apply (appends_exactly _ [e]); [|assumption]. reflexivity.
Qed.

End Appends.


(** ** The gate along a trace *)

Lemma gate_run_app (g : gate) (a b : list event) :
  gate_run g (a ++ b) = gate_run (gate_run g a) b.
Proof. apply fold_left_app. Qed.

Lemma gated_app (d : bool) (a b : list event) (g : gate) :
  gated d g (a ++ b) = gated d g a && gated d (gate_run g a) b.
Proof.
  revert g. induction a as [|e a IH]; intros g; [reflexivity|].
  cbn [app gated]. rewrite IH, andb_assoc. reflexivity.
Qed.

Lemma gated_no_jump (d : bool) (tr : list event) (g : gate) :
  Forall (fun e => is_jump e = false) tr -> gated d g tr = true.
Proof.
  intros H. revert g. induction H as [|e tr He _ IH]; intros g;
    [reflexivity|].
  cbn [gated]. rewrite IH. destruct e; try reflexivity; discriminate.
Qed.

(** What the monitor checks, said without it: at every handoff the gate, run
    over the trace before it, lets pass. *)
Lemma gated_handoffs (d : bool) (tr : list event) :
  forall (g : gate) (before : list event) (a : Z) (after : list event),
  gated d g tr = true ->
  tr = before ++ EvJump a :: after ->
  may_pass d (gate_run g before) = true.
Proof.
  induction tr as [|e tr IH]; intros g before a after Hg Heq.
  - destruct before; discriminate.
  - cbn [gated] in Hg. apply andb_true_iff in Hg. destruct Hg as [He Htr].
    destruct before as [|b before]; cbn [app] in Heq.
    + injection Heq as -> _. exact He.
    + injection Heq as -> Heq. exact (IH _ _ _ _ Htr Heq).
Qed.

(** The gate stands at Validated only if validate_app returned 0 and no
    storage write came after. *)
Lemma validated_since (tr : list event) :
  gate_run Closed tr = Validated ->
  exists pre post,
    tr = pre ++ EvValidate 0 :: post /\ storage_writes post = [].
Proof.
  induction tr as [|e tr IH] using rev_ind; [discriminate|].
  rewrite gate_run_app. cbn [gate_run fold_left]. fold (gate_run Closed tr).
  destruct e; cbn [gate_after]; intros H;
    try (destruct (IH H) as (pre & post & -> & Hpost);
         eexists pre, (post ++ [_]);
         split; [rewrite <- app_assoc; reflexivity|];
         rewrite storage_writes_app, Hpost; reflexivity);
    try discriminate.
  - destruct (_ && _); discriminate.
  - destruct (Z.eqb_spec rc 0) as [->|]; [|discriminate].
    exists tr, []. split; reflexivity.
Qed.

(** The gate stands at Committed only if a write at APP_BASE succeeded and no
    storage write came after. *)
Lemma committed_since (tr : list event) :
  gate_run Closed tr = Committed ->
  exists pre data post,
    tr = pre ++ EvFlashWrite APP_BASE data 0 :: post
    /\ storage_writes post = [].
Proof.
  induction tr as [|e tr IH] using rev_ind; [discriminate|].
  rewrite gate_run_app. cbn [gate_run fold_left]. fold (gate_run Closed tr).
  destruct e; cbn [gate_after]; intros H;
    try (destruct (IH H) as (pre & d & post & -> & Hpost);
         eexists pre, d, (post ++ [_]);
         split; [rewrite <- app_assoc; reflexivity|];
         rewrite storage_writes_app, Hpost; reflexivity);
    try discriminate.
  - destruct (Z.eqb_spec addr APP_BASE) as [->|]; [|discriminate].
    destruct (Z.eqb_spec rc 0) as [->|]; [|discriminate].
    exists tr, data, []. split; reflexivity.
  - destruct (rc =? 0); discriminate.
Qed.

Lemma inert_no_jump (tr : list event) :
  Forall (fun e => is_inert e = true) tr ->
  Forall (fun e => is_jump e = false) tr.
Proof.
  apply Forall_impl. intros e He. destruct e; try reflexivity; discriminate.
Qed.

Lemma gate_run_inert (tr : list event) (g : gate) :
  Forall (fun e => is_inert e = true) tr -> gate_run g tr = g.
Proof.
  intros H. induction H as [|e tr He _ IH]; [reflexivity|].
  unfold gate_run in *. cbn [fold_left]. rewrite <- IH at 2.
  destruct e; try reflexivity; discriminate.
Qed.

Lemma inert_tx (s : string) : Forall (fun e => is_inert e = true) (tx s).
Proof.
  unfold tx. constructor; [reflexivity|].
  induction (wire s); constructor; auto.
Qed.

Lemma inert_echo (c : ascii) : Forall (fun e => is_inert e = true) (echo c).
Proof. unfold echo. induction (wire _); constructor; auto. Qed.

Lemma inert_rxs (got : list ascii) :
  Forall (fun e => is_inert e = true) (rxs got).
Proof. induction got; constructor; auto. Qed.

Lemma no_jump_received (dest : Z) (got : list ascii) :
  Forall (fun e => is_jump e = false) (received dest got).
Proof.
  revert dest. induction got; intros dest; cbn [received];
    repeat constructor; auto.
Qed.

Lemma inert_jump_banner (cfg : build) :
  Forall (fun e => is_inert e = true) (jump_banner cfg).
Proof.
  unfold jump_banner. apply Forall_app. split; [apply inert_tx|].
  destruct (rev_of cfg); [constructor|apply inert_tx].
Qed.

Create HintDb trace_pieces.
#[export] Hint Resolve inert_tx inert_echo inert_rxs inert_jump_banner
  no_jump_received inert_no_jump no_flash_write_tx no_flash_write_rxs
  no_flash_write_received : trace_pieces.

(** Proves a [Forall] over a trace that is put together from such pieces. *)
Ltac piecewise :=
  repeat first
    [ apply Forall_nil
    | solve [auto with trace_pieces]
    | apply Forall_app; split
    | apply Forall_cons; [reflexivity|] ].

Lemma safe_closed (d : bool) : closed (safe d).
Proof.
  split; [intros g; reflexivity|].
  intros a b Ha Hb g. rewrite gated_app, Ha, Hb. reflexivity.
Qed.

Lemma safe_no_jump (d : bool) (tr : list event) :
  Forall (fun e => is_jump e = false) tr -> safe d tr.
Proof. intros H g. apply gated_no_jump. assumption. Qed.

(** A handoff right after a successful validation passes. *)
Lemma safe_after_validation (d : bool) (report banner : list event) (a : Z) :
  Forall (fun e => is_jump e = false) report ->
  Forall (fun e => is_inert e = true) banner ->
  safe d (report ++ EvValidate 0 :: banner ++ [EvJump a]).
Proof.
  intros Hr Hb g. rewrite gated_app, gated_no_jump by assumption.
  cbn [andb gated]. rewrite gated_app.
  rewrite gated_no_jump by (apply inert_no_jump; assumption).
  rewrite gate_run_inert by assumption. reflexivity.
Qed.

(** A handoff right after a successful header write passes where the build
    boots directly. *)
Lemma safe_after_commit (before banner : list event) (data : list Z) (a : Z) :
  Forall (fun e => is_jump e = false) before ->
  Forall (fun e => is_inert e = true) banner ->
  safe true (before ++ EvFlashWrite APP_BASE data 0 :: banner ++ [EvJump a]).
Proof.
  intros Hx Hb g. rewrite gated_app, gated_no_jump by assumption.
  cbn [andb gated]. rewrite gated_app.
  rewrite gated_no_jump by (apply inert_no_jump; assumption).
  rewrite gate_run_inert by assumption. reflexivity.
Qed.

(** ** The status lines along a trace *)

Lemma lines_of_app (a b : list event) :
  lines_of (a ++ b) = lines_of a ++ lines_of b.
Proof.
  induction a as [|e a IH]; [reflexivity|].
  destruct e; cbn [app lines_of]; rewrite IH; reflexivity.
Qed.

Lemma lines_of_tx (s : string) : lines_of (tx s) = [s].
Proof.
  unfold tx. cbn [lines_of]. f_equal.
  induction (wire s) as [|c l IH]; [reflexivity|exact IH].
Qed.

Lemma lines_of_echo (c : ascii) : lines_of (echo c) = [].
Proof. unfold echo. induction (wire _) as [|x l IH]; [reflexivity|exact IH]. Qed.

Lemma lines_of_rxs (got : list ascii) : lines_of (rxs got) = [].
Proof. induction got as [|c l IH]; [reflexivity|exact IH]. Qed.

Lemma lines_of_received (dest : Z) (got : list ascii) :
  lines_of (received dest got) = [].
Proof.
  revert dest. induction got as [|c l IH]; intros dest; [reflexivity|].
  cbn [received lines_of]. apply IH.
Qed.

Lemma lines_of_asked (cfg : build) (pre : list ascii) (t : ascii) :
  lines_of (asked cfg pre t) = [line cfg "OK"].
Proof.
  unfold asked. rewrite !lines_of_app, lines_of_tx, !lines_of_rxs.
  reflexivity.
Qed.

Lemma lines_of_transfer {engine : ChecksumEngine} (cfg : build) (size : Z)
    (payload : list ascii) (m : memory) (rc : Z) :
  lines_of (transfer cfg size payload m rc)
  = [line cfg "ERASING..."; line cfg "READY"].
Proof.
  unfold transfer.
  rewrite !lines_of_app, !lines_of_tx, lines_of_received. reflexivity.
Qed.

Lemma lines_of_departure (cfg : build) :
  lines_of (departure cfg)
  = map (line cfg)
      (if direct_boot cfg
       then "Jumping to application..."%string
            :: match rev_of cfg with
               | main_c => []
               | part_005 => ["APP_HANDOFF"%string]
               end
       else []).
Proof.
  unfold departure, jump_banner. destruct (direct_boot cfg); [|reflexivity].
  destruct (rev_of cfg);
    rewrite !lines_of_app, ?lines_of_tx; reflexivity.
Qed.

Lemma legacy_only_closed (cfg : build) : closed (legacy_only cfg).
Proof.
  unfold legacy_only. split; [constructor|].
  intros a b Ha Hb. rewrite lines_of_app. apply Forall_app. auto.
Qed.

(** Picks the literal out of the list of legacy lines. *)
Ltac legacy_line :=
  unfold status_lines; right; apply in_map; cbn [legacy_literals In];
  repeat (first [left; reflexivity | right]).

Lemma legacy_only_tx (cfg : build) (s : string) :
  In s (status_lines cfg) -> legacy_only cfg (tx s).
Proof.
  intros H. unfold legacy_only. rewrite lines_of_tx.
  constructor; [assumption|constructor].
Qed.

Lemma legacy_only_silent (cfg : build) (tr : list event) :
  lines_of tr = [] -> legacy_only cfg tr.
Proof. intros H. unfold legacy_only. rewrite H. constructor. Qed.

(** None of the legacy lines has the machine-parsable form. *)
Lemma status_lines_not_machine_parsable (cfg : build) :
  Forall (fun s => machine_parsable s = false) (status_lines cfg).
Proof.
  unfold status_lines, line, eol. destruct (rev_of cfg);
    cbn [legacy_literals map]; repeat constructor.
Qed.

(** ** What a session adds to the trace *)

Section SessionTrace.

Context {board : Board} {engine : ChecksumEngine}.
Variable cfg : build.

(** The status lines of a session are one of the scripts. *)
Lemma session_lines (w : world) :
  exists new,
    trace (world_of (uart_update cfg w)) = trace w ++ new
    /\ In (lines_of new) (session_scripts cfg).
Proof.
  pose proof (uart_update_session cfg w) as Hs.
  destruct Hs as
    [ e cmd' Hcmd
    | got e cmd' c rest Hcmd Hrx Hne
    | pre Hrx Hpre
    | pre t rest Hrx Ht Hpre Hsz
    | pre t rest rc m1 Hrx Ht Hpre Hsz He Hrc
    | pre t rest m1 Hrx Ht Hpre Hsz He Hlen
    | pre t payload rest m1 rc m3 Hrx Ht Hpre Hsz He Hlen size m2 Hw Hrc
    | pre t payload rest m1 m3 Hrx Ht Hpre Hsz He Hlen size m2 Hw ];
    cbn [world_of trace]; eexists; (split; [reflexivity|]);
    rewrite ?lines_of_app, ?lines_of_asked, ?lines_of_transfer,
      ?lines_of_tx, ?lines_of_rxs, ?lines_of_received, ?lines_of_departure;
    unfold session_scripts; cbn [map app lines_of In].
  - left. reflexivity.
  - right; left. reflexivity.
  - left. reflexivity.
  - do 2 right; left. reflexivity.
  - do 3 right; left. reflexivity.
  - do 4 right; left. reflexivity.
  - do 5 right; left. reflexivity.
  - do 6 right; left. reflexivity.
Qed.

Lemma session_legacy_only : appends (legacy_only cfg) (uart_update cfg).
Proof.
  intros w. destruct (session_lines w) as (new & Hnew & Hin).
  exists new. split; [assumption|]. unfold legacy_only.
  unfold session_scripts in Hin. cbn [map In] in Hin.
  destruct Hin as [<-|[<-|[<-|[<-|[<-|[<-|[<-|[]]]]]]]];
    try (repeat (apply Forall_cons; [legacy_line|]); apply Forall_nil).
  rewrite map_app. apply Forall_app. split.
  - cbn [map]. repeat (apply Forall_cons; [legacy_line|]); apply Forall_nil.
  - destruct (direct_boot cfg); [|constructor].
    destruct (rev_of cfg); cbn [map];
      repeat (apply Forall_cons; [legacy_line|]); apply Forall_nil.
Qed.

Lemma session_safe : appends (safe (direct_boot cfg)) (uart_update cfg).
Proof.
  intros w. pose proof (uart_update_session cfg w) as Hs.
  destruct Hs as
    [ e cmd' Hcmd
    | got e cmd' c rest Hcmd Hrx Hne
    | pre Hrx Hpre
    | pre t rest Hrx Ht Hpre Hsz
    | pre t rest rc m1 Hrx Ht Hpre Hsz He Hrc
    | pre t rest m1 Hrx Ht Hpre Hsz He Hlen
    | pre t payload rest m1 rc m3 Hrx Ht Hpre Hsz He Hlen size m2 Hw Hrc
    | pre t payload rest m1 m3 Hrx Ht Hpre Hsz He Hlen size m2 Hw ];
    cbn [world_of trace]; eexists; (split; [reflexivity|]).
  1-7: apply safe_no_jump; unfold asked, transfer; piecewise.
  rewrite transfer_split. unfold departure.
  destruct (direct_boot cfg) eqn:Hd.
  - rewrite !app_assoc.
    apply safe_after_commit; unfold before_header, asked; piecewise.
  - apply safe_no_jump. unfold before_header, asked. piecewise.
Qed.

Lemma session_total : total (uart_update cfg).
Proof.
  intros w. pose proof (uart_update_session cfg w) as Hs.
  destruct Hs as
    [ e cmd' Hcmd
    | got e cmd' c rest Hcmd Hrx Hne
    | pre Hrx Hpre
    | pre t rest Hrx Ht Hpre Hsz
    | pre t rest rc m1 Hrx Ht Hpre Hsz He Hrc
    | pre t rest m1 Hrx Ht Hpre Hsz He Hlen
    | pre t payload rest m1 rc m3 Hrx Ht Hpre Hsz He Hlen size m2 Hw Hrc
    | pre t payload rest m1 m3 Hrx Ht Hpre Hsz He Hlen size m2 Hw ];
    cbn [rx]; try discriminate;
    try (rewrite Hrx, !length_app; cbn [List.length];
         rewrite ?length_app; lia).
  unfold departed. destruct (direct_boot cfg); discriminate.
Qed.

End SessionTrace.


(** ** The boot decision controller *)

Section Controller.

Context {board : Board} {engine : ChecksumEngine}.
Variable cfg : build.

(** validate_app returns 0 or -1, after a report that moves nothing. *)
Lemma validate_app_cases (w : world) :
  exists rc report,
    validate_app cfg w
    = Ret rc (mk_world (mem w) (rx w) (trace w ++ report ++ [EvValidate rc]))
    /\ (rc = 0 \/ rc = -1)
    /\ Forall (fun e => is_inert e = true) report
    /\ legacy_only cfg report.
Proof.
  rewrite validate_app_eq. cbv zeta.
  destruct (negb _).
  { do 2 eexists. split; [reflexivity|]. split; [auto|].
    split; [piecewise|]. apply legacy_only_tx. legacy_line. }
  destruct (_ || _).
  { do 2 eexists. split; [reflexivity|]. split; [auto|].
    split; [piecewise|]. apply legacy_only_tx. legacy_line. }
  destruct (negb _).
  - do 2 eexists. split; [reflexivity|]. split; [auto|].
    split; [piecewise|].
    unfold legacy_only. cbn [lines_of]. apply legacy_only_tx. legacy_line.
  - do 2 eexists. split; [reflexivity|]. split; [auto|].
    split; [piecewise|]. apply legacy_only_silent. reflexivity.
Qed.

Section Loops.

Variable P : list event -> Prop.
Hypothesis P_closed : closed P.
Hypothesis P_rx : forall c, P (rxs [c]).
Hypothesis P_echo : forall c, P (echo c).
Hypothesis P_line : forall s, In s (status_lines cfg) -> P (tx s).
Hypothesis P_update : appends P (uart_update cfg).
Hypothesis P_init : P [EvEarlyInit] /\ P [EvUartInit].
Hypothesis P_gate :
  forall k : M Z,
    appends P k ->
    appends P (valid <- validate_app cfg ;;
               if valid =? 0 then jump_to_app cfg else k).

Lemma appends_boot_menu_loop (fuel : nat) :
  appends P (boot_menu_loop cfg fuel).
Proof.
  induction fuel as [|fuel IH]; [apply appends_stop; assumption|].
  cbn [boot_menu_loop].
  apply appends_bind; [assumption|apply appends_uart_getc; assumption|].
  intros choice.
  apply appends_bind; [assumption|apply appends_uart_putc; apply P_echo|].
  intros _. apply appends_bind; [assumption| |].
  - destruct (rev_of cfg); [apply appends_ret; assumption|].
    destruct (_ && _); [|apply appends_ret; assumption].
    apply appends_uart_puts. apply P_line. left. reflexivity.
  - intros _. destruct (_ || _); [|apply appends_ret; assumption].
    apply appends_bind; auto.
Qed.

Lemma appends_boot_menu : appends P (boot_menu cfg).
Proof. intros w. apply appends_boot_menu_loop. Qed.

Lemma appends_recovery_loop_rounds (fuel : nat) :
  appends P (recovery_loop_rounds cfg fuel).
Proof.
  induction fuel as [|fuel IH]; [apply appends_stop; assumption|].
  cbn [recovery_loop_rounds].
  apply appends_bind; [assumption|apply appends_uart_getc; assumption|].
  intros c. apply appends_bind; [assumption| |auto].
  destruct (Ascii.eqb c "u"); [assumption|apply appends_ret; assumption].
Qed.

Lemma appends_recovery_loop : appends P (recovery_loop cfg).
Proof. intros w. apply appends_recovery_loop_rounds. Qed.

Lemma appends_print_banner : appends P (print_banner cfg).
Proof.
  unfold print_banner.
  apply appends_bind; [assumption| |intros _].
  { apply appends_uart_puts, P_line. destruct (rev_of cfg); legacy_line. }
  apply appends_bind; [assumption| |intros _].
  { apply appends_uart_puts, P_line. legacy_line. }
  apply appends_bind; [assumption| |intros _].
  { apply appends_uart_puts, P_line. legacy_line. }
  apply appends_uart_puts, P_line. legacy_line.
Qed.

Lemma appends_main : appends P (main cfg).
Proof.
  unfold main, uart_init, platform_early_init, platform_uart_init.
  apply appends_bind; [assumption| |intros _].
  { apply appends_bind; [assumption| |intros _];
      apply appends_signal; apply P_init. }
  apply appends_bind; [assumption|apply appends_print_banner|intros _].
  apply appends_bind; [assumption| |intros _].
  { apply appends_uart_puts. apply P_line. legacy_line. }
  apply appends_bind; [assumption|apply appends_boot_menu|intros _].
  apply P_gate.
  apply appends_bind; [assumption| |intros _; apply appends_recovery_loop].
  apply appends_uart_puts. apply P_line. legacy_line.
Qed.

End Loops.

(** The gate of main: a handoff right after a successful validation, or the
    continuation after a failed one. *)
Lemma gate_safe (k : M Z) :
  appends (safe (direct_boot cfg)) k ->
  appends (safe (direct_boot cfg))
    (valid <- validate_app cfg ;;
     if valid =? 0 then jump_to_app cfg else k).
Proof.
  intros Hk w. unfold bind.
  destruct (validate_app_cases w) as (rc & report & -> & Hrc & Hrep & _).
  destruct Hrc as [->| ->]; cbn [Z.eqb Z.opp].
  - rewrite jump_to_app_eq. unfold extend. cbn [world_of mem rx trace].
    exists (report ++ EvValidate 0 :: jump_banner cfg ++ [EvJump payload_base]).
    split; [rewrite <- !app_assoc; reflexivity|].
    apply safe_after_validation; piecewise.
  - match goal with
    | |- context [k ?w1] => destruct (Hk w1) as (new & Hnew & Hsafe)
    end.
    cbn [trace] in Hnew.
    exists ((report ++ [EvValidate (-1)]) ++ new).
    split; [rewrite Hnew, <- !app_assoc; reflexivity|].
    apply safe_closed; [|assumption].
    apply safe_no_jump. piecewise.
Qed.

Lemma gate_legacy_only (k : M Z) :
  appends (legacy_only cfg) k ->
  appends (legacy_only cfg)
    (valid <- validate_app cfg ;;
     if valid =? 0 then jump_to_app cfg else k).
Proof.
  intros Hk. apply appends_bind; [apply legacy_only_closed| |].
  - intros w.
    destruct (validate_app_cases w) as (rc & report & -> & _ & _ & Hlegacy).
    exists (report ++ [EvValidate rc]). split; [reflexivity|].
    apply legacy_only_closed; [assumption|].
    apply legacy_only_silent. reflexivity.
  - intros valid. destruct (valid =? 0); [|assumption].
    intros w. rewrite jump_to_app_eq.
    exists (jump_banner cfg ++ [EvJump payload_base]).
    split; [reflexivity|].
    apply legacy_only_closed; [|apply legacy_only_silent; reflexivity].
    unfold jump_banner. apply legacy_only_closed.
    + apply legacy_only_tx. legacy_line.
    + destruct (rev_of cfg); [apply legacy_only_silent; reflexivity|].
      apply legacy_only_tx. legacy_line.
Qed.

Lemma main_safe : appends (safe (direct_boot cfg)) (main cfg).
Proof.
  apply appends_main.
  - apply safe_closed.
  - intros c. apply safe_no_jump. piecewise.
  - intros c. apply safe_no_jump. piecewise.
  - intros s _. apply safe_no_jump. piecewise.
  - apply session_safe.
  - split; apply safe_no_jump; piecewise.
  - apply gate_safe.
Qed.

Lemma main_legacy_only : appends (legacy_only cfg) (main cfg).
Proof.
  apply appends_main.
  - apply legacy_only_closed.
  - intros c. apply legacy_only_silent. reflexivity.
  - intros c. apply legacy_only_silent. apply lines_of_echo.
  - apply legacy_only_tx.
  - apply session_legacy_only.
  - split; apply legacy_only_silent; reflexivity.
  - apply gate_legacy_only.
Qed.

End Controller.


(** ** The loop bounds of the model are never reached *)

Section Totality.

Context {board : Board} {engine : ChecksumEngine}.
Variable cfg : build.

Lemma boot_menu_loop_total (fuel : nat) (w : world) :
  (List.length (rx w) < fuel)%nat ->
  match boot_menu_loop cfg fuel w with
  | Ret _ w' => (List.length (rx w') <= List.length (rx w))%nat
  | Stop o _ => o <> OutOfFuel
  end.
Proof.
  revert w. induction fuel as [|fuel IH]; intros w Hfuel; [lia|].
  cbn [boot_menu_loop]. unfold bind at 1. rewrite uart_getc_eq.
  destruct (rx w) as [|choice pending] eqn:Hrx; [discriminate|].
  unfold bind at 1. rewrite uart_putc_eq. unfold bind at 1.
  set (w1 := extend (echo choice) _).
  assert (Hw1 : rx w1 = pending) by reflexivity.
  assert (Hnl : exists w2,
    match rev_of cfg with
    | main_c => ret tt
    | part_005 =>
        if negb (Ascii.eqb choice CR) && negb (Ascii.eqb choice LF)
        then uart_puts (String LF EmptyString)
        else ret tt
    end w1 = Ret tt w2 /\ rx w2 = pending).
  { destruct (rev_of cfg); [exists w1; auto|].
    destruct (_ && _); [|exists w1; auto].
    rewrite uart_puts_eq. eexists. split; [reflexivity|]. exact Hw1. }
  destruct Hnl as (w2 & -> & Hw2).
  destruct (_ || _); [|unfold ret; rewrite Hw2; simpl; lia].
  unfold bind. pose proof (session_total cfg w2) as Ht.
  destruct (uart_update cfg w2) as [[] w3|o w3]; [|assumption].
  rewrite Hw2 in Ht. simpl in Hfuel.
  specialize (IH w3 ltac:(lia)).
  destruct (boot_menu_loop cfg fuel w3); [simpl; lia|assumption].
Qed.

Lemma recovery_loop_rounds_total (fuel : nat) (w : world) :
  (List.length (rx w) < fuel)%nat ->
  exists o w',
    recovery_loop_rounds cfg fuel w = Stop o w' /\ o <> OutOfFuel.
Proof.
  revert w. induction fuel as [|fuel IH]; intros w Hfuel; [lia|].
  cbn [recovery_loop_rounds]. unfold bind at 1. rewrite uart_getc_eq.
  destruct (rx w) as [|c pending] eqn:Hrx.
  { do 2 eexists. split; [reflexivity|discriminate]. }
  unfold bind. set (w1 := mk_world _ pending _).
  simpl in Hfuel.
  destruct (Ascii.eqb c "u").
  - pose proof (session_total cfg w1) as Ht.
    destruct (uart_update cfg w1) as [[] w2|o w2].
    + apply IH. subst w1. cbn [rx] in Ht. lia.
    + do 2 eexists. split; [reflexivity|assumption].
  - unfold ret. apply IH. subst w1. cbn [rx]. lia.
Qed.

Lemma print_banner_eq (w : world) :
  exists banner, print_banner cfg w = Ret tt (extend banner w).
Proof.
  unfold print_banner, bind. rewrite !uart_puts_eq, !extend_extend.
  eexists. reflexivity.
Qed.

Lemma main_stops (w : world) :
  match main cfg w with
  | Ret _ _ => False
  | Stop o _ => o <> OutOfFuel
  end.
Proof.
  unfold main. unfold bind at 1.
  unfold uart_init, platform_early_init, platform_uart_init.
  unfold bind at 1. unfold signal. unfold bind at 1.
  destruct (print_banner_eq (extend [EvUartInit] (extend [EvEarlyInit] w)))
    as (banner & ->).
  unfold bind at 1. rewrite uart_puts_eq. unfold bind at 1.
  match goal with
  | |- context [boot_menu cfg ?w0] =>
      pose proof (boot_menu_loop_total (rounds w0) w0
                    ltac:(unfold rounds; lia)) as Hm;
      change (boot_menu_loop cfg (rounds w0) w0) with (boot_menu cfg w0) in Hm;
      destruct (boot_menu cfg w0) as [[] w1|o w1]
  end; [|assumption].
  clear Hm. unfold bind at 1.
  destruct (validate_app_cases cfg w1) as (rc & report & -> & Hrc & _ & _).
  destruct Hrc as [->| ->]; cbn [Z.eqb Z.opp].
  - rewrite jump_to_app_eq. discriminate.
  - unfold bind at 1. rewrite uart_puts_eq.
    match goal with
    | |- context [recovery_loop cfg ?w2] =>
        destruct (recovery_loop_rounds_total (rounds w2) w2
                    ltac:(unfold rounds; lia)) as (o & w3 & Hr & Ho);
        change (recovery_loop_rounds cfg (rounds w2) w2)
          with (recovery_loop cfg w2) in Hr
    end.
    rewrite Hr. assumption.
Qed.

(** main never returns and never runs out of rounds: it ends blocked on the
    serial line, in the application, or in a reset. *)
Lemma main_total (w : world) :
  exists o w',
    main cfg w = Stop o w'
    /\ (o = Blocked \/ o = Handoff \/ o = Rebooted).
Proof.
  pose proof (main_stops w) as H.
  destruct (main cfg w) as [a w'|o w']; [contradiction|].
  exists o, w'. split; [reflexivity|]. destruct o; auto. congruence.
Qed.

End Totality.


(** ** A well-formed transfer on a board that never fails *)

Section Commit.

Context {board : Board} {engine : ChecksumEngine}.
Variable cfg : build.
Hypothesis board_ok : never_fails board.

Lemma receive_run (got : list ascii) :
  forall (n : nat) (dest j : Z) (w : world) (rest : list ascii),
  rx w = got ++ rest ->
  List.length got = n ->
  receive n dest j w
  = Ret tt (mk_world (copy_bytes (dest + j) (map code got) (mem w)) rest
              (trace w ++ received (dest + j) got)).
Proof.
  induction got as [|c got IH]; intros n dest j w rest Hrx Hlen; subst n.
  - cbn. unfold ret. f_equal. apply world_eq; simpl; auto using app_nil_r.
  - cbn [List.length receive]. unfold bind. rewrite uart_getc_eq, Hrx.
    cbn [app]. unfold poke. cbn [mem rx trace].
    rewrite (IH _ dest (j + 1) _ rest) by reflexivity.
    cbn [mem rx trace map copy_bytes received]. rewrite u8_code.
    replace (dest + (j + 1)) with (dest + j + 1) by lia.
    rewrite <- !app_assoc. reflexivity.
Qed.

(** Whatever the payload bytes are, a session that gets as many as it was
    told commits, with the checksum of the bytes as they came. *)
Lemma uart_update_commits (w : world) (pre : list ascii) (t : ascii)
    (payload rest : list ascii) :
  rx w = cmd_SEND ++ pre ++ t :: payload ++ rest ->
  is_terminator t = true ->
  Forall (fun c => is_terminator c = false) pre ->
  size_ok (accumulate 0 pre) = true ->
  List.length payload = Z.to_nat (accumulate 0 pre) ->
  let size := accumulate 0 pre in
  let m1 := snd (board_flash_erase APP_BASE APP_MAX_SIZE (mem w)) in
  let m2 := copy_bytes payload_base (map code payload) m1 in
  let m3 := snd (board_flash_write APP_BASE
                   (header_bytes (header_for size m2)) m2) in
  uart_update cfg w
  = Stop (departed cfg)
      (mk_world m3 rest
         (trace w ++ asked cfg pre t ++ transfer cfg size payload m2 0
          ++ tx (line cfg "CRC?") ++ tx (line cfg "OK")
          ++ tx (line cfg "REBOOT") ++ departure cfg)).
Proof.
  intros Hrx Ht Hpre Hok Hlen size m1 m2 m3.
  unfold uart_update. unfold bind at 1. rewrite uart_puts_eq.
  unfold bind at 1.
  rewrite (await_command_run cfg (list_ascii_of_string "SEND ")
             (pre ++ t :: payload ++ rest)) by exact Hrx.
  cbn [negb]. unfold bind at 1.
  rewrite (await_size_run pre 0 _ t (payload ++ rest))
    by (try reflexivity; assumption).
  fold size. unfold size_ok in Hok. apply negb_true_iff in Hok.
  fold size in Hok. rewrite Hok.
  unfold bind at 1. rewrite uart_puts_eq.
  unfold bind at 1. unfold flash_erase_app, platform_flash_erase.
  unfold extend; cbn [mem rx trace].
  pose proof (proj1 board_ok APP_BASE APP_MAX_SIZE (mem w)) as He.
  fold m1. destruct (board_flash_erase APP_BASE APP_MAX_SIZE (mem w))
    as [rc m1'] eqn:Herase.
  cbn [fst snd] in He, m1. subst rc m1. cbn [Z.eqb negb].
  unfold bind at 1. rewrite uart_puts_eq.
  unfold bind at 1. unfold extend; cbn [mem rx trace].
  rewrite (receive_run payload _ _ 0 _ rest) by (try reflexivity; lia).
  cbn [mem rx trace].
  replace (APP_BASE + sizeof_fw_header_t + 0) with payload_base
    by (unfold payload_base; lia).
  fold m2.
  unfold bind at 1. unfold crc32 at 1. unfold bind at 1.
  unfold signal, read_mem. unfold extend; cbn [mem rx trace].
  unfold bind at 1. unfold flash_write_header, platform_flash_write.
  cbn [mem rx trace]. fold payload_base.
  change {| hdr_magic := BOOT_MAGIC;
            hdr_size := size;
            hdr_crc32 := u32 (checksum
                                (read_bytes m2 payload_base (Z.to_nat size)));
            hdr_version := 1 |}
    with (header_for size m2).
  pose proof (proj2 board_ok APP_BASE (header_bytes (header_for size m2)) m2)
    as Hw.
  fold m3. destruct (board_flash_write APP_BASE
                       (header_bytes (header_for size m2)) m2)
    as [rc m3'] eqn:Hwrite.
  cbn [fst snd] in Hw, m3. subst rc m3. cbn [Z.eqb negb].
  unfold bind at 1. rewrite uart_puts_eq.
  unfold bind at 1. rewrite uart_puts_eq.
  unfold bind at 1. rewrite uart_puts_eq.
  rewrite leave_eq. unfold extend; cbn [mem rx trace].
  unfold asked, transfer, cmd_SEND. rewrite <- !app_assoc. reflexivity.
Qed.

End Commit.

Lemma qemu_virt_never_fails : never_fails qemu_virt.
Proof. split; reflexivity. Qed.


(** ** The boot gate, the checksum report and the status lines *)

(** C1, as amended.  In every execution of main from power-on, every handoff
    to the application comes after validate_app returned 0 on the region as
    it stands or, in a build that boots directly after an update (the later
    main.c with PLATFORM_DIRECT_BOOT_AFTER_UPDATE set), after the header
    write of an update session returned success; no storage write lies in
    between.  In a build without the switch validate_app is the single
    gate: neither the recovery loop nor the update session reaches the
    handoff without a successful validation. *)
Theorem handoff_is_gated {board : Board} {engine : ChecksumEngine}
    (cfg : build) (m : memory) (input : list ascii) :
  let tr := trace (world_of (main cfg (power_on m input))) in
  gated (direct_boot cfg) Closed tr = true
  /\ (forall before a after,
        tr = before ++ EvJump a :: after ->
        (exists pre post,
            before = pre ++ EvValidate 0 :: post
            /\ storage_writes post = [])
        \/ (direct_boot cfg = true
            /\ exists pre data post,
                before = pre ++ EvFlashWrite APP_BASE data 0 :: post
                /\ storage_writes post = [])).
Proof.
  intros tr.
  assert (Hgated : gated (direct_boot cfg) Closed tr = true).
  { subst tr. destruct (main_safe cfg (power_on m input)) as (new & -> & Hsafe).
    apply Hsafe. }
  split; [exact Hgated|].
  intros before a after Heq.
  pose proof (gated_handoffs _ _ _ _ _ _ Hgated Heq) as Hpass.
  destruct (gate_run Closed before) eqn:Hgate; cbn [may_pass] in Hpass.
  - discriminate.
  - left. apply validated_since. assumption.
  - right. split; [assumption|]. apply committed_since. assumption.
Qed.

(** C1 as stated fails in the build that boots directly: after "u" and the
    session of scenario T1 the application is entered with no validation
    since power-on; and after Enter on an erased region, "u" and the same
    session, it is entered from the recovery loop, the last validation
    having failed. *)
Lemma handoff_without_validation :
  gated false Closed
    (trace (world_of (main (board := qemu_virt) (engine := zlib) build_direct
                        (power_on erased_memory
                           ("u"%char :: t1_session))))) = false
  /\ gated false Closed
       (trace (world_of (main (board := qemu_virt) (engine := zlib)
                           build_direct
                           (power_on erased_memory
                              (LF :: "u"%char :: t1_session))))) = false.
Proof. split; vm_compute; reflexivity. Qed.

Lemma scripts_report_no_failure (cfg : build) :
  Forall (fun script => existsb checksum_fail_literal script = false)
    (session_scripts cfg).
Proof. destruct cfg as [[|] [|]]; vm_compute; repeat constructor. Qed.

(** Scenario T1 on the QEMU board with src/main.c: the update commits and
    resets; the next boot, asked to boot, validates the image and hands
    off, through the gate. *)
Example t1_update_reset_boot :
  let first := main (board := qemu_virt) (engine := zlib) build_main_c
                 (power_on erased_memory ("u"%char :: t1_session)) in
  let second := main (board := qemu_virt) (engine := zlib) build_main_c
                  (power_on (mem (world_of first)) [LF]) in
  outcome_of first = Some Rebooted
  /\ outcome_of second = Some Handoff
  /\ gated false Closed (trace (world_of second)) = true
  /\ lines_of (trace (world_of second))
     = map (line build_main_c)
         [String LF (String CR "======================================");
          "   Professional RISC-V Bootloader    ";
          "   Target: QEMU Virt (RV32IM)        ";
          "======================================";
          "BOOT?"; "Jumping to application..."]%string.
Proof. vm_compute. repeat split. Qed.

(** C8, as amended.  No update session reports a checksum failure: the
    status lines of a session are one of seven scripts, none of which holds
    a checksum-fail literal, and "CRC?" is always answered by "OK".  The
    host sends no checksum; on a board whose flash does not fail, a session
    that gets as many payload bytes as it was told commits whatever those
    bytes are, writing the checksum it computed over them into the header. *)
Theorem session_never_reports_checksum_failure {board : Board}
    {engine : ChecksumEngine} (cfg : build) :
  (forall w, exists new,
      trace (world_of (uart_update cfg w)) = trace w ++ new
      /\ In (lines_of new) (session_scripts cfg)
      /\ reports_checksum_failure new = false)
  /\ (never_fails board ->
      forall w pre t payload rest,
        rx w = cmd_SEND ++ pre ++ t :: payload ++ rest ->
        is_terminator t = true ->
        Forall (fun c => is_terminator c = false) pre ->
        size_ok (accumulate 0 pre) = true ->
        List.length payload = Z.to_nat (accumulate 0 pre) ->
        exists w' before,
          uart_update cfg w = Stop (departed cfg) w'
          /\ trace w'
             = trace w ++ before
               ++ EvFlashWrite APP_BASE
                    (header_bytes
                       {| hdr_magic := BOOT_MAGIC;
                          hdr_size := accumulate 0 pre;
                          hdr_crc32 := u32 (checksum (map code payload));
                          hdr_version := 1 |}) 0
               :: tx (line cfg "CRC?") ++ tx (line cfg "OK")
               ++ tx (line cfg "REBOOT") ++ departure cfg).
Proof.
  split.
  - intros w. destruct (session_lines cfg w) as (new & Hnew & Hin).
    exists new. split; [assumption|]. split; [assumption|].
    pose proof (scripts_report_no_failure cfg) as Hall.
    rewrite Forall_forall in Hall. apply Hall. assumption.
  - intros Hboard w pre t payload rest Hrx Ht Hpre Hok Hlen.
    rewrite (uart_update_commits cfg Hboard w pre t payload rest)
      by assumption.
    cbv zeta. eexists.
    exists (before_header cfg pre t (accumulate 0 pre) payload).
    split; [reflexivity|]. cbn [trace]. rewrite transfer_split.
    unfold header_for. rewrite <- Hlen, read_bytes_copied. reflexivity.
Qed.

(** C8 as stated fails: there is no board, checksum engine, build, memory
    and host input under which an update session reports a checksum
    failure. *)
Lemma no_session_reports_checksum_failure :
  ~ exists (board : Board) (engine : ChecksumEngine) (cfg : build)
      (m : memory) (input : list ascii),
      reports_checksum_failure
        (trace (world_of (uart_update cfg (power_on m input)))) = true.
Proof.
  intros (board & engine & cfg & m & input & H).
  destruct (session_lines cfg (power_on m input)) as (new & Hnew & Hin).
  rewrite Hnew in H. cbn [power_on trace app] in H.
  pose proof (scripts_report_no_failure cfg) as Hall.
  rewrite Forall_forall in Hall. specialize (Hall _ Hin).
  unfold reports_checksum_failure in H. congruence.
Qed.

(** Scenario T3 on the QEMU board: the corrupted payload is committed,
    reported as "CRC?" "OK", and entered. *)
Example t3_corrupted_payload_is_committed :
  let r := uart_update (board := qemu_virt) (engine := zlib) build_direct
             (power_on erased_memory t3_session) in
  is_committed r = true
  /\ lines_of (trace (world_of r))
     = map (line build_direct)
         ["OK"; "ERASING..."; "READY"; "CRC?"; "OK"; "REBOOT";
          "Jumping to application..."; "APP_HANDOFF"]%string
  /\ read_bytes (mem (world_of r)) payload_base 4 = [0xDE; 0xAD; 0xBE; 0xEE].
Proof. vm_compute. repeat split. Qed.

(** C9, as amended.  In every execution of main from power-on, every status
    line handed to uart_puts is one of the legacy human-readable lines of
    the source, and none of them has the machine-parsable form
    PREFIX:TOKEN[:VALUE] with prefix BL_EVT or APP_EVT: each status line is
    emitted in its legacy form only. *)
Theorem status_lines_are_legacy_only {board : Board}
    {engine : ChecksumEngine} (cfg : build) (m : memory)
    (input : list ascii) :
  Forall (fun s => In s (status_lines cfg) /\ machine_parsable s = false)
    (lines_of (trace (world_of (main cfg (power_on m input))))).
Proof.
  destruct (main_legacy_only cfg (power_on m input)) as (new & -> & Hall).
  cbn [power_on trace app]. unfold legacy_only in Hall.
  pose proof (status_lines_not_machine_parsable cfg) as Hnot.
  rewrite Forall_forall in Hall, Hnot |- *.
  intros s Hs. split; auto.
Qed.

(** C9 as stated fails: with no input at all main prints the banner and
    "BOOT?", and no machine-parsable line next to any of them. *)
Lemma status_lines_not_dual :
  dual_form
    (lines_of (trace (world_of (main (board := qemu_virt) (engine := zlib)
                                  build_main_c (power_on erased_memory [])))))
  = false.
Proof. vm_compute. reflexivity. Qed.


(** * Further properties of the code *)

(** ** Line endings on the wire *)





(** ** The storage gateway within the address space *)

(** X2.  For a request that lies within the 32-bit address space,
    flash_write checks the application partition exactly: a request inside
    [APP_BASE, APP_BASE + APP_MAX_SIZE] is handed to platform_flash_write
    unchanged, and any other is answered -1 without a call of the board and
    without any other effect. *)
Theorem flash_write_guards_partition {board : Board} (addr : Z)
    (data : list Z) (w : world) :
  0 <= addr ->
  addr + Z.of_nat (List.length data) < 2 ^ 32 ->
  (APP_BASE <= addr
   /\ addr + Z.of_nat (List.length data) <= APP_BASE + APP_MAX_SIZE ->
   flash_write addr data w = platform_flash_write addr data w)
  /\ (addr < APP_BASE
      \/ addr + Z.of_nat (List.length data) > APP_BASE + APP_MAX_SIZE ->
      flash_write addr data w = Ret (-1) w).
Proof.
  intros Haddr Hend. split.
  - intros [Hlo Hhi]. apply flash_write_forwards; assumption.
  - intros Hout. apply flash_write_rejects; assumption.
Qed.

(** One byte just below the partition is refused; the first byte of the
    partition is written. *)
Lemma flash_write_guards_partition_witness :
  flash_write (board := qemu_virt) (APP_BASE - 1) [0x5A]
    (power_on erased_memory [])
  = Ret (-1) (power_on erased_memory [])
  /\ flash_write (board := qemu_virt) APP_BASE [0x5A]
       (power_on erased_memory [])
     = platform_flash_write (board := qemu_virt) APP_BASE [0x5A]
         (power_on erased_memory []).
Proof.
  split.
  - apply (flash_write_guards_partition (board := qemu_virt) (APP_BASE - 1)
             [0x5A] (power_on erased_memory [])).
    + vm_compute. discriminate.
    + vm_compute. reflexivity.
    + left. vm_compute. reflexivity.
  - apply (flash_write_guards_partition (board := qemu_virt) APP_BASE
             [0x5A] (power_on erased_memory [])).
    + vm_compute. discriminate.
    + vm_compute. reflexivity.
    + split; vm_compute; discriminate.
Defined.

(** ** The flash of the QEMU board *)


(** X3.  flash_erase_app on the QEMU board returns 0 and leaves every byte
    of the application partition 0xFF and every byte outside it, the
    bootloader's own region included, as it was. *)
Theorem qemu_erase_blanks_the_partition_only (w : world) :
  exists m',
    flash_erase_app (board := qemu_virt) w
    = Ret 0 (mk_world m' (rx w)
               (trace w ++ [EvFlashErase APP_BASE APP_MAX_SIZE 0]))
    /\ (forall a, APP_BASE <= a < APP_BASE + APP_MAX_SIZE ->
                  load8 m' a = 0xFF)
    /\ (forall a, a < APP_BASE \/ APP_BASE + APP_MAX_SIZE <= a ->
                  load8 m' a = load8 (mem w) a).
Proof.
  exists (fill_bytes (Z.to_nat APP_MAX_SIZE) APP_BASE 0xFF (mem w)).
  split; [reflexivity|].
  assert (Hsize : Z.of_nat (Z.to_nat APP_MAX_SIZE) = APP_MAX_SIZE).
  { apply Z2Nat.id. unfold APP_MAX_SIZE. lia. }
  split; intros a Ha; rewrite load8_fill_bytes, Hsize.
  - replace ((APP_BASE <=? a) && (a <? APP_BASE + APP_MAX_SIZE)) with true;
      [reflexivity|].
    symmetry. apply andb_true_iff. split; [apply Z.leb_le|apply Z.ltb_lt]; lia.
  - replace ((APP_BASE <=? a) && (a <? APP_BASE + APP_MAX_SIZE)) with false;
      [reflexivity|].
    symmetry. apply andb_false_iff.
    destruct Ha; [left; apply Z.leb_gt|right; apply Z.ltb_ge]; lia.
Qed.




(** ** The header on flash *)

Lemma header_bytes_length (h : fw_header_t) :
  Z.of_nat (List.length (header_bytes h)) = 16.
Proof. reflexivity. Qed.

(** X5.  On the QEMU board the header survives the way through flash:
    flash_write_header returns 0, the header validate_app reads back from
    APP_BASE is the header that was written, field by field, and no byte
    outside the sixteen header bytes has changed, so the payload is as it
    was. *)
Theorem qemu_header_round_trip (h : fw_header_t) (w : world) :
  0 <= hdr_magic h < 2 ^ 32 ->
  0 <= hdr_size h < 2 ^ 32 ->
  0 <= hdr_crc32 h < 2 ^ 32 ->
  0 <= hdr_version h < 2 ^ 32 ->
  exists m',
    flash_write_header (board := qemu_virt) h w
    = Ret 0 (mk_world m' (rx w)
               (trace w ++ [EvFlashWrite APP_BASE (header_bytes h) 0]))
    /\ header_at m' APP_BASE = h
    /\ (forall a, a < APP_BASE \/ payload_base <= a ->
                  load8 m' a = load8 (mem w) a).
Proof.
  intros Hm Hs Hc Hv. exists (copy_bytes APP_BASE (header_bytes h) (mem w)).
  split; [reflexivity|]. split; [apply header_at_copy; assumption|].
  intros a Ha. rewrite load8_copy_bytes, header_bytes_length.
  replace ((APP_BASE <=? a) && (a <? APP_BASE + 16)) with false;
    [reflexivity|].
  symmetry. apply andb_false_iff. unfold payload_base, sizeof_fw_header_t in Ha.
  destruct Ha; [left; apply Z.leb_gt|right; apply Z.ltb_ge]; lia.
Qed.

Lemma qemu_header_round_trip_witness :
  let h := {| hdr_magic := BOOT_MAGIC; hdr_size := 4;
              hdr_crc32 := 0x7C9CA35A; hdr_version := 1 |} in
  exists m',
    flash_write_header (board := qemu_virt) h (power_on erased_memory [])
    = Ret 0 (mk_world m' []
               ([] ++ [EvFlashWrite APP_BASE (header_bytes h) 0]))
    /\ header_at m' APP_BASE = h
    /\ (forall a, a < APP_BASE \/ payload_base <= a ->
                  load8 m' a = load8 erased_memory a).
Proof.
  intros h.
  apply (qemu_header_round_trip h (power_on erased_memory []));
    vm_compute; (split; [discriminate|reflexivity]).
Defined.

(** ** What validate_app looks at *)

Lemma load32_ext (m m' : memory) (a : Z) :
  (forall x, a <= x < a + 4 -> load8 m' x = load8 m x) ->
  load32 m' a = load32 m a.
Proof.
  intros H. unfold load32. rewrite !H by lia. reflexivity.
Qed.

(** X6.  validate_app looks at the first three words of the header and at
    the [size] payload bytes the header announces, and at nothing else: two
    memories that agree there get the same verdict and the same report.  In
    particular the version word, the bytes of the partition beyond the
    payload and everything outside the partition have no influence. *)
Theorem validate_app_ignores_the_rest {engine : ChecksumEngine} (cfg : build)
    (w w' : world) :
  let h := header_at (mem w) APP_BASE in
  (forall a, APP_BASE <= a < APP_BASE + 12 ->
             load8 (mem w') a = load8 (mem w) a) ->
  (forall a, payload_base <= a < payload_base + hdr_size h ->
             load8 (mem w') a = load8 (mem w) a) ->
  exists rc report,
    validate_app cfg w
    = Ret rc (mk_world (mem w) (rx w) (trace w ++ report ++ [EvValidate rc]))
    /\ validate_app cfg w'
       = Ret rc (mk_world (mem w') (rx w')
                   (trace w' ++ report ++ [EvValidate rc])).
Proof.
  intros h Hhdr Hpayload.
  assert (Hmagic : hdr_magic (header_at (mem w') APP_BASE) = hdr_magic h).
  { apply load32_ext. intros x Hx. apply Hhdr. lia. }
  assert (Hsize : hdr_size (header_at (mem w') APP_BASE) = hdr_size h).
  { apply load32_ext. intros x Hx. apply Hhdr. lia. }
  assert (Hcrc : hdr_crc32 (header_at (mem w') APP_BASE) = hdr_crc32 h).
  { apply load32_ext. intros x Hx. apply Hhdr. lia. }
  assert (Hbytes : read_bytes (mem w') payload_base (Z.to_nat (hdr_size h))
                   = read_bytes (mem w) payload_base (Z.to_nat (hdr_size h))).
  { apply read_bytes_ext. intros x Hx. apply Hpayload.
    pose proof (load32_range (mem w) (APP_BASE + 4)) as Hr.
    change (load32 (mem w) (APP_BASE + 4)) with (hdr_size h) in Hr. lia. }
  rewrite !validate_app_eq. cbv zeta. rewrite Hmagic, Hsize, Hcrc, Hbytes.
  fold h.
  destruct (negb (hdr_magic h =? BOOT_MAGIC)).
  { do 2 eexists. split; reflexivity. }
  destruct ((hdr_size h =? 0) || (hdr_size h >? APP_PAYLOAD_MAX)).
  { do 2 eexists. split; reflexivity. }
  destruct (negb _); do 2 eexists; split; reflexivity.
Qed.

(** An image and the same image with another version word. *)
Lemma validate_app_ignores_the_rest_witness :
  let payload := copy_bytes payload_base [0xDE; 0xAD; 0xBE; 0xEF]
                   erased_memory in
  let m := copy_bytes APP_BASE
             (header_bytes (header_for (engine := zlib) 4 payload)) payload in
  let m' := store8 m (APP_BASE + 12) 2 in
  exists rc report,
    validate_app (engine := zlib) build_main_c (power_on m [])
    = Ret rc (mk_world m [] ([] ++ report ++ [EvValidate rc]))
    /\ validate_app (engine := zlib) build_main_c (power_on m' [LF])
       = Ret rc (mk_world m' [LF] ([] ++ report ++ [EvValidate rc])).
Proof.
  intros payload m m'.
  apply (validate_app_ignores_the_rest (engine := zlib) build_main_c
           (power_on m []) (power_on m' [LF]));
    intros a Ha; cbn [power_on mem]; unfold m'; rewrite load8_store8;
    destruct (Z.eqb_spec a (APP_BASE + 12)) as [->|_]; try reflexivity;
    unfold payload_base, sizeof_fw_header_t in Ha; lia.
Defined.

(** ** validate_app and the predicate on memory *)

Section Verdict.

Context {engine : ChecksumEngine}.
Variable cfg : build.

Lemma validate_app_valid (w : world) :
  valid_image (mem w) = true ->
  validate_app cfg w
  = Ret 0 (mk_world (mem w) (rx w)
             (trace w
              ++ [EvCrc32 payload_base (hdr_size (header_at (mem w) APP_BASE));
                  EvValidate 0])).
Proof.
  unfold valid_image. cbv zeta. intros H.
  apply andb_true_iff in H. destruct H as [H Hcrc].
  apply andb_true_iff in H. destruct H as [Hmagic Hsize].
  apply negb_true_iff in Hsize.
  rewrite validate_app_eq. cbv zeta. rewrite Hmagic, Hsize, Hcrc.
  reflexivity.
Qed.

Lemma validate_app_invalid (w : world) :
  valid_image (mem w) = false ->
  exists report,
    validate_app cfg w
    = Ret (-1) (mk_world (mem w) (rx w)
                  (trace w ++ report ++ [EvValidate (-1)]))
    /\ Forall (fun e => is_inert e = true) report.
Proof.
  unfold valid_image. cbv zeta. intros H.
  rewrite validate_app_eq. cbv zeta.
  destruct (hdr_magic (header_at (mem w) APP_BASE) =? BOOT_MAGIC);
    cbn [negb andb] in *.
  2:{ eexists. split; [reflexivity|piecewise]. }
  destruct ((hdr_size (header_at (mem w) APP_BASE) =? 0)
            || (hdr_size (header_at (mem w) APP_BASE) >? APP_PAYLOAD_MAX));
    cbn [negb andb] in *.
  { eexists. split; [reflexivity|piecewise]. }
  rewrite H. cbn [negb]. eexists. split; [reflexivity|piecewise].
Qed.

End Verdict.


(** ** The update session, path by path *)

Section Paths.

Context {board : Board} {engine : ChecksumEngine}.
Variable cfg : build.

Lemma await_command_mismatch (got : list ascii) :
  forall (expected : ascii) (cmd' : list ascii) (c : ascii)
         (rest : list ascii) (w : world),
  rx w = got ++ c :: rest ->
  c <> expected ->
  await_command cfg (got ++ expected :: cmd') w
  = Ret false (mk_world (mem w) rest
                 (trace w ++ rxs (got ++ [c]) ++ tx (line cfg "ERR: CMD"))).
Proof.
  induction got as [|g got IH]; intros expected cmd' c rest w Hrx Hne.
  - cbn [app await_command]. unfold bind. rewrite uart_getc_eq, Hrx.
    cbn [app]. destruct (Ascii.eqb_spec c expected) as [Heq|_];
      [contradiction|].
    cbn [negb]. rewrite uart_puts_eq. unfold ret, extend. cbn [mem rx trace].
    rewrite <- app_assoc. reflexivity.
  - cbn [app await_command]. unfold bind. rewrite uart_getc_eq, Hrx.
    cbn [app]. rewrite Ascii.eqb_refl. cbn [negb].
    rewrite (IH expected cmd' c rest) by (try reflexivity; assumption).
    cbn [mem rx trace]. rewrite <- app_assoc. reflexivity.
Qed.

Lemma wrong_command_run (w : world) (got : list ascii) (expected : ascii)
    (cmd' : list ascii) (c : ascii) (rest : list ascii) :
  cmd_SEND = got ++ expected :: cmd' ->
  rx w = got ++ c :: rest ->
  c <> expected ->
  uart_update cfg w
  = Ret tt (mk_world (mem w) rest
              (trace w ++ tx (line cfg "OK") ++ rxs (got ++ [c])
               ++ tx (line cfg "ERR: CMD"))).
Proof.
  intros Hcmd Hrx Hne.
  unfold uart_update. unfold bind at 1. rewrite uart_puts_eq.
  unfold bind at 1. change (list_ascii_of_string "SEND ") with cmd_SEND.
  rewrite Hcmd.
  rewrite (await_command_mismatch got expected cmd' c rest) by assumption.
  cbn [negb]. unfold ret, extend. cbn [mem rx trace].
  rewrite <- !app_assoc. reflexivity.
Qed.

(** The session up to the size check. *)
Lemma uart_update_asks (w : world) (pre : list ascii) (t : ascii)
    (rest : list ascii) (k : Z -> M unit) :
  rx w = cmd_SEND ++ pre ++ t :: rest ->
  is_terminator t = true ->
  Forall (fun c => is_terminator c = false) pre ->
  (uart_puts (line cfg "OK") ;;
   matched <- await_command cfg (list_ascii_of_string "SEND ") ;;
   if negb matched then ret tt else bind (await_size 0) k) w
  = k (accumulate 0 pre) (mk_world (mem w) rest (trace w ++ asked cfg pre t)).
Proof.
  intros Hrx Ht Hpre.
  unfold bind at 1. rewrite uart_puts_eq. unfold bind at 1.
  rewrite (await_command_run cfg (list_ascii_of_string "SEND ")
             (pre ++ t :: rest)) by exact Hrx.
  cbn [negb]. unfold bind at 1.
  rewrite (await_size_run pre 0 _ t rest) by (try reflexivity; assumption).
  unfold extend, asked, cmd_SEND. cbn [mem rx trace].
  rewrite <- !app_assoc. reflexivity.
Qed.

(** The session up to the return of flash_erase_app. *)
Lemma uart_update_erases (w : world) (pre : list ascii) (t : ascii)
    (rest : list ascii) (rc : Z) (m1 : memory) :
  rx w = cmd_SEND ++ pre ++ t :: rest ->
  is_terminator t = true ->
  Forall (fun c => is_terminator c = false) pre ->
  size_ok (accumulate 0 pre) = true ->
  board_flash_erase APP_BASE APP_MAX_SIZE (mem w) = (rc, m1) ->
  exists k : Z -> M unit,
    uart_update cfg w
    = k rc (mk_world m1 rest
              (trace w ++ asked cfg pre t ++ tx (line cfg "ERASING...")
               ++ [EvFlashErase APP_BASE APP_MAX_SIZE rc]))
    /\ k = fun erased =>
         if negb (erased =? 0) then uart_puts (line cfg "ERR: ERASE")
         else
           uart_puts (line cfg "READY") ;;
           receive (Z.to_nat (accumulate 0 pre)) payload_base 0 ;;
           crc <- crc32 payload_base (accumulate 0 pre) ;;
           written <- flash_write_header
                        {| hdr_magic := BOOT_MAGIC;
                           hdr_size := accumulate 0 pre;
                           hdr_crc32 := crc;
                           hdr_version := 1 |} ;;
           if negb (written =? 0) then uart_puts (line cfg "ERR: HEADER")
           else
             uart_puts (line cfg "CRC?") ;;
             uart_puts (line cfg "OK") ;;
             uart_puts (line cfg "REBOOT") ;;
             match rev_of cfg with
             | main_c => platform_reset
             | part_005 =>
                 if PLATFORM_DIRECT_BOOT_AFTER_UPDATE cfg
                 then jump_to_app cfg
                 else platform_reset
             end.
Proof.
  intros Hrx Ht Hpre Hok He. eexists. split; [|reflexivity].
  unfold uart_update.
  rewrite (uart_update_asks w pre t rest) by assumption.
  unfold size_ok in Hok. apply negb_true_iff in Hok. rewrite Hok.
  unfold bind at 1. rewrite uart_puts_eq.
  unfold bind at 1. unfold flash_erase_app, platform_flash_erase.
  unfold extend; cbn [mem rx trace]. rewrite He.
  rewrite <- !app_assoc. reflexivity.
Qed.

End Paths.

(** X7.  AwaitCommand compares byte by byte and is case-sensitive: the
    first byte that differs from "SEND " ends the session.  uart_update
    prints "ERR: CMD" and returns to its caller; the bytes after the wrong
    one stay pending, memory is untouched, and neither an erase nor any
    other storage write has happened. *)
Theorem wrong_command_aborts_session {board : Board}
    {engine : ChecksumEngine} (cfg : build) (w : world)
    (got : list ascii) (expected : ascii) (cmd' : list ascii) (c : ascii)
    (rest : list ascii) :
  cmd_SEND = got ++ expected :: cmd' ->
  rx w = got ++ c :: rest ->
  c <> expected ->
  exists session_trace,
    uart_update cfg w
    = Ret tt (mk_world (mem w) rest (trace w ++ session_trace))
    /\ session_trace
       = tx (line cfg "OK") ++ rxs (got ++ [c]) ++ tx (line cfg "ERR: CMD")
    /\ erase_calls session_trace = 0%nat
    /\ storage_writes session_trace = [].
Proof.
  intros Hcmd Hrx Hne. eexists. split; [|split; [reflexivity|]].
  - rewrite (wrong_command_run cfg w got expected cmd' c rest)
      by assumption.
    reflexivity.
  - split.
    + rewrite !erase_calls_app, !erase_calls_tx, erase_calls_rxs.
      reflexivity.
    + rewrite !storage_writes_app, !storage_writes_tx, storage_writes_rxs.
      reflexivity.
Qed.

(** "SENT 4": the fourth byte is wrong, " 4" and the newline stay pending. *)
Lemma wrong_command_aborts_session_witness :
  exists session_trace,
    uart_update (board := qemu_virt) (engine := zlib) build_main_c
      (power_on erased_memory (list_ascii_of_string "SENT 4" ++ [LF]))
    = Ret tt (mk_world erased_memory (list_ascii_of_string " 4" ++ [LF])
                ([] ++ session_trace))
    /\ session_trace
       = tx (line build_main_c "OK")
         ++ rxs (list_ascii_of_string "SEN" ++ ["T"%char])
         ++ tx (line build_main_c "ERR: CMD")
    /\ erase_calls session_trace = 0%nat
    /\ storage_writes session_trace = [].
Proof.
  apply (wrong_command_aborts_session (board := qemu_virt) (engine := zlib)
           build_main_c
           (power_on erased_memory (list_ascii_of_string "SENT 4" ++ [LF]))
           (list_ascii_of_string "SEN") "D"%char [" "%char] "T"%char
           (list_ascii_of_string " 4" ++ [LF])).
  - reflexivity.
  - reflexivity.
  - discriminate.
Defined.

(** X8.  When flash_erase_app reports an error, uart_update prints
    "ERR: ERASE" and returns to its caller without reading a single payload
    byte: what the host sent after the size line stays pending, and the
    session makes no store and no flash write. *)
Theorem erase_failure_aborts_session {board : Board}
    {engine : ChecksumEngine} (cfg : build) (w : world) (pre : list ascii)
    (t : ascii) (rest : list ascii) :
  rx w = cmd_SEND ++ pre ++ t :: rest ->
  is_terminator t = true ->
  Forall (fun c => is_terminator c = false) pre ->
  size_ok (accumulate 0 pre) = true ->
  fst (board_flash_erase APP_BASE APP_MAX_SIZE (mem w)) <> 0 ->
  exists rc m1 session_trace,
    board_flash_erase APP_BASE APP_MAX_SIZE (mem w) = (rc, m1)
    /\ uart_update cfg w
       = Ret tt (mk_world m1 rest (trace w ++ session_trace))
    /\ session_trace
       = asked cfg pre t ++ tx (line cfg "ERASING...")
         ++ [EvFlashErase APP_BASE APP_MAX_SIZE rc]
         ++ tx (line cfg "ERR: ERASE")
    /\ storage_writes session_trace
       = [EvFlashErase APP_BASE APP_MAX_SIZE rc].
Proof.
  intros Hrx Ht Hpre Hok Hfail.
  destruct (board_flash_erase APP_BASE APP_MAX_SIZE (mem w)) as [rc m1] eqn:He.
  cbn [fst] in Hfail.
  exists rc, m1. eexists. split; [reflexivity|]. split; [|split; [reflexivity|]].
  - destruct (uart_update_erases cfg w pre t rest rc m1 Hrx Ht Hpre Hok He)
      as (k & -> & ->).
    destruct (Z.eqb_spec rc 0) as [Hz|_]; [contradiction|]. cbn [negb].
    rewrite uart_puts_eq. unfold extend. cbn [mem rx trace].
    rewrite <- !app_assoc. reflexivity.
  - rewrite !storage_writes_app, storage_writes_asked, !storage_writes_tx.
    reflexivity.
Qed.

Lemma erase_failure_aborts_session_witness :
  exists rc m1 session_trace,
    board_flash_erase (Board := faulty_board (-1) 0) APP_BASE APP_MAX_SIZE
      erased_memory = (rc, m1)
    /\ uart_update (board := faulty_board (-1) 0) (engine := zlib)
         build_reset (power_on erased_memory t1_session)
       = Ret tt (mk_world m1 (bytes_of [0xDE; 0xAD; 0xBE; 0xEF])
                   ([] ++ session_trace))
    /\ session_trace
       = asked build_reset ["4"%char] LF
         ++ tx (line build_reset "ERASING...")
         ++ [EvFlashErase APP_BASE APP_MAX_SIZE rc]
         ++ tx (line build_reset "ERR: ERASE")
    /\ storage_writes session_trace
       = [EvFlashErase APP_BASE APP_MAX_SIZE rc].
Proof.
  apply (erase_failure_aborts_session (board := faulty_board (-1) 0)
           (engine := zlib) build_reset (power_on erased_memory t1_session)
           ["4"%char] LF (bytes_of [0xDE; 0xAD; 0xBE; 0xEF])).
  - reflexivity.
  - reflexivity.
  - repeat constructor.
  - reflexivity.
  - discriminate.
Defined.

(** X9.  When flash_write_header reports an error, uart_update prints
    "ERR: HEADER" and returns to its caller: it neither resets nor enters
    the application, although the partition has been erased and the whole
    payload has been stored by then. *)
Theorem header_failure_aborts_session {board : Board}
    {engine : ChecksumEngine} (cfg : build) (w : world) (pre : list ascii)
    (t : ascii) (payload rest : list ascii) :
  rx w = cmd_SEND ++ pre ++ t :: payload ++ rest ->
  is_terminator t = true ->
  Forall (fun c => is_terminator c = false) pre ->
  size_ok (accumulate 0 pre) = true ->
  List.length payload = Z.to_nat (accumulate 0 pre) ->
  let size := accumulate 0 pre in
  let erased := board_flash_erase APP_BASE APP_MAX_SIZE (mem w) in
  let m2 := copy_bytes payload_base (map code payload) (snd erased) in
  let written :=
    board_flash_write APP_BASE (header_bytes (header_for size m2)) m2 in
  fst erased = 0 ->
  fst written <> 0 ->
  uart_update cfg w
  = Ret tt (mk_world (snd written) rest
              (trace w ++ asked cfg pre t
               ++ transfer cfg size payload m2 (fst written)
               ++ tx (line cfg "ERR: HEADER"))).
Proof.
  intros Hrx Ht Hpre Hok Hlen size erased m2 written Herased Hwritten.
  destruct erased as [rc m1] eqn:He. cbn [fst snd] in *. subst rc.
  destruct (uart_update_erases cfg w pre t (payload ++ rest) 0 m1
              Hrx Ht Hpre Hok He) as (k & -> & ->).
  cbn [Z.eqb negb]. unfold bind at 1. rewrite uart_puts_eq.
  unfold bind at 1. unfold extend; cbn [mem rx trace].
  rewrite (receive_run payload _ _ 0 _ rest) by (try reflexivity; lia).
  cbn [mem rx trace].
  replace (payload_base + 0) with payload_base by lia. fold m2.
  unfold bind at 1. unfold crc32 at 1. unfold bind at 1.
  unfold signal, read_mem. unfold extend; cbn [mem rx trace].
  unfold bind at 1. unfold flash_write_header, platform_flash_write.
  cbn [mem rx trace]. fold size.
  change {| hdr_magic := BOOT_MAGIC;
            hdr_size := size;
            hdr_crc32 := u32 (checksum
                                (read_bytes m2 payload_base (Z.to_nat size)));
            hdr_version := 1 |}
    with (header_for size m2).
  fold written. destruct written as [rc m3] eqn:Hw. cbn [fst snd] in *.
  destruct (Z.eqb_spec rc 0) as [Hz|_]; [contradiction|]. cbn [negb].
  rewrite uart_puts_eq. unfold extend, transfer. cbn [mem rx trace].
  rewrite <- !app_assoc. reflexivity.
Qed.

Lemma header_failure_aborts_session_witness :
  let board := faulty_board 0 (-1) in
  let payload := bytes_of [0xDE; 0xAD; 0xBE; 0xEF] in
  let size := accumulate 0 ["4"%char] in
  let erased :=
    board_flash_erase (Board := board) APP_BASE APP_MAX_SIZE erased_memory in
  let m2 := copy_bytes payload_base (map code payload) (snd erased) in
  let written :=
    board_flash_write (Board := board) APP_BASE
      (header_bytes (header_for (engine := zlib) size m2)) m2 in
  uart_update (board := board) (engine := zlib) build_direct
    (power_on erased_memory t1_session)
  = Ret tt (mk_world (snd written) []
              ([] ++ asked build_direct ["4"%char] LF
               ++ transfer (engine := zlib) build_direct size payload m2
                    (fst written)
               ++ tx (line build_direct "ERR: HEADER"))).
Proof.
  intros board payload.
  apply (header_failure_aborts_session (board := board) (engine := zlib)
           build_direct (power_on erased_memory t1_session) ["4"%char] LF
           payload []).
  - reflexivity.
  - reflexivity.
  - repeat constructor.
  - reflexivity.
  - reflexivity.
  - reflexivity.
  - discriminate.
Defined.

(** ** Sessions on a board whose flash is plain memory *)

Section RamFlash.

Context {board : Board} {engine : ChecksumEngine}.
Variable cfg : build.
Hypothesis erase_fills : forall addr size m,
  board_flash_erase addr size m
  = (0, fill_bytes (Z.to_nat size) addr 0xFF m).
Hypothesis write_copies : forall addr data m,
  board_flash_write addr data m = (0, copy_bytes addr data m).

Lemma erased_partition (m : memory) (a : Z) :
  load8 (fill_bytes (Z.to_nat APP_MAX_SIZE) APP_BASE 0xFF m) a
  = if (APP_BASE <=? a) && (a <? APP_BASE + APP_MAX_SIZE) then 0xFF
    else load8 m a.
Proof.
  rewrite load8_fill_bytes.
  replace (Z.of_nat (Z.to_nat APP_MAX_SIZE)) with APP_MAX_SIZE
    by (unfold APP_MAX_SIZE; lia).
  reflexivity.
Qed.

Lemma length_code (l : list ascii) :
  Z.of_nat (List.length (map code l)) = Z.of_nat (List.length l).
Proof. rewrite length_map. reflexivity. Qed.

(** A transfer the host breaks off. *)
Lemma stalled_transfer (w : world) (pre : list ascii) (t : ascii)
    (rest : list ascii) :
  rx w = cmd_SEND ++ pre ++ t :: rest ->
  is_terminator t = true ->
  Forall (fun c => is_terminator c = false) pre ->
  size_ok (accumulate 0 pre) = true ->
  (List.length rest < Z.to_nat (accumulate 0 pre))%nat ->
  uart_update cfg w
  = Stop Blocked
      (mk_world
         (copy_bytes payload_base (map code rest)
            (fill_bytes (Z.to_nat APP_MAX_SIZE) APP_BASE 0xFF (mem w)))
         []
         (trace w ++ asked cfg pre t ++ tx (line cfg "ERASING...")
          ++ [EvFlashErase APP_BASE APP_MAX_SIZE 0]
          ++ tx (line cfg "READY") ++ received payload_base rest)).
Proof.
  intros Hrx Ht Hpre Hok Hlen.
  destruct (uart_update_erases cfg w pre t rest 0 _ Hrx Ht Hpre Hok
              (erase_fills _ _ _)) as (k & -> & ->).
  cbn [Z.eqb negb]. unfold bind at 1. rewrite uart_puts_eq.
  unfold bind at 1. unfold extend; cbn [mem rx trace].
  match goal with
  | |- context [receive ?n ?d 0 ?w0] =>
      destruct (receive_spec n d 0 w0)
        as [(got & rest' & Hrest & Hgot & _) | (_ & ->)]
  end; cbn [mem rx trace] in *.
  - subst rest. rewrite length_app in Hlen. lia.
  - replace (payload_base + 0) with payload_base by lia.
    rewrite <- !app_assoc. reflexivity.
Qed.

(** The region a committed session leaves. *)
Lemma committed_transfer (w : world) (pre : list ascii) (t : ascii)
    (payload rest : list ascii) :
  rx w = cmd_SEND ++ pre ++ t :: payload ++ rest ->
  is_terminator t = true ->
  Forall (fun c => is_terminator c = false) pre ->
  size_ok (accumulate 0 pre) = true ->
  List.length payload = Z.to_nat (accumulate 0 pre) ->
  let size := accumulate 0 pre in
  let m2 := copy_bytes payload_base (map code payload)
              (fill_bytes (Z.to_nat APP_MAX_SIZE) APP_BASE 0xFF (mem w)) in
  uart_update cfg w
  = Stop (departed cfg)
      (mk_world (copy_bytes APP_BASE (header_bytes (header_for size m2)) m2)
         rest
         (trace w ++ asked cfg pre t ++ transfer cfg size payload m2 0
          ++ tx (line cfg "CRC?") ++ tx (line cfg "OK")
          ++ tx (line cfg "REBOOT") ++ departure cfg)).
Proof.
  intros Hrx Ht Hpre Hok Hlen size m2.
  assert (Hboard : never_fails board).
  { split; intros; [rewrite erase_fills|rewrite write_copies]; reflexivity. }
  rewrite (uart_update_commits cfg Hboard w pre t payload rest)
    by assumption.
  cbv zeta. rewrite erase_fills. cbn [snd]. fold size m2.
  rewrite write_copies. reflexivity.
Qed.

Lemma accepted_size_fits (pre : list ascii) :
  size_ok (accumulate 0 pre) = true ->
  0 < accumulate 0 pre <= APP_MAX_SIZE - sizeof_fw_header_t.
Proof.
  intros Hok. apply size_ok_range; [assumption|].
  apply (accumulate_range pre).
Qed.

Lemma committed_memory (m : memory) (size : Z) (payload : list ascii) :
  0 < size <= APP_MAX_SIZE - sizeof_fw_header_t ->
  Z.of_nat (List.length payload) = size ->
  let m2 := copy_bytes payload_base (map code payload)
              (fill_bytes (Z.to_nat APP_MAX_SIZE) APP_BASE 0xFF m) in
  let m3 := copy_bytes APP_BASE (header_bytes (header_for size m2)) m2 in
  header_at m3 APP_BASE
  = {| hdr_magic := BOOT_MAGIC; hdr_size := size;
       hdr_crc32 := u32 (checksum (map code payload)); hdr_version := 1 |}
  /\ read_bytes m3 payload_base (List.length payload) = map code payload
  /\ (forall a, a < APP_BASE \/ APP_BASE + APP_MAX_SIZE <= a ->
                load8 m3 a = load8 m a)
  /\ (forall a, payload_base + size <= a < APP_BASE + APP_MAX_SIZE ->
                load8 m3 a = 0xFF).
Proof.
  intros Hsize Hlen m2 m3.
  assert (Hhdr : header_for size m2
                 = {| hdr_magic := BOOT_MAGIC; hdr_size := size;
                      hdr_crc32 := u32 (checksum (map code payload));
                      hdr_version := 1 |}).
  { unfold header_for. rewrite <- Hlen, Nat2Z.id. unfold m2.
    rewrite read_bytes_copied. reflexivity. }
  unfold APP_MAX_SIZE, sizeof_fw_header_t in Hsize.
  split; [|split; [|split]].
  - unfold m3. rewrite header_at_copy; [exact Hhdr| | | |];
      cbn [header_for hdr_magic hdr_size hdr_crc32 hdr_version];
      try apply u32_range; unfold BOOT_MAGIC; lia.
  - unfold m3. rewrite read_bytes_above_copy.
    + unfold m2. apply read_bytes_copied.
    + rewrite header_bytes_length. unfold payload_base, sizeof_fw_header_t.
      lia.
  - intros a Ha. unfold m3, m2.
    rewrite load8_copy_bytes, header_bytes_length.
    rewrite load8_copy_bytes, length_code, erased_partition.
    unfold payload_base, sizeof_fw_header_t, APP_BASE, APP_MAX_SIZE in *.
    case_cmp; cbn [andb]; try reflexivity; lia.
  - intros a Ha. unfold m3, m2.
    rewrite load8_copy_bytes, header_bytes_length.
    rewrite load8_copy_bytes, length_code, erased_partition.
    unfold payload_base, sizeof_fw_header_t, APP_BASE, APP_MAX_SIZE in *.
    case_cmp; cbn [andb]; try reflexivity; lia.
Qed.

Lemma stalled_header_byte (m : memory) (rest : list ascii) (a : Z) :
  APP_BASE <= a < payload_base ->
  load8 (copy_bytes payload_base (map code rest)
           (fill_bytes (Z.to_nat APP_MAX_SIZE) APP_BASE 0xFF m)) a
  = 0xFF.
Proof.
  intros Ha. rewrite load8_copy_bytes, erased_partition.
  unfold payload_base, sizeof_fw_header_t, APP_BASE, APP_MAX_SIZE in *.
  case_cmp; cbn [andb]; try reflexivity; lia.
Qed.

Lemma stalled_memory (m : memory) (rest : list ascii) :
  hdr_magic (header_at
               (copy_bytes payload_base (map code rest)
                  (fill_bytes (Z.to_nat APP_MAX_SIZE) APP_BASE 0xFF m))
               APP_BASE)
  = 0xFFFFFFFF.
Proof.
  cbn [header_at hdr_magic]. unfold load32.
  rewrite !stalled_header_byte
    by (unfold payload_base, sizeof_fw_header_t; lia).
  reflexivity.
Qed.

End RamFlash.

(** X10.  A transfer the host breaks off leaves nothing bootable.  On the
    QEMU board, when fewer payload bytes arrive than the size line
    announced, uart_update blocks in the receive loop with all input
    consumed; the bytes that did arrive lie at the payload base, the header
    words are still erased, and validate_app, whenever it is run on that
    memory, fails at the magic check. *)
Theorem interrupted_transfer_is_not_bootable {engine : ChecksumEngine}
    (cfg : build) (w : world) (pre : list ascii) (t : ascii)
    (rest : list ascii) :
  rx w = cmd_SEND ++ pre ++ t :: rest ->
  is_terminator t = true ->
  Forall (fun c => is_terminator c = false) pre ->
  size_ok (accumulate 0 pre) = true ->
  (List.length rest < Z.to_nat (accumulate 0 pre))%nat ->
  exists w',
    uart_update (board := qemu_virt) cfg w = Stop Blocked w'
    /\ rx w' = []
    /\ read_bytes (mem w') payload_base (List.length rest) = map code rest
    /\ hdr_magic (header_at (mem w') APP_BASE) = 0xFFFFFFFF
    /\ valid_image (mem w') = false
    /\ forall w2,
         mem w2 = mem w' ->
         validate_app cfg w2
         = Ret (-1) (mk_world (mem w2) (rx w2)
                       (trace w2
                        ++ tx (line cfg "Error: Invalid magic number")
                        ++ [EvValidate (-1)])).
Proof.
  intros Hrx Ht Hpre Hok Hlen.
  rewrite (stalled_transfer (board := qemu_virt) cfg
             ltac:(intros; reflexivity) w pre t rest) by assumption.
  eexists. split; [reflexivity|]. cbn [mem rx trace].
  split; [reflexivity|]. split; [apply read_bytes_copied|].
  pose proof (stalled_memory (mem w) rest) as Hmagic.
  split; [exact Hmagic|]. split.
  - unfold valid_image. cbv zeta. rewrite Hmagic. reflexivity.
  - intros w2 Hmem. rewrite validate_app_eq. cbv zeta.
    rewrite Hmem, Hmagic. reflexivity.
Qed.

(** Four bytes announced, two sent. *)
Lemma interrupted_transfer_is_not_bootable_witness :
  exists w',
    uart_update (board := qemu_virt) (engine := zlib) build_main_c
      (power_on erased_memory
         (cmd_SEND ++ ["4"%char] ++ LF :: bytes_of [0xDE; 0xAD]))
    = Stop Blocked w'
    /\ rx w' = []
    /\ read_bytes (mem w') payload_base
         (List.length (bytes_of [0xDE; 0xAD]))
       = map code (bytes_of [0xDE; 0xAD])
    /\ hdr_magic (header_at (mem w') APP_BASE) = 0xFFFFFFFF
    /\ valid_image (engine := zlib) (mem w') = false
    /\ forall w2,
         mem w2 = mem w' ->
         validate_app (engine := zlib) build_main_c w2
         = Ret (-1) (mk_world (mem w2) (rx w2)
                       (trace w2
                        ++ tx (line build_main_c
                                 "Error: Invalid magic number")
                        ++ [EvValidate (-1)])).
Proof.
  apply (interrupted_transfer_is_not_bootable (engine := zlib) build_main_c
           (power_on erased_memory
              (cmd_SEND ++ ["4"%char] ++ LF :: bytes_of [0xDE; 0xAD]))
           ["4"%char] LF (bytes_of [0xDE; 0xAD])).
  - reflexivity.
  - reflexivity.
  - repeat constructor.
  - reflexivity.
  - vm_compute. lia.
Defined.

(** X11.  What a committed session leaves on the QEMU board.  The header
    read back holds the magic, the length of the payload, the checksum of
    the payload bytes as they were sent and version 1; the payload lies at
    the payload base byte for byte; the rest of the partition is erased;
    and no byte outside the partition, the bootloader's own region
    included, has changed.  The bytes the host sent after the payload stay
    pending. *)
Theorem committed_session_stores_the_payload {engine : ChecksumEngine}
    (cfg : build) (w : world) (pre : list ascii) (t : ascii)
    (payload rest : list ascii) :
  rx w = cmd_SEND ++ pre ++ t :: payload ++ rest ->
  is_terminator t = true ->
  Forall (fun c => is_terminator c = false) pre ->
  size_ok (accumulate 0 pre) = true ->
  List.length payload = Z.to_nat (accumulate 0 pre) ->
  exists w',
    uart_update (board := qemu_virt) cfg w = Stop (departed cfg) w'
    /\ rx w' = rest
    /\ header_at (mem w') APP_BASE
       = {| hdr_magic := BOOT_MAGIC;
            hdr_size := Z.of_nat (List.length payload);
            hdr_crc32 := u32 (checksum (map code payload));
            hdr_version := 1 |}
    /\ read_bytes (mem w') payload_base (List.length payload)
       = map code payload
    /\ (forall a, payload_base + Z.of_nat (List.length payload) <= a
                  < APP_BASE + APP_MAX_SIZE ->
                  load8 (mem w') a = 0xFF)
    /\ (forall a, a < APP_BASE \/ APP_BASE + APP_MAX_SIZE <= a ->
                  load8 (mem w') a = load8 (mem w) a).
Proof.
  intros Hrx Ht Hpre Hok Hlen.
  rewrite (committed_transfer (board := qemu_virt) cfg
             ltac:(intros; reflexivity) ltac:(intros; reflexivity)
             w pre t payload rest) by assumption.
  cbv zeta. eexists. split; [reflexivity|]. cbn [mem rx trace].
  split; [reflexivity|].
  pose proof (accepted_size_fits pre Hok) as Hfit.
  assert (Hsize : Z.of_nat (List.length payload) = accumulate 0 pre)
    by (rewrite Hlen; apply Z2Nat.id; lia).
  destruct (committed_memory (mem w) (accumulate 0 pre) payload Hfit Hsize)
    as (Hhdr & Hpayload & Hout & Hblank).
  rewrite Hsize. repeat split; assumption.
Qed.

Lemma committed_session_stores_the_payload_witness :
  let payload := bytes_of [0xDE; 0xAD; 0xBE; 0xEF] in
  exists w',
    uart_update (board := qemu_virt) (engine := zlib) build_reset
      (power_on erased_memory (cmd_SEND ++ ["4"%char] ++ LF :: payload ++ []))
    = Stop (departed build_reset) w'
    /\ rx w' = []
    /\ header_at (mem w') APP_BASE
       = {| hdr_magic := BOOT_MAGIC;
            hdr_size := Z.of_nat (List.length payload);
            hdr_crc32 := u32 (checksum (ChecksumEngine := zlib)
                                (map code payload));
            hdr_version := 1 |}
    /\ read_bytes (mem w') payload_base (List.length payload)
       = map code payload
    /\ (forall a, payload_base + Z.of_nat (List.length payload) <= a
                  < APP_BASE + APP_MAX_SIZE ->
                  load8 (mem w') a = 0xFF)
    /\ (forall a, a < APP_BASE \/ APP_BASE + APP_MAX_SIZE <= a ->
                  load8 (mem w') a = load8 erased_memory a).
Proof.
  intros payload.
  apply (committed_session_stores_the_payload (engine := zlib) build_reset
           (power_on erased_memory
              (cmd_SEND ++ ["4"%char] ++ LF :: payload ++ []))
           ["4"%char] LF payload []).
  - reflexivity.
  - reflexivity.
  - repeat constructor.
  - reflexivity.
  - reflexivity.
Defined.


(** ** Erasing *)

Lemma erase_calls_received (dest : Z) (got : list ascii) :
  erase_calls (received dest got) = 0%nat.
Proof.
  revert dest. induction got as [|c got IH]; intros dest; [reflexivity|].
  cbn [received]. apply (IH (dest + 1)).
Qed.

Lemma erase_calls_departure (cfg : build) : erase_calls (departure cfg) = 0%nat.
Proof.
  unfold departure, jump_banner.
  destruct (direct_boot cfg); [|reflexivity].
  destruct (rev_of cfg);
    rewrite ?erase_calls_app, ?erase_calls_tx; reflexivity.
Qed.

Lemma erase_calls_transfer {engine : ChecksumEngine} (cfg : build)
    (size : Z) (payload : list ascii) (m : memory) (rc : Z) :
  erase_calls (transfer cfg size payload m rc) = 1%nat.
Proof.
  unfold transfer.
  rewrite !erase_calls_app, !erase_calls_tx, erase_calls_received.
  reflexivity.
Qed.

(** X12.  A session erases at most once, and until it has erased it has
    changed nothing: if the trace of uart_update holds no call of the
    erase, memory is as it was and the trace holds no storage write at
    all. *)
Theorem session_erases_at_most_once {board : Board}
    {engine : ChecksumEngine} (cfg : build) (w : world) :
  exists new,
    trace (world_of (uart_update cfg w)) = trace w ++ new
    /\ (erase_calls new <= 1)%nat
    /\ (erase_calls new = 0%nat ->
        mem (world_of (uart_update cfg w)) = mem w
        /\ storage_writes new = []).
Proof.
  destruct (uart_update_session cfg w) as
    [ e cmd' Hcmd
    | got e cmd' c rest Hcmd Hrx Hne
    | pre Hrx Hpre
    | pre t rest Hrx Ht Hpre Hsz
    | pre t rest rc m1 Hrx Ht Hpre Hsz He Hrc
    | pre t rest m1 Hrx Ht Hpre Hsz He Hlen
    | pre t payload rest m1 rc m3 Hrx Ht Hpre Hsz He Hlen size m2 Hw Hrc
    | pre t payload rest m1 m3 Hrx Ht Hpre Hsz He Hlen size m2 Hw ];
    cbn [world_of mem trace]; eexists; (split; [reflexivity|]);
    rewrite ?erase_calls_app, ?erase_calls_asked, ?erase_calls_transfer,
      ?erase_calls_tx, ?erase_calls_rxs, ?erase_calls_received,
      ?erase_calls_departure;
    cbn [erase_calls filter is_erase List.length Nat.add];
    (split; [lia|]); intros Hnone; try discriminate Hnone;
    (split; [reflexivity|]);
    rewrite ?storage_writes_app, ?storage_writes_asked, ?storage_writes_tx,
      ?storage_writes_rxs; reflexivity.
Qed.

(** X13.  Whether a size line is accepted depends on its value modulo 2^32
    alone, and an accepted request erases the whole partition whatever the
    size: when the digits of the line, reduced modulo 2^32, give a size
    that fits, uart_update prints "ERASING..." and calls the board's erase
    for all APP_MAX_SIZE bytes from APP_BASE, before anything else. *)
Theorem accepted_size_erases_whole_partition {board : Board}
    {engine : ChecksumEngine} (cfg : build) (w : world) (pre : list ascii)
    (t : ascii) (rest : list ascii) :
  rx w = cmd_SEND ++ pre ++ t :: rest ->
  is_terminator t = true ->
  Forall (fun c => is_terminator c = false) pre ->
  let size := decimal_value (filter is_digit pre) mod 2 ^ 32 in
  0 < size <= APP_MAX_SIZE - sizeof_fw_header_t ->
  exists more,
    trace (world_of (uart_update cfg w))
    = trace w ++ asked cfg pre t ++ tx (line cfg "ERASING...")
      ++ EvFlashErase APP_BASE APP_MAX_SIZE
           (fst (board_flash_erase APP_BASE APP_MAX_SIZE (mem w)))
         :: more.
Proof.
  intros Hrx Ht Hpre size Hfit.
  assert (Hok : size_ok (accumulate 0 pre) = true).
  { rewrite parsed_size_decimal. change (u32 ?z) with size.
    unfold size_ok. change APP_PAYLOAD_MAX with 458736.
    change (APP_MAX_SIZE - sizeof_fw_header_t) with 458736 in Hfit.
    rewrite Z.gtb_ltb.
    destruct (Z.eqb_spec size 0); [lia|].
    destruct (Z.ltb_spec 458736 size); [lia|]. reflexivity. }
  destruct (board_flash_erase APP_BASE APP_MAX_SIZE (mem w)) as [rc m1] eqn:He.
  cbn [fst].
  destruct (uart_update_erases cfg w pre t rest rc m1 Hrx Ht Hpre Hok He)
    as (k & -> & ->).
  destruct (Z.eqb_spec rc 0) as [->|_]; cbn [negb].
  2:{ rewrite uart_puts_eq. unfold extend. cbn [world_of mem rx trace].
      eexists. rewrite <- !app_assoc. reflexivity. }
  unfold bind at 1. rewrite uart_puts_eq.
  unfold bind at 1. unfold extend; cbn [mem rx trace].
  match goal with
  | |- context [receive ?n ?d 0 ?w0] =>
      destruct (receive_spec n d 0 w0)
        as [(payload & rest' & Hrest & Hlen & ->) | (Hlen & ->)]
  end; cbn [world_of mem rx trace] in *.
  2:{ eexists. rewrite <- !app_assoc. reflexivity. }
  unfold bind at 1. unfold crc32 at 1. unfold bind at 1.
  unfold signal, read_mem. unfold extend; cbn [mem rx trace].
  unfold bind at 1. unfold flash_write_header, platform_flash_write.
  cbn [mem rx trace].
  match goal with
  | |- context [board_flash_write ?a ?d ?m] =>
      destruct (board_flash_write a d m) as [written m3]
  end.
  destruct (Z.eqb_spec written 0) as [->|_]; cbn [negb].
  2:{ rewrite uart_puts_eq. unfold extend. cbn [world_of mem rx trace].
      eexists. rewrite <- !app_assoc. reflexivity. }
  unfold bind at 1. rewrite uart_puts_eq.
  unfold bind at 1. rewrite uart_puts_eq.
  unfold bind at 1. rewrite uart_puts_eq.
  rewrite leave_eq. unfold extend; cbn [world_of mem rx trace].
  eexists. rewrite <- !app_assoc. reflexivity.
Qed.

(** "SEND 4294967300": 2^32 + 4 is taken for 4. *)
Lemma accepted_size_erases_whole_partition_witness :
  let w := power_on erased_memory
             (cmd_SEND ++ list_ascii_of_string "4294967300" ++ LF :: []) in
  exists more,
    trace (world_of (uart_update (board := qemu_virt)
                       (engine := zlib) build_main_c w))
    = trace w ++ asked build_main_c (list_ascii_of_string "4294967300") LF
      ++ tx (line build_main_c "ERASING...")
      ++ EvFlashErase APP_BASE APP_MAX_SIZE
           (fst (board_flash_erase (Board := qemu_virt)
                   APP_BASE APP_MAX_SIZE (mem w)))
         :: more.
Proof.
  intros w.
  apply (accepted_size_erases_whole_partition
           (board := qemu_virt) (engine := zlib) build_main_c w
           (list_ascii_of_string "4294967300") LF []).
  - reflexivity.
  - reflexivity.
  - repeat constructor.
  - vm_compute. split; [reflexivity|discriminate].
Defined.


(** ** main, step by step *)

Section MainSteps.

Context {board : Board} {engine : ChecksumEngine}.
Variable cfg : build.

(** main up to the prompt. *)
Lemma main_greets (w : world) :
  main cfg w
  = (boot_menu cfg ;;
     valid <- validate_app cfg ;;
     if valid =? 0 then jump_to_app cfg
     else
       uart_puts
         (line cfg
            "Recovery Loop: No valid app found. Press 'u' to update.") ;;
       recovery_loop cfg)
      (extend (greeting cfg) w).
Proof.
  unfold main, uart_init, platform_early_init, platform_uart_init,
    print_banner.
  unfold bind at 1. unfold bind at 1. unfold signal at 1 2.
  unfold bind at 1. unfold bind at 1. rewrite uart_puts_eq.
  unfold bind at 1. rewrite uart_puts_eq.
  unfold bind at 1. rewrite uart_puts_eq.
  rewrite uart_puts_eq.
  unfold bind at 1. rewrite uart_puts_eq.
  rewrite !extend_extend. unfold greeting.
  destruct (rev_of cfg); cbn [app]; rewrite <- ?app_assoc; reflexivity.
Qed.

(** A round of the boot menu. *)
Lemma boot_menu_loop_key (fuel : nat) (w : world) (key : ascii)
    (rest : list ascii) :
  rx w = key :: rest ->
  boot_menu_loop cfg (S fuel) w
  = (if is_update_key key
     then uart_update cfg ;; boot_menu_loop cfg fuel
     else ret tt)
      (mk_world (mem w) rest (trace w ++ EvRx key :: menu_echo cfg key)).
Proof.
  intros Hrx. cbn [boot_menu_loop]. unfold bind at 1.
  rewrite uart_getc_eq, Hrx. unfold bind at 1. rewrite uart_putc_eq.
  unfold bind at 1. unfold extend, menu_echo. cbn [mem rx trace].
  fold (is_update_key key).
  destruct (rev_of cfg).
  - unfold ret. rewrite app_nil_r, <- app_assoc. reflexivity.
  - destruct (negb (Ascii.eqb key CR) && negb (Ascii.eqb key LF)).
    + rewrite uart_puts_eq. unfold extend. cbn [mem rx trace].
      rewrite <- !app_assoc. reflexivity.
    + unfold ret. rewrite app_nil_r, <- app_assoc. reflexivity.
Qed.

(** The first round of the boot menu. *)
Lemma boot_menu_key (w : world) (key : ascii) (rest : list ascii) :
  rx w = key :: rest ->
  boot_menu cfg w
  = (if is_update_key key
     then uart_update cfg ;; boot_menu_loop cfg (S (List.length rest))
     else ret tt)
      (mk_world (mem w) rest (trace w ++ EvRx key :: menu_echo cfg key)).
Proof.
  intros Hrx. unfold boot_menu, rounds. rewrite Hrx. cbn [List.length].
  apply boot_menu_loop_key. exact Hrx.
Qed.

(** The recovery loop on input without a 'u'. *)
Lemma recovery_skips (fuel : nat) :
  forall w : world,
  Forall (fun c => c <> "u"%char) (rx w) ->
  (List.length (rx w) < fuel)%nat ->
  recovery_loop_rounds cfg fuel w
  = Stop Blocked (mk_world (mem w) [] (trace w ++ rxs (rx w))).
Proof.
  induction fuel as [|fuel IH]; intros w Hall Hfuel; [lia|].
  cbn [recovery_loop_rounds]. unfold bind at 1. rewrite uart_getc_eq.
  destruct (rx w) as [|c junk] eqn:Hrx.
  - f_equal. apply world_eq; simpl; auto using app_nil_r.
  - inversion Hall as [|? ? Hc Hjunk]; subst.
    destruct (Ascii.eqb_spec c "u") as [Heq|_]; [contradiction|].
    unfold bind, ret. rewrite IH; cbn [mem rx trace].
    + rewrite <- app_assoc. reflexivity.
    + assumption.
    + simpl in Hfuel. lia.
Qed.

(** Whatever runs only adds to the trace. *)
Lemma any_closed : closed (fun _ : list event => True).
Proof. split; auto. Qed.

Lemma uart_update_extends : appends (fun _ => True) (uart_update cfg).
Proof.
  intros w. destruct (session_lines cfg w) as (new & Hnew & _).
  exists new. auto.
Qed.

Lemma boot_gate_extends (k : M Z) :
  appends (fun _ => True) k ->
  appends (fun _ => True)
    (valid <- validate_app cfg ;;
     if valid =? 0 then jump_to_app cfg else k).
Proof.
  intros Hk. apply appends_bind; [apply any_closed| |].
  - intros w. destruct (validate_app_cases cfg w) as (rc & report & -> & _).
    cbn [world_of trace]. eexists. split; [reflexivity|exact I].
  - intros valid. destruct (valid =? 0); [|assumption].
    intros w. rewrite jump_to_app_eq. cbn [world_of extend trace].
    eexists. split; [reflexivity|exact I].
Qed.

Lemma boot_menu_loop_extends (fuel : nat) :
  appends (fun _ => True) (boot_menu_loop cfg fuel).
Proof.
  apply appends_boot_menu_loop; auto using any_closed, uart_update_extends.
Qed.

Lemma recovery_loop_extends :
  appends (fun _ => True) (recovery_loop cfg).
Proof.
  apply appends_recovery_loop; auto using any_closed, uart_update_extends.
Qed.

End MainSteps.

(** X14.  main prompts before it reads, and it waits for a key without a
    timeout.  Whatever memory holds and whatever the host sends, the trace
    of main begins with the two init calls, the four banner lines and
    "BOOT?"; with no input main stops right there, blocked on the serial
    line, having validated nothing and changed nothing, even when a valid
    image is installed; with input the next thing that happens is the read
    of the first key and its echo. *)
Theorem main_prompts_then_waits {board : Board} {engine : ChecksumEngine}
    (cfg : build) (m : memory) (input : list ascii) :
  exists more,
    trace (world_of (main cfg (power_on m input))) = greeting cfg ++ more
    /\ match input with
       | [] =>
           more = []
           /\ main cfg (power_on m input)
              = Stop Blocked (mk_world m [] (greeting cfg))
       | key :: _ =>
           exists more', more = EvRx key :: menu_echo cfg key ++ more'
       end.
Proof.
  rewrite main_greets. destruct input as [|key rest].
  - exists []. rewrite app_nil_r. repeat split.
  - unfold bind at 1.
    rewrite (boot_menu_key cfg _ key rest) by reflexivity.
    cbn [extend power_on mem rx trace app].
    set (w1 := mk_world m rest _).
    assert (Hrest : appends (fun _ => True)
              ((if is_update_key key
                then uart_update cfg ;; boot_menu_loop cfg (S (List.length rest))
                else ret tt) ;;
               valid <- validate_app cfg ;;
               if valid =? 0 then jump_to_app cfg
               else
                 uart_puts
                   (line cfg
                      "Recovery Loop: No valid app found. Press 'u' to update.") ;;
                 recovery_loop cfg)).
    { apply appends_bind; [apply any_closed| |intros _].
      - destruct (is_update_key key);
          [|apply appends_ret; apply any_closed].
        apply appends_bind; [apply any_closed|apply uart_update_extends|].
        intros _. apply boot_menu_loop_extends.
      - apply boot_gate_extends.
        apply appends_bind; [apply any_closed| |intros _].
        + apply appends_uart_puts. exact I.
        + apply recovery_loop_extends. }
    destruct (Hrest w1) as (new & Hnew & _).
    unfold bind at 1 in Hnew.
    exists (EvRx key :: menu_echo cfg key ++ new). split; [|eauto].
    rewrite Hnew. unfold w1. cbn [trace].
    rewrite <- app_assoc. reflexivity.
Qed.

(** X15.  With a valid image installed, any key other than 'u' and 'U'
    boots it: main validates the image and enters it at the payload base.
    Nothing is stored or erased on the way, memory is as it was, and the
    bytes after the key stay pending. *)
Theorem valid_image_boots_on_any_other_key {board : Board}
    {engine : ChecksumEngine} (cfg : build) (m : memory) (key : ascii)
    (rest : list ascii) :
  is_update_key key = false ->
  valid_image m = true ->
  main cfg (power_on m (key :: rest))
  = Stop Handoff
      (mk_world m rest
         (greeting cfg ++ EvRx key :: menu_echo cfg key
          ++ [EvCrc32 payload_base (hdr_size (header_at m APP_BASE));
              EvValidate 0]
          ++ jump_banner cfg ++ [EvJump payload_base])).
Proof.
  intros Hkey Hvalid. rewrite main_greets. unfold bind at 1.
  rewrite (boot_menu_key cfg _ key rest) by reflexivity.
  rewrite Hkey. unfold ret. unfold bind at 1.
  rewrite validate_app_valid by exact Hvalid.
  cbn [Z.eqb]. rewrite jump_to_app_eq.
  unfold extend, power_on. cbn [mem rx trace app].
  rewrite <- !app_assoc. reflexivity.
Qed.

(** Enter on a region that holds the image of DE AD BE EF. *)
Lemma valid_image_boots_on_any_other_key_witness :
  let payload := copy_bytes payload_base [0xDE; 0xAD; 0xBE; 0xEF]
                   erased_memory in
  let m := copy_bytes APP_BASE
             (header_bytes (header_for (engine := zlib) 4 payload)) payload in
  main (board := qemu_virt) (engine := zlib) build_main_c
    (power_on m (CR :: ["x"%char]))
  = Stop Handoff
      (mk_world m ["x"%char]
         (greeting build_main_c ++ EvRx CR :: menu_echo build_main_c CR
          ++ [EvCrc32 payload_base (hdr_size (header_at m APP_BASE));
              EvValidate 0]
          ++ jump_banner build_main_c ++ [EvJump payload_base])).
Proof.
  intros payload m.
  apply (valid_image_boots_on_any_other_key (board := qemu_virt)
           (engine := zlib) build_main_c m CR ["x"%char]).
  - reflexivity.
  - vm_compute. reflexivity.
Defined.

(** X16.  Without a valid image, any key other than 'u' and 'U' leads to
    the recovery loop, and the recovery loop answers to the lower-case 'u'
    alone: every other byte, the upper-case 'U' that the boot menu accepts
    included, is read and dropped without an echo.  On input without a 'u'
    main ends blocked with all input consumed, memory untouched and no
    handoff. *)
Theorem recovery_answers_to_lowercase_u_only {board : Board}
    {engine : ChecksumEngine} (cfg : build) (m : memory) (key : ascii)
    (junk : list ascii) :
  is_update_key key = false ->
  valid_image m = false ->
  Forall (fun c => c <> "u"%char) junk ->
  exists report,
    main cfg (power_on m (key :: junk))
    = Stop Blocked
        (mk_world m []
           (greeting cfg ++ EvRx key :: menu_echo cfg key
            ++ report ++ [EvValidate (-1)]
            ++ tx (line cfg
                     "Recovery Loop: No valid app found. Press 'u' to update.")
            ++ rxs junk))
    /\ Forall (fun e => is_inert e = true) report.
Proof.
  intros Hkey Hinvalid Hjunk. rewrite main_greets. unfold bind at 1.
  rewrite (boot_menu_key cfg _ key junk) by reflexivity.
  rewrite Hkey. unfold ret. unfold bind at 1.
  match goal with
  | |- context [validate_app cfg ?w0] =>
      destruct (validate_app_invalid cfg w0 Hinvalid) as (report & -> & Hrep)
  end.
  exists report. split; [|assumption].
  change (-1 =? 0) with false. cbv iota.
  unfold bind at 1. rewrite uart_puts_eq.
  unfold recovery_loop. rewrite recovery_skips.
  - unfold extend, power_on. cbn [mem rx trace app].
    rewrite <- !app_assoc. reflexivity.
  - exact Hjunk.
  - unfold rounds, extend. cbn [rx]. lia.
Qed.

(** Enter on an erased region, then "U?". *)
Lemma recovery_answers_to_lowercase_u_only_witness :
  exists report,
    main (board := qemu_virt) (engine := zlib) build_direct
      (power_on erased_memory (LF :: ["U"%char; "?"%char]))
    = Stop Blocked
        (mk_world erased_memory []
           (greeting build_direct ++ EvRx LF :: menu_echo build_direct LF
            ++ report ++ [EvValidate (-1)]
            ++ tx (line build_direct
                     "Recovery Loop: No valid app found. Press 'u' to update.")
            ++ rxs ["U"%char; "?"%char]))
    /\ Forall (fun e => is_inert e = true) report.
Proof.
  apply (recovery_answers_to_lowercase_u_only (board := qemu_virt)
           (engine := zlib) build_direct erased_memory LF
           ["U"%char; "?"%char]).
  - reflexivity.
  - reflexivity.
  - repeat constructor; discriminate.
Defined.


(** ** Blocked means starved *)

Section Starved.

Context {board : Board} {engine : ChecksumEngine}.
Variable cfg : build.

Lemma session_starved (w : world) :
  match uart_update cfg w with
  | Stop Blocked w' => rx w' = []
  | _ => True
  end.
Proof.
  destruct (uart_update_session cfg w); try exact I; try reflexivity.
  unfold departed. destruct (direct_boot cfg); exact I.
Qed.

Lemma boot_menu_loop_starved (fuel : nat) (w : world) :
  (List.length (rx w) < fuel)%nat ->
  match boot_menu_loop cfg fuel w with
  | Stop Blocked w' => rx w' = []
  | _ => True
  end.
Proof.
  revert w. induction fuel as [|fuel IH]; intros w Hfuel; [lia|].
  cbn [boot_menu_loop]. unfold bind at 1. rewrite uart_getc_eq.
  destruct (rx w) as [|choice pending] eqn:Hrx; [assumption|].
  unfold bind at 1. rewrite uart_putc_eq. unfold bind at 1.
  set (w1 := extend (echo choice) _).
  assert (Hw1 : rx w1 = pending) by reflexivity.
  assert (Hnl : exists w2,
    match rev_of cfg with
    | main_c => ret tt
    | part_005 =>
        if negb (Ascii.eqb choice CR) && negb (Ascii.eqb choice LF)
        then uart_puts (String LF EmptyString)
        else ret tt
    end w1 = Ret tt w2 /\ rx w2 = pending).
  { destruct (rev_of cfg); [exists w1; auto|].
    destruct (_ && _); [|exists w1; auto].
    rewrite uart_puts_eq. eexists. split; [reflexivity|]. exact Hw1. }
  destruct Hnl as (w2 & -> & Hw2).
  destruct (_ || _); [|exact I].
  unfold bind. pose proof (session_total cfg w2) as Ht.
  pose proof (session_starved w2) as Hs.
  destruct (uart_update cfg w2) as [[] w3|o w3]; [|assumption].
  rewrite Hw2 in Ht. simpl in Hfuel. apply IH. lia.
Qed.

Lemma recovery_loop_rounds_starved (fuel : nat) (w : world) :
  (List.length (rx w) < fuel)%nat ->
  match recovery_loop_rounds cfg fuel w with
  | Stop Blocked w' => rx w' = []
  | _ => True
  end.
Proof.
  revert w. induction fuel as [|fuel IH]; intros w Hfuel; [lia|].
  cbn [recovery_loop_rounds]. unfold bind at 1. rewrite uart_getc_eq.
  destruct (rx w) as [|c pending] eqn:Hrx; [assumption|].
  unfold bind. set (w1 := mk_world _ pending _).
  simpl in Hfuel.
  destruct (Ascii.eqb c "u").
  - pose proof (session_total cfg w1) as Ht.
    pose proof (session_starved w1) as Hs.
    destruct (uart_update cfg w1) as [[] w2|o w2]; [|assumption].
    apply IH. subst w1. cbn [rx] in Ht. lia.
  - unfold ret. apply IH. subst w1. cbn [rx]. lia.
Qed.

Lemma main_starved (w : world) :
  match main cfg w with
  | Stop Blocked w' => rx w' = []
  | _ => True
  end.
Proof.
  rewrite main_greets. unfold bind at 1.
  match goal with
  | |- context [boot_menu cfg ?w0] =>
      pose proof (boot_menu_loop_starved (rounds w0) w0
                    ltac:(unfold rounds; lia)) as Hm;
      change (boot_menu_loop cfg (rounds w0) w0) with (boot_menu cfg w0) in Hm;
      destruct (boot_menu cfg w0) as [[] w1|o w1]
  end; [|assumption].
  clear Hm. unfold bind at 1.
  destruct (validate_app_cases cfg w1) as (rc & report & -> & Hrc & _ & _).
  destruct Hrc as [->| ->]; cbn [Z.eqb Z.opp].
  - rewrite jump_to_app_eq. exact I.
  - unfold bind at 1. rewrite uart_puts_eq.
    apply recovery_loop_rounds_starved. unfold rounds. lia.
Qed.

End Starved.

(** X17.  main never returns, and it never stops reading while input is
    pending: every run ends in the application, in a reset, or blocked on
    the serial line with every byte the host sent consumed. *)
Theorem main_stops_only_starved {board : Board} {engine : ChecksumEngine}
    (cfg : build) (m : memory) (input : list ascii) :
  exists o w',
    main cfg (power_on m input) = Stop o w'
    /\ (o = Handoff \/ o = Rebooted \/ (o = Blocked /\ rx w' = [])).
Proof.
  pose proof (main_stops cfg (power_on m input)) as Hstop.
  pose proof (main_starved cfg (power_on m input)) as Hstarved.
  destruct (main cfg (power_on m input)) as [a w'|o w']; [contradiction|].
  exists o, w'. split; [reflexivity|].
  destruct o; auto. contradiction.
Qed.

(** X18.  What is uploaded is what boots.  On the QEMU board, 'u' or 'U'
    at the boot menu followed by a well-formed transfer ends main the way
    the build says (reset, or direct handoff); the memory it leaves holds a
    valid image whose payload is the bytes that were sent; and main started
    on that memory with any key other than 'u' and 'U' enters the
    application. *)
Theorem update_then_boot {engine : ChecksumEngine} (cfg : build)
    (m : memory) (k : ascii) (pre : list ascii) (t : ascii)
    (payload rest : list ascii) (key : ascii) (rest' : list ascii) :
  is_update_key k = true ->
  is_terminator t = true ->
  Forall (fun c => is_terminator c = false) pre ->
  size_ok (accumulate 0 pre) = true ->
  List.length payload = Z.to_nat (accumulate 0 pre) ->
  is_update_key key = false ->
  let first :=
    main (board := qemu_virt) cfg
      (power_on m (k :: cmd_SEND ++ pre ++ t :: payload ++ rest)) in
  let m' := mem (world_of first) in
  outcome_of first = Some (departed cfg)
  /\ rx (world_of first) = rest
  /\ valid_image m' = true
  /\ read_bytes m' payload_base (List.length payload) = map code payload
  /\ outcome_of (main (board := qemu_virt) cfg (power_on m' (key :: rest')))
     = Some Handoff.
Proof.
  intros Hk Ht Hpre Hok Hlen Hkey first m'.
  assert (Hfirst : exists tr,
    first
    = Stop (departed cfg)
        (mk_world
           (copy_bytes APP_BASE
              (header_bytes
                 (header_for (accumulate 0 pre)
                    (copy_bytes payload_base (map code payload)
                       (fill_bytes (Z.to_nat APP_MAX_SIZE) APP_BASE 0xFF m))))
              (copy_bytes payload_base (map code payload)
                 (fill_bytes (Z.to_nat APP_MAX_SIZE) APP_BASE 0xFF m)))
           rest tr)).
  { unfold first. rewrite main_greets. unfold bind at 1.
    rewrite (boot_menu_key cfg _ k (cmd_SEND ++ pre ++ t :: payload ++ rest))
      by reflexivity.
    rewrite Hk. unfold bind at 1.
    rewrite (committed_transfer (board := qemu_virt) cfg
               ltac:(intros; reflexivity) ltac:(intros; reflexivity)
               _ pre t payload rest) by (try reflexivity; assumption).
    cbv zeta. cbn [mem]. eexists. reflexivity. }
  destruct Hfirst as (tr & Hfirst).
  assert (Hm' : m' = mem (world_of first)) by reflexivity.
  rewrite Hfirst in Hm' |- *. cbn [world_of mem rx outcome_of] in Hm' |- *.
  clearbody m'. clear first Hfirst. subst m'.
  pose proof (accepted_size_fits pre Hok) as Hfit.
  assert (Hsize : Z.of_nat (List.length payload) = accumulate 0 pre)
    by (rewrite Hlen; apply Z2Nat.id; lia).
  destruct (committed_memory m (accumulate 0 pre) payload Hfit Hsize)
    as (Hhdr & Hpayload & _ & _).
  cbv zeta in Hhdr, Hpayload.
  set (m3 := copy_bytes APP_BASE _ _) in *.
  assert (Hvalid : valid_image m3 = true).
  { unfold valid_image. cbv zeta. rewrite Hhdr.
    cbn [hdr_magic hdr_size hdr_crc32].
    rewrite <- Hsize at 3. rewrite Nat2Z.id, Hpayload.
    unfold size_ok in Hok. rewrite Hok, !Z.eqb_refl. reflexivity. }
  repeat split; try assumption.
  rewrite main_greets. unfold bind at 1.
  rewrite (boot_menu_key cfg _ key rest') by reflexivity.
  rewrite Hkey. unfold ret. unfold bind at 1.
  rewrite validate_app_valid by exact Hvalid.
  cbn [Z.eqb]. rewrite jump_to_app_eq. reflexivity.
Qed.

(** Scenario T1 after 'u', then Enter. *)
Lemma update_then_boot_witness :
  let payload := bytes_of [0xDE; 0xAD; 0xBE; 0xEF] in
  let first :=
    main (board := qemu_virt) (engine := zlib) build_main_c
      (power_on erased_memory
         ("u"%char :: cmd_SEND ++ ["4"%char] ++ LF :: payload ++ [])) in
  let m' := mem (world_of first) in
  outcome_of first = Some (departed build_main_c)
  /\ rx (world_of first) = []
  /\ valid_image (engine := zlib) m' = true
  /\ read_bytes m' payload_base (List.length payload) = map code payload
  /\ outcome_of (main (board := qemu_virt) (engine := zlib) build_main_c
                   (power_on m' (LF :: [])))
     = Some Handoff.
Proof.
  intros payload.
  apply (update_then_boot (engine := zlib) build_main_c erased_memory
           "u"%char ["4"%char] LF payload [] LF []).
  - reflexivity.
  - reflexivity.
  - repeat constructor.
  - reflexivity.
  - reflexivity.
  - reflexivity.
Defined.


(** ** src/test_app.c: what the helpers print *)

Lemma code_char_of (z : Z) : code (char_of z) = u8 z.
Proof.
  unfold code, char_of. pose proof (u8_range z) as Hr.
  rewrite N_ascii_embedding.
  - apply Z2N.id. lia.
  - apply N2Z.inj_lt. rewrite Z2N.id by lia. simpl. lia.
Qed.

Lemma code_char_of_small (z : Z) : 0 <= z < 256 -> code (char_of z) = z.
Proof.
  intros Hz. rewrite code_char_of. unfold u8. apply Z.mod_small.
  change (2 ^ 8) with 256. lia.
Qed.

Lemma uart_puts_raw_eq (text : string) (w : world) :
  uart_puts_raw text w = Ret tt (extend (map EvTx (wire text)) w).
Proof.
  revert w. induction text as [|c text IH]; intros w.
  - cbn. rewrite extend_nil. reflexivity.
  - cbn [uart_puts_raw wire]. unfold bind at 1.
    destruct (Ascii.eqb c LF); unfold uart_putc_raw, signal, ret, bind;
      rewrite IH, !extend_extend; reflexivity.
Qed.

Lemma firstn_succ {A} (d : A) (l : list A) :
  forall i : nat,
  (i < List.length l)%nat -> firstn (S i) l = firstn i l ++ [nth i l d].
Proof.
  induction l as [|x l IH]; intros i Hi; [simpl in Hi; lia|].
  destruct i as [|i]; [reflexivity|].
  cbn [firstn nth app]. cbn [firstn] in IH. rewrite <- IH; [reflexivity|].
  simpl in Hi. lia.
Qed.

(** The second loop of uart_put_u32_dec sends the buffer from the top. *)
Lemma drain_eq (buf : list ascii) (i : nat) (w : world) :
  (i <= List.length buf)%nat ->
  drain buf i w = Ret tt (extend (map EvTx (rev (firstn i buf))) w).
Proof.
  revert w. induction i as [|i IH]; intros w Hi.
  - cbn. rewrite extend_nil. reflexivity.
  - cbn [drain]. unfold bind, uart_putc_raw, signal.
    rewrite IH by lia. rewrite extend_extend.
    rewrite (firstn_succ zero) by lia. rewrite rev_app_distr. reflexivity.
Qed.

Lemma decimal_value_snoc (l : list ascii) (c : ascii) :
  decimal_value (l ++ [c]) = decimal_value l * 10 + (code c - code "0").
Proof. unfold decimal_value. rewrite fold_left_app. reflexivity. Qed.

Lemma is_digit_char_of (d : Z) :
  0 <= d < 10 -> is_digit (char_of (code "0" + d)) = true.
Proof.
  intros Hd. unfold is_digit. change (code "0") with 48.
  change (code "9") with 57. rewrite code_char_of_small by lia.
  apply andb_true_iff. split; apply Z.leb_le; lia.
Qed.

(** The first loop of uart_put_u32_dec leaves the digits of the value in the
    buffer, lowest first, as many as the value has. *)
Lemma fill_digits_spec (room : nat) :
  forall (value : Z) (buf : list ascii),
  0 <= value < 10 ^ Z.of_nat room ->
  exists digits,
    fill_digits room value buf = buf ++ digits
    /\ Forall (fun c => is_digit c = true) digits
    /\ decimal_value (rev digits) = value
    /\ (value = 0 -> digits = [])
    /\ (0 < value -> 10 ^ (Z.of_nat (List.length digits) - 1) <= value).
Proof.
  induction room as [|room IH]; intros value buf Hv.
  - exists []. cbn [fill_digits]. rewrite app_nil_r.
    change (10 ^ Z.of_nat 0) with 1 in Hv.
    repeat split; [constructor|cbn; lia|lia].
  - cbn [fill_digits]. destruct (Z.gtb_spec value 0) as [Hpos|Hzero].
    + assert (Hdiv : 0 <= value / 10 < 10 ^ Z.of_nat room).
      { rewrite Nat2Z.inj_succ, Z.pow_succ_r in Hv by lia.
        split; [apply Z.div_pos; lia|].
        apply Z.div_lt_upper_bound; lia. }
      destruct (IH (value / 10)
                  (buf ++ [char_of (code "0" + value mod 10)]) Hdiv)
        as (digits & Hfill & Hall & Hval & Hnil & Hlow).
      pose proof (Z.mod_pos_bound value 10 ltac:(lia)) as Hmod.
      pose proof (Z.div_mod value 10 ltac:(lia)) as Hdm.
      exists (char_of (code "0" + value mod 10) :: digits).
      split; [rewrite Hfill, <- app_assoc; reflexivity|].
      split; [constructor; [apply is_digit_char_of; lia|assumption]|].
      split.
      { cbn [rev]. rewrite decimal_value_snoc, Hval.
        change (code "0") with 48. rewrite code_char_of_small by lia.
        lia. }
      split; [lia|]. intros _.
      cbn [List.length]. rewrite Nat2Z.inj_succ.
      replace (Z.succ (Z.of_nat (List.length digits)) - 1)
        with (Z.of_nat (List.length digits)) by lia.
      destruct (Z.eq_dec (value / 10) 0) as [Hz|Hnz].
      * rewrite (Hnil Hz). change (10 ^ Z.of_nat (List.length [])) with 1.
        lia.
      * specialize (Hlow ltac:(lia)).
        assert (Hge : 1 <= Z.of_nat (List.length digits)).
        { destruct digits; [|cbn [List.length]; lia].
          cbn in Hval. lia. }
        replace (Z.of_nat (List.length digits))
          with (Z.succ (Z.of_nat (List.length digits) - 1)) by lia.
        rewrite Z.pow_succ_r by lia. lia.
    + assert (value = 0) by lia. subst value.
      exists []. rewrite app_nil_r.
      repeat split; [constructor|lia].
Qed.

Lemma filter_all {A} (p : A -> bool) (l : list A) :
  Forall (fun x => p x = true) l -> filter p l = l.
Proof.
  induction 1 as [|x l Hx _ IH]; [reflexivity|].
  cbn [filter]. rewrite Hx, IH. reflexivity.
Qed.

(** X19.  uart_put_u32_dec prints the plain decimal numeral of its
    argument: between one and ten digits whose value is the argument, with
    no leading zero (a single "0" for zero).  The eleven-byte buffer is
    never the reason the first loop ends, so no digit is lost; and the
    numeral read back by the bootloader's size parser gives the argument
    again. *)
Theorem uart_put_u32_dec_prints_the_numeral (value : Z) (w : world) :
  0 <= value < 2 ^ 32 ->
  exists digits,
    uart_put_u32_dec value w
    = Ret tt (mk_world (mem w) (rx w) (trace w ++ map EvTx digits))
    /\ Forall (fun c => is_digit c = true) digits
    /\ decimal_value digits = value
    /\ (1 <= List.length digits <= 10)%nat
    /\ (0 < value -> 10 ^ (Z.of_nat (List.length digits) - 1) <= value)
    /\ accumulate 0 digits = value.
Proof.
  intros Hv. unfold uart_put_u32_dec.
  destruct (Z.eqb_spec value 0) as [->|Hnz].
  - exists ["0"%char].
    split; [reflexivity|]. split; [repeat constructor|].
    split; [reflexivity|]. split; [simpl; lia|].
    split; [lia|reflexivity].
  - destruct (fill_digits_spec sizeof_buf value [])
      as (lowfirst & Hfill & Hall & Hval & Hnil & Hlow).
    { change (10 ^ Z.of_nat sizeof_buf) with 100000000000.
      change (2 ^ 32) with 4294967296 in Hv. lia. }
    cbn [app] in Hfill. rewrite Hfill. cbv zeta.
    rewrite drain_eq by lia. rewrite firstn_all.
    specialize (Hlow ltac:(lia)).
    exists (rev lowfirst). rewrite length_rev.
    assert (Hdigits : Forall (fun c => is_digit c = true) (rev lowfirst))
      by (apply Forall_rev; assumption).
    assert (Hlen : (1 <= List.length lowfirst <= 10)%nat).
    { split.
      - destruct lowfirst; [cbn in Hval; lia|cbn [List.length]; lia].
      - destruct (Nat.le_gt_cases (List.length lowfirst) 10) as [|Hbig];
          [assumption|exfalso].
        assert (10 ^ 10 <= 10 ^ (Z.of_nat (List.length lowfirst) - 1))
          by (apply Z.pow_le_mono_r; lia).
        change (2 ^ 32) with 4294967296 in Hv.
        change (10 ^ 10) with 10000000000 in *. lia. }
    repeat split; try assumption; try lia.
    rewrite parsed_size_decimal, (filter_all _ _ Hdigits), Hval.
    apply u32_small. assumption.
Qed.

Lemma uart_put_u32_dec_prints_the_numeral_witness :
  exists digits,
    uart_put_u32_dec 458736 (power_on erased_memory [])
    = Ret tt (mk_world erased_memory [] ([] ++ map EvTx digits))
    /\ Forall (fun c => is_digit c = true) digits
    /\ decimal_value digits = 458736
    /\ (1 <= List.length digits <= 10)%nat
    /\ (0 < 458736 -> 10 ^ (Z.of_nat (List.length digits) - 1) <= 458736)
    /\ accumulate 0 digits = 458736.
Proof.
  apply (uart_put_u32_dec_prints_the_numeral 458736
           (power_on erased_memory [])).
  vm_compute. split; [discriminate|reflexivity].
Defined.


Lemma hex_nibble_eq (x : Z) (w : world) :
  exists c,
    uart_put_hex_nibble x w = Ret tt (extend [EvTx c] w)
    /\ is_upper_hex c = true
    /\ hex_digit_value c = x mod 16.
Proof.
  unfold uart_put_hex_nibble. cbv zeta.
  change 0x0F with (Z.ones 4). rewrite Z.land_ones by lia.
  change (2 ^ 4) with 16.
  pose proof (Z.mod_pos_bound x 16 ltac:(lia)) as Hn.
  set (n := x mod 16) in *.
  unfold is_upper_hex, hex_digit_value, is_digit.
  change (code "0") with 48. change (code "9") with 57.
  change (code "A") with 65. change (code "F") with 70.
  destruct (Z.ltb_spec n 10) as [Hlt|Hge]; eexists;
    (split; [reflexivity|]); rewrite !code_char_of_small by lia.
  - replace (48 <=? 48 + n) with true by (symmetry; apply Z.leb_le; lia).
    replace (48 + n <=? 57) with true by (symmetry; apply Z.leb_le; lia).
    split; [reflexivity|]. cbn [andb]. lia.
  - replace (65 + (n - 10) <=? 57) with false
      by (symmetry; apply Z.leb_gt; lia).
    rewrite andb_false_r. cbn [orb].
    replace (65 <=? 65 + (n - 10)) with true
      by (symmetry; apply Z.leb_le; lia).
    replace (65 + (n - 10) <=? 70) with true
      by (symmetry; apply Z.leb_le; lia).
    split; [reflexivity|]. lia.
Qed.

Lemma hex_value_from (digits : list ascii) (acc : Z) :
  fold_left (fun a c => a * 16 + hex_digit_value c) digits acc
  = acc * 16 ^ Z.of_nat (List.length digits) + hex_value digits.
Proof.
  unfold hex_value. revert acc.
  induction digits as [|c digits IH]; intros acc.
  - cbn. lia.
  - cbn [fold_left List.length]. rewrite IH, (IH (0 * 16 + _)).
    rewrite Nat2Z.inj_succ, Z.pow_succ_r by lia. ring.
Qed.

Lemma hex_value_cons (c : ascii) (digits : list ascii) :
  hex_value (c :: digits)
  = hex_digit_value c * 16 ^ Z.of_nat (List.length digits)
    + hex_value digits.
Proof.
  unfold hex_value at 1. cbn [fold_left]. rewrite hex_value_from.
  reflexivity.
Qed.

(** The loop of uart_put_u32_hex from the nibble at bit 4n - 4 down prints
    the lowest n nibbles of the value, highest first. *)
Lemma hex_from_spec (n : nat) :
  forall (fuel : nat) (value : Z) (w : world),
  (n < fuel)%nat ->
  exists digits,
    hex_from fuel (4 * Z.of_nat n - 4) value w
    = Ret tt (extend (map EvTx digits) w)
    /\ List.length digits = n
    /\ Forall (fun c => is_upper_hex c = true) digits
    /\ hex_value digits = value mod 16 ^ Z.of_nat n.
Proof.
  induction n as [|n IH]; intros fuel value w Hfuel;
    (destruct fuel as [|fuel]; [lia|]); cbn [hex_from].
  - exists []. rewrite extend_nil.
    repeat split; [constructor|].
    change (16 ^ Z.of_nat 0) with 1. rewrite Z.mod_1_r. reflexivity.
  - replace (4 * Z.of_nat (S n) - 4 <? 0) with false
      by (symmetry; apply Z.ltb_ge; lia).
    unfold bind.
    destruct (hex_nibble_eq (u8 (Z.shiftr value (4 * Z.of_nat (S n) - 4))) w)
      as (c & -> & Hc & Hval).
    replace (4 * Z.of_nat (S n) - 4 - 4) with (4 * Z.of_nat n - 4) by lia.
    destruct (IH fuel value (extend [EvTx c] w) ltac:(lia))
      as (digits & -> & Hlen & Hall & Hdigits).
    exists (c :: digits). rewrite extend_extend.
    split; [reflexivity|]. split; [simpl; lia|].
    split; [constructor; assumption|].
    rewrite hex_value_cons, Hlen, Hdigits, Hval.
    replace (4 * Z.of_nat (S n) - 4) with (4 * Z.of_nat n) by lia.
    rewrite Z.shiftr_div_pow2 by lia.
    rewrite Z.pow_mul_r by lia. change (2 ^ 4) with 16.
    assert (Hpow : 0 < 16 ^ Z.of_nat n) by (apply Z.pow_pos_nonneg; lia).
    set (p := 16 ^ Z.of_nat n) in *.
    replace (u8 (value / p) mod 16) with ((value / p) mod 16).
    + rewrite Nat2Z.inj_succ, Z.pow_succ_r by lia. fold p.
      rewrite (Z.mul_comm 16 p), Z.rem_mul_r by lia. ring.
    + unfold u8. change (2 ^ 8) with 256.
      generalize (value / p). intros q.
      Z.to_euclidean_division_equations. lia.
Qed.

(** X20.  uart_put_u32_hex prints "0x" and then exactly eight upper-case
    hexadecimal digits, highest nibble first, whose value is the argument;
    under ilp32 uart_put_ptr_hex prints the same. *)
Theorem uart_put_u32_hex_prints_eight_digits (value : Z) (w : world) :
  0 <= value < 2 ^ 32 ->
  exists digits,
    uart_put_u32_hex value w
    = Ret tt (mk_world (mem w) (rx w)
                (trace w ++ map EvTx ("0" :: "x" :: digits)%char))
    /\ List.length digits = 8%nat
    /\ Forall (fun c => is_upper_hex c = true) digits
    /\ hex_value digits = value
    /\ uart_put_ptr_hex value w = uart_put_u32_hex value w.
Proof.
  intros Hv.
  change (uart_put_ptr_hex value w) with (uart_put_u32_hex value w).
  unfold uart_put_u32_hex. unfold bind.
  rewrite uart_puts_raw_eq.
  change 28 with (4 * Z.of_nat 8 - 4).
  destruct (hex_from_spec 8 9 value
              (extend (map EvTx (wire "0x")) w) ltac:(lia))
    as (digits & -> & Hlen & Hall & Hval).
  exists digits. rewrite extend_extend.
  split; [reflexivity|]. split; [assumption|]. split; [assumption|].
  split; [|reflexivity].
  rewrite Hval. apply Z.mod_small.
  change (16 ^ Z.of_nat 8) with (2 ^ 32). assumption.
Qed.

Lemma uart_put_u32_hex_prints_eight_digits_witness :
  exists digits,
    uart_put_u32_hex 0x10000000 (power_on erased_memory [])
    = Ret tt (mk_world erased_memory []
                ([] ++ map EvTx ("0" :: "x" :: digits)%char))
    /\ List.length digits = 8%nat
    /\ Forall (fun c => is_upper_hex c = true) digits
    /\ hex_value digits = 0x10000000
    /\ uart_put_ptr_hex 0x10000000 (power_on erased_memory [])
       = uart_put_u32_hex 0x10000000 (power_on erased_memory []).
Proof.
  apply (uart_put_u32_hex_prints_eight_digits 0x10000000
           (power_on erased_memory [])).
  vm_compute. split; [discriminate|reflexivity].
Defined.

(** ** print_isa_extensions *)

Lemma misa_bit (misa i : Z) :
  0 <= i < 32 ->
  negb (Z.land misa (u32 (Z.shiftl 1 i)) =? 0) = Z.testbit misa i.
Proof.
  intros Hi. rewrite Z.shiftl_1_l.
  rewrite u32_small
    by (split; [apply Z.pow_nonneg; lia|apply Z.pow_lt_mono_r; lia]).
  destruct (Z.testbit misa i) eqn:Hbit.
  - destruct (Z.eqb_spec (Z.land misa (2 ^ i)) 0) as [Hz|_]; [|reflexivity].
    exfalso. apply (f_equal (fun z => Z.testbit z i)) in Hz.
    rewrite Z.land_spec, Hbit, Z.pow2_bits_true, Z.bits_0 in Hz by lia.
    discriminate.
  - replace (Z.land misa (2 ^ i)) with 0; [reflexivity|].
    symmetry. apply Z.bits_inj'. intros n Hn.
    rewrite Z.land_spec, Z.bits_0, Z.pow2_bits_eqb by lia.
    destruct (Z.eqb_spec i n) as [<-|_];
      [rewrite Hbit; reflexivity|apply andb_false_r].
Qed.

Lemma isa_loop_spec (n : nat) :
  forall (i misa : Z) (found : bool) (w : world),
  0 <= i -> i + Z.of_nat n <= 32 ->
  let letters := extension_letters n i misa in
  isa_loop n i misa found w
  = Ret (found || match letters with [] => false | _ :: _ => true end)
      (extend (map EvTx (if found then with_commas letters
                         else comma_separated letters)) w).
Proof.
  induction n as [|n IH]; intros i misa found w Hi Hn; cbv zeta.
  - cbn. rewrite orb_false_r. destruct found; rewrite extend_nil;
      reflexivity.
  - cbn [isa_loop extension_letters]. rewrite misa_bit by lia.
    destruct (Z.testbit misa i).
    + unfold bind at 1.
      assert (Hputs : forall w0,
        (if found then uart_putc_raw "," else ret tt) w0
        = Ret tt (extend (if found then [EvTx ","] else []) w0)).
      { intros w0. destruct found; [reflexivity|].
        unfold ret. rewrite extend_nil. reflexivity. }
      rewrite Hputs. unfold bind, uart_putc_raw, signal.
      rewrite IH by lia. cbv zeta.
      rewrite !extend_extend. cbn [app orb]. rewrite orb_true_r.
      destruct found; reflexivity.
    + cbn [app]. apply IH; lia.
Qed.

Lemma in_extension_letters (misa : Z) (n : nat) :
  forall k i : Z,
  0 <= k -> k + Z.of_nat n <= 26 -> 0 <= i < 26 ->
  In (char_of (code "A" + i)) (extension_letters n k misa)
  <-> k <= i < k + Z.of_nat n /\ Z.testbit misa i = true.
Proof.
  induction n as [|n IH]; intros k i Hk Hn Hi.
  - cbn. split; [contradiction|lia].
  - cbn [extension_letters]. rewrite in_app_iff, IH by lia.
    change (code "A") with 65.
    split.
    + intros [Hin|[Hrange Hbit]]; [|split; [lia|assumption]].
      destruct (Z.testbit misa k) eqn:Hbit; [|contradiction].
      destruct Hin as [Heq|[]].
      apply (f_equal code) in Heq.
      rewrite !code_char_of_small in Heq by lia.
      assert (i = k) by lia. subst i. split; [lia|assumption].
    + intros [Hrange Hbit].
      destruct (Z.eq_dec i k) as [->|Hne].
      * left. rewrite Hbit. left. reflexivity.
      * right. split; [lia|assumption].
Qed.

Lemma extension_letters_ext (misa misa' : Z) (n : nat) :
  forall k : Z,
  (forall i, k <= i < k + Z.of_nat n -> Z.testbit misa' i = Z.testbit misa i) ->
  extension_letters n k misa' = extension_letters n k misa.
Proof.
  induction n as [|n IH]; intros k H; [reflexivity|].
  cbn [extension_letters]. rewrite H by lia. f_equal.
  apply IH. intros i Hi. apply H. lia.
Qed.

(** X21.  print_isa_extensions prints the letters of the extensions whose
    bits are set among bits 0 to 25 of misa, in alphabetical order with a
    comma between each two, or "none" when none is set, and ends the line.
    A letter is printed exactly when its bit is set, and bits 26 to 31 (the
    MXL field among them) have no influence. *)
Theorem print_isa_extensions_lists_the_set_bits (misa : Z) (w : world) :
  let letters := extension_letters 26 0 misa in
  print_isa_extensions misa w
  = Ret tt (mk_world (mem w) (rx w)
              (trace w
               ++ map EvTx
                    (match letters with
                     | [] => list_ascii_of_string "none"
                     | _ :: _ => comma_separated letters
                     end ++ [CR; LF])))
  /\ (forall i, 0 <= i < 26 ->
        In (char_of (code "A" + i)) letters <-> Z.testbit misa i = true)
  /\ print_isa_extensions (misa mod 2 ^ 26) w = print_isa_extensions misa w.
Proof.
  intros letters.
  assert (Hrun : forall x,
    print_isa_extensions x w
    = Ret tt (mk_world (mem w) (rx w)
                (trace w
                 ++ map EvTx
                      (match extension_letters 26 0 x with
                       | [] => list_ascii_of_string "none"
                       | _ :: _ => comma_separated (extension_letters 26 0 x)
                       end ++ [CR; LF])))).
  { intros x. unfold print_isa_extensions. unfold bind at 1.
    rewrite isa_loop_spec by lia. cbv zeta. cbn [orb].
    destruct (extension_letters 26 0 x) as [|c l]; cbn [negb];
      unfold bind, ret; cbv beta iota; rewrite !uart_puts_raw_eq;
      rewrite ?extend_extend, <- ?map_app; reflexivity. }
  split; [apply Hrun|]. split.
  - intros i Hi. unfold letters.
    rewrite in_extension_letters by lia. split; [tauto|]. intros H.
    split; [lia|assumption].
  - rewrite !Hrun.
    rewrite (extension_letters_ext misa (misa mod 2 ^ 26)); [reflexivity|].
    intros i Hi. apply Z.mod_pow2_bits_low. lia.
Qed.


(** ** After an aborted session *)


(** X22.  An aborted session returns to the boot menu, and the menu takes
    the next byte of the same line for a key.  After 'u' or 'U' and a
    command that goes wrong at some byte, the byte after the wrong one is
    read as the next menu choice: if it is not an update key and a valid
    image is installed, main validates and enters the application, with
    memory untouched. *)
Theorem mistyped_command_falls_back_to_boot {board : Board}
    {engine : ChecksumEngine} (cfg : build) (m : memory) (k : ascii)
    (got : list ascii) (expected : ascii) (cmd' : list ascii) (c key : ascii)
    (rest : list ascii) :
  is_update_key k = true ->
  cmd_SEND = got ++ expected :: cmd' ->
  c <> expected ->
  is_update_key key = false ->
  valid_image m = true ->
  main cfg (power_on m (k :: got ++ c :: key :: rest))
  = Stop Handoff
      (mk_world m rest
         (greeting cfg ++ EvRx k :: menu_echo cfg k
          ++ tx (line cfg "OK") ++ rxs (got ++ [c])
          ++ tx (line cfg "ERR: CMD")
          ++ EvRx key :: menu_echo cfg key
          ++ [EvCrc32 payload_base (hdr_size (header_at m APP_BASE));
              EvValidate 0]
          ++ jump_banner cfg ++ [EvJump payload_base])).
Proof.
  intros Hk Hcmd Hne Hkey Hvalid. rewrite main_greets. unfold bind at 1.
  rewrite (boot_menu_key cfg _ k (got ++ c :: key :: rest)) by reflexivity.
  rewrite Hk. unfold bind at 1.
  rewrite (wrong_command_run cfg _ got expected cmd' c (key :: rest))
    by (try reflexivity; assumption).
  rewrite (boot_menu_loop_key cfg _ _ key rest) by reflexivity.
  rewrite Hkey. unfold ret. unfold bind at 1.
  rewrite validate_app_valid by exact Hvalid.
  cbn [Z.eqb]. rewrite jump_to_app_eq.
  unfold extend, power_on. cbn [mem rx trace app].
  rewrite <- ?app_assoc. cbn [app]. rewrite <- ?app_assoc. reflexivity.
Qed.

(** 'u', then "SENT 4": the 'T' is wrong and the blank after it boots. *)
Lemma mistyped_command_falls_back_to_boot_witness :
  let payload := copy_bytes payload_base [0xDE; 0xAD; 0xBE; 0xEF]
                   erased_memory in
  let m := copy_bytes APP_BASE
             (header_bytes (header_for (engine := zlib) 4 payload)) payload in
  main (board := qemu_virt) (engine := zlib) build_main_c
    (power_on m ("u"%char :: list_ascii_of_string "SEN"
                 ++ "T"%char :: " "%char :: list_ascii_of_string "4"))
  = Stop Handoff
      (mk_world m (list_ascii_of_string "4")
         (greeting build_main_c ++ EvRx "u" :: menu_echo build_main_c "u"
          ++ tx (line build_main_c "OK")
          ++ rxs (list_ascii_of_string "SEN" ++ ["T"%char])
          ++ tx (line build_main_c "ERR: CMD")
          ++ EvRx " " :: menu_echo build_main_c " "
          ++ [EvCrc32 payload_base (hdr_size (header_at m APP_BASE));
              EvValidate 0]
          ++ jump_banner build_main_c ++ [EvJump payload_base])).
Proof.
  intros payload m.
  apply (mistyped_command_falls_back_to_boot (board := qemu_virt)
           (engine := zlib) build_main_c m "u"%char
           (list_ascii_of_string "SEN") "D"%char [" "%char] "T"%char
           " "%char (list_ascii_of_string "4")).
  - reflexivity.
  - reflexivity.
  - discriminate.
  - reflexivity.
  - vm_compute. reflexivity.
Defined.

(** X23.  The size line ends at the first carriage return or line feed,
    and whatever follows is payload: of a size line that ends in "\r\n" the
    line feed becomes the first payload byte.  On the QEMU board the session
    still commits; the payload stored is the line feed followed by all but
    the last of the bytes the host meant to send, and that last byte stays
    pending. *)
Theorem crlf_after_size_shifts_the_payload {engine : ChecksumEngine}
    (cfg : build) (w : world) (pre body : list ascii) (final : ascii)
    (rest : list ascii) :
  rx w = cmd_SEND ++ pre ++ CR :: LF :: body ++ final :: rest ->
  Forall (fun c => is_terminator c = false) pre ->
  size_ok (accumulate 0 pre) = true ->
  List.length (body ++ [final]) = Z.to_nat (accumulate 0 pre) ->
  exists w',
    uart_update (board := qemu_virt) cfg w = Stop (departed cfg) w'
    /\ rx w' = final :: rest
    /\ read_bytes (mem w') payload_base (List.length (body ++ [final]))
       = map code (LF :: body)
    /\ hdr_crc32 (header_at (mem w') APP_BASE)
       = u32 (checksum (map code (LF :: body))).
Proof.
  intros Hrx Hpre Hok Hlen.
  assert (Hlen' : List.length (LF :: body) = Z.to_nat (accumulate 0 pre)).
  { rewrite <- Hlen, length_app. cbn [List.length]. lia. }
  rewrite (committed_transfer (board := qemu_virt) cfg
             ltac:(intros; reflexivity) ltac:(intros; reflexivity)
             w pre CR (LF :: body) (final :: rest));
    try assumption; try reflexivity.
  cbv zeta. eexists. split; [reflexivity|]. cbn [mem rx trace].
  split; [reflexivity|].
  pose proof (accepted_size_fits pre Hok) as Hfit.
  assert (Hsize : Z.of_nat (List.length (LF :: body)) = accumulate 0 pre)
    by (rewrite Hlen'; apply Z2Nat.id; lia).
  destruct (committed_memory (mem w) (accumulate 0 pre) (LF :: body)
              Hfit Hsize) as (Hhdr & Hpayload & _ & _).
  cbv zeta in Hhdr, Hpayload.
  replace (List.length (body ++ [final])) with (List.length (LF :: body))
    by (rewrite length_app; cbn [List.length]; lia).
  split; [exact Hpayload|]. rewrite Hhdr. reflexivity.
Qed.

(** "SEND 4\r\n" and DE AD BE EF: 0A DE AD BE is stored, EF is left over. *)
Lemma crlf_after_size_shifts_the_payload_witness :
  let body := bytes_of [0xDE; 0xAD; 0xBE] in
  let final := ascii_of_nat 0xEF in
  exists w',
    uart_update (board := qemu_virt) (engine := zlib) build_main_c
      (power_on erased_memory
         (cmd_SEND ++ ["4"%char] ++ CR :: LF :: body ++ final :: []))
    = Stop (departed build_main_c) w'
    /\ rx w' = final :: []
    /\ read_bytes (mem w') payload_base (List.length (body ++ [final]))
       = map code (LF :: body)
    /\ hdr_crc32 (header_at (mem w') APP_BASE)
       = u32 (checksum (ChecksumEngine := zlib) (map code (LF :: body))).
Proof.
  intros body final.
  apply (crlf_after_size_shifts_the_payload (engine := zlib) build_main_c
           (power_on erased_memory
              (cmd_SEND ++ ["4"%char] ++ CR :: LF :: body ++ final :: []))
           ["4"%char] body final []).
  - reflexivity.
  - repeat constructor.
  - reflexivity.
  - reflexivity.
Defined.


(** ** Where the bootloader writes *)

Lemma stays_inert (tr : list event) :
  Forall (fun e => is_inert e = true) tr ->
  forallb stays_in_partition tr = true.
Proof.
  induction 1 as [|e tr He _ IH]; [reflexivity|].
  cbn [forallb]. rewrite IH, andb_true_r.
  destruct e; try reflexivity; discriminate He.
Qed.

Lemma stays_tx (s : string) : forallb stays_in_partition (tx s) = true.
Proof. apply stays_inert, inert_tx. Qed.

Lemma stays_rxs (got : list ascii) :
  forallb stays_in_partition (rxs got) = true.
Proof. apply stays_inert, inert_rxs. Qed.

Lemma stays_asked (cfg : build) (pre : list ascii) (t : ascii) :
  forallb stays_in_partition (asked cfg pre t) = true.
Proof.
  unfold asked. rewrite !forallb_app, stays_tx, !stays_rxs. reflexivity.
Qed.

Lemma stays_received (got : list ascii) :
  forall dest : Z,
  payload_base <= dest ->
  dest + Z.of_nat (List.length got) <= APP_BASE + APP_MAX_SIZE ->
  forallb stays_in_partition (received dest got) = true.
Proof.
  induction got as [|c got IH]; intros dest Hlo Hhi; [reflexivity|].
  cbn [List.length] in Hhi. cbn [received forallb stays_in_partition].
  rewrite IH by lia.
  replace (payload_base <=? dest) with true by (symmetry; apply Z.leb_le; lia).
  replace (dest <? APP_BASE + APP_MAX_SIZE) with true
    by (symmetry; apply Z.ltb_lt; lia).
  reflexivity.
Qed.

Lemma stays_departure (cfg : build) :
  forallb stays_in_partition (departure cfg) = true.
Proof.
  unfold departure, jump_banner.
  destruct (direct_boot cfg); [|reflexivity].
  rewrite !forallb_app, stays_tx.
  destruct (rev_of cfg); rewrite ?stays_tx; reflexivity.
Qed.

Lemma stays_transfer {engine : ChecksumEngine} (cfg : build) (size : Z)
    (payload : list ascii) (m : memory) (rc : Z) :
  Z.of_nat (List.length payload) <= APP_MAX_SIZE - sizeof_fw_header_t ->
  forallb stays_in_partition (transfer cfg size payload m rc) = true.
Proof.
  intros Hlen. unfold transfer.
  rewrite !forallb_app, !stays_tx, stays_received.
  - reflexivity.
  - lia.
  - unfold payload_base. lia.
Qed.

Section Confined.

Context {board : Board} {engine : ChecksumEngine}.
Variable cfg : build.

Lemma confined_closed : closed confined.
Proof.
  split; [reflexivity|]. unfold confined. intros a b Ha Hb.
  rewrite forallb_app, Ha, Hb. reflexivity.
Qed.

Lemma session_confined : appends confined (uart_update cfg).
Proof.
  intros w. pose proof (uart_update_session cfg w) as Hs.
  destruct Hs as
    [ e cmd' Hcmd
    | got e cmd' c rest Hcmd Hrx Hne
    | pre Hrx Hpre
    | pre t rest Hrx Ht Hpre Hsz
    | pre t rest rc m1 Hrx Ht Hpre Hsz He Hrc
    | pre t rest m1 Hrx Ht Hpre Hsz He Hlen
    | pre t payload rest m1 rc m3 Hrx Ht Hpre Hsz He Hlen size m2 Hw Hrc
    | pre t payload rest m1 m3 Hrx Ht Hpre Hsz He Hlen size m2 Hw ];
    cbn [world_of trace]; eexists; (split; [reflexivity|]);
    unfold confined;
    try (pose proof (size_ok_range _ Hsz (proj1 (accumulate_range pre)))
           as Hfit);
    rewrite ?forallb_app, ?stays_asked, ?stays_tx, ?stays_rxs,
      ?stays_departure; try reflexivity.
  - rewrite stays_received; [reflexivity|lia|].
    unfold payload_base. lia.
  - rewrite stays_transfer; [reflexivity|]. fold size in Hfit. lia.
  - rewrite stays_transfer; [reflexivity|]. fold size in Hfit. lia.
Qed.

Lemma gate_confined (k : M Z) :
  appends confined k ->
  appends confined
    (valid <- validate_app cfg ;;
     if valid =? 0 then jump_to_app cfg else k).
Proof.
  intros Hk. apply appends_bind; [apply confined_closed| |].
  - intros w.
    destruct (validate_app_cases cfg w) as (rc & report & -> & _ & Hrep & _).
    exists (report ++ [EvValidate rc]). split; [reflexivity|].
    unfold confined. rewrite forallb_app, (stays_inert report Hrep).
    reflexivity.
  - intros valid. destruct (valid =? 0); [|assumption].
    intros w. rewrite jump_to_app_eq.
    exists (jump_banner cfg ++ [EvJump payload_base]).
    split; [reflexivity|]. unfold confined.
    rewrite forallb_app, (stays_inert _ (inert_jump_banner cfg)).
    reflexivity.
Qed.

Lemma main_confined : appends confined (main cfg).
Proof.
  apply appends_main.
  - apply confined_closed.
  - intros c. apply stays_rxs.
  - intros c. apply stays_inert, inert_echo.
  - intros s _. apply stays_tx.
  - apply session_confined.
  - split; reflexivity.
  - apply gate_confined.
Qed.

End Confined.

(** X24.  The bootloader never writes outside the application partition.
    In every run of main, on every board and for every input, each store
    of a receive loop falls between the payload base and the end of the
    partition, each flash write is the sixteen header bytes at APP_BASE,
    and each erase is the erase of the partition: the size check of
    uart_update keeps the receive loop, which does not go through
    flash_write, inside the partition. *)
Theorem main_writes_stay_in_partition {board : Board}
    {engine : ChecksumEngine} (cfg : build) (m : memory)
    (input : list ascii) :
  Forall (fun e => stays_in_partition e = true)
    (trace (world_of (main cfg (power_on m input)))).
Proof.
  destruct (main_confined cfg (power_on m input)) as (new & -> & Hnew).
  cbn [power_on trace app]. apply Forall_forall.
  intros e He. apply (proj1 (forallb_forall _ _) Hnew). exact He.
Qed.
